(** * check-compromised-npm-packages: the detection engine

    A shallow embedding of [lib/core.js] ([compare], [uniqFindings], [add],
    [collectFromPackageLock], [readJSONSafe]) and of [check-compromised.js]
    ([loadKnownBad], [collectFromNodeModules] with [processPkg] and [walk],
    and the merge loop of [main]), followed by the properties of the
    specification that were checked against it. *)

From Stdlib Require Import List String Ascii ZArith NArith Bool Arith Lia FinFun.
From Stdlib Require Import DecimalString.
Import ListNotations.

Set Warnings "-register-all".

Open Scope string_scope.
Open Scope list_scope.

Infix "+:+" := String.append (at level 60, right associativity).

(** ** Exceptions

    An uncaught [TypeError] ends the JavaScript program; a function that can
    throw returns a [result].  [OutOfFuel] is no outcome of the program: a
    recursive function of the model that is not structural takes a recursion
    budget and returns [OutOfFuel] when the budget is used up.  The budgets
    the callers give are shown to suffice. *)

Inductive result (A : Type) : Type :=
| Ok (a : A)
| TypeError
| OutOfFuel.

Arguments Ok {A} a.
Arguments TypeError {A}.
Arguments OutOfFuel {A}.

Definition bind {A B : Type} (r : result A) (k : A -> result B) : result B :=
  match r with
  | Ok a => k a
  | TypeError => TypeError
  | OutOfFuel => OutOfFuel
  end.

Notation "x <- r ;; k" := (bind r (fun x => k))
  (at level 61, r at next level, right associativity).
Notation "' p <- r ;; k" := (bind r (fun p => k))
  (at level 61, p pattern, r at next level, right associativity).

(** ** JavaScript values as [JSON.parse] produces them

    [JNum m e] is the number [m * 10^e], written with the decimal digits that
    [Number::toString] prints for it.  [JObj] lists the own properties in
    enumeration order; a parsed object has no two properties with one key.
    [JUndefined] is what reading an absent property gives. *)

Inductive jsval : Type :=
| JUndefined
| JNull
| JBool (b : bool)
| JNum (m e : Z)
| JStr (s : string)
| JArr (items : list jsval)
| JObj (props : list (string * jsval)).

Module JS.

(** Own-property lookup in a property list. *)
Fixpoint lookup (k : string) (props : list (string * jsval)) : option jsval :=
  match props with
  | [] => None
  | (k', v) :: rest => if String.eqb k' k then Some v else lookup k rest
  end.

(** [v.k] for the property names the program reads ([packages], [name],
    [version], [dependencies], [badVersions]): none of them is defined on a
    prototype, an array or a string, so only an own property of an object
    yields a value.  Reading a property of [null] or [undefined] throws;
    the callers test for that before they call [get]. *)
Definition get (v : jsval) (k : string) : jsval :=
  match v with
  | JObj props =>
      match lookup k props with
      | Some x => x
      | None => JUndefined
      end
  | _ => JUndefined
  end.

(** [ToBoolean]: the falsy values are [undefined], [null], [false], [0]
    and the empty string. *)
Definition truthy (v : jsval) : bool :=
  match v with
  | JUndefined | JNull => false
  | JBool b => b
  | JNum m _ => negb (m =? 0)%Z
  | JStr s => negb (String.eqb s "")
  | JArr _ | JObj _ => true
  end.

Definition nullish (v : jsval) : bool :=
  match v with
  | JUndefined | JNull => true
  | _ => false
  end.

(** [typeof v === "object"]. *)
Definition typeof_object (v : jsval) : bool :=
  match v with
  | JNull | JArr _ | JObj _ => true
  | _ => false
  end.

Definition isArray (v : jsval) : bool :=
  match v with
  | JArr _ => true
  | _ => false
  end.

(** *** [Number::toString] (radix 10)

    With [s] the digits of the number without trailing zeros, [k] their
    count and [n] the position of the decimal point, ECMAScript prints
    plain digits for [k <= n <= 21], a decimal point inside the digits for
    [0 < n <= 21], a leading ["0."] for [-6 < n <= 0] and exponent notation
    otherwise. *)

Definition digits (n : N) : string := NilZero.string_of_uint (N.to_uint n).

Fixpoint drop_zeros (l : list ascii) : list ascii :=
  match l with
  | "0"%char :: rest => drop_zeros rest
  | _ => l
  end.

Definition strip_trailing_zeros (s : string) : string :=
  string_of_list_ascii (rev (drop_zeros (rev (list_ascii_of_string s)))).

Fixpoint zeros (n : nat) : string :=
  match n with
  | O => ""
  | S n' => String "0"%char (zeros n')
  end.

Definition Number_toString (m e : Z) : string :=
  if (m =? 0)%Z then "0"
  else
    let all := digits (Z.abs_N m) in
    let s := strip_trailing_zeros all in
    let k := Z.of_nat (String.length s) in
    let n := (e + Z.of_nat (String.length all))%Z in
    let body :=
      if ((k <=? n) && (n <=? 21))%Z then
        s +:+ zeros (Z.to_nat (n - k))
      else if ((0 <? n) && (n <=? 21))%Z then
        substring 0 (Z.to_nat n) s +:+ "." +:+
        substring (Z.to_nat n) (Z.to_nat (k - n)) s
      else if ((-6 <? n) && (n <=? 0))%Z then
        "0." +:+ zeros (Z.to_nat (- n)) +:+ s
      else
        substring 0 1 s +:+
        (if (k =? 1)%Z then ""
         else "." +:+ substring 1 (Z.to_nat (k - 1)) s) +:+
        "e" +:+ (if (n - 1 <? 0)%Z then "-" else "+") +:+
        digits (Z.abs_N (n - 1))
    in
    (if (m <? 0)%Z then "-" else "") +:+ body.

(** *** [String(v)]

    An array prints its elements joined by commas, [null] and [undefined]
    elements as the empty string.  An object prints as
    ["[object Object]"] unless it has an own [toString] property: a parsed
    value is never callable, so the conversion then throws a [TypeError],
    which is [None] here. *)
Fixpoint ToString (v : jsval) : option string :=
  match v with
  | JUndefined => Some "undefined"
  | JNull => Some "null"
  | JBool true => Some "true"
  | JBool false => Some "false"
  | JNum m e => Some (Number_toString m e)
  | JStr s => Some s
  | JArr items =>
      (fix join (l : list jsval) : option string :=
         match l with
         | [] => Some ""
         | x :: rest =>
             match (if nullish x then Some "" else ToString x) with
             | None => None
             | Some s =>
                 match rest with
                 | [] => Some s
                 | _ =>
                     match join rest with
                     | None => None
                     | Some r => Some (s +:+ "," +:+ r)
                     end
                 end
             end
         end) items
  | JObj props =>
      match lookup "toString" props with
      | Some _ => None
      | None => Some "[object Object]"
      end
  end.

(** [Object.entries(v)] for a value with [typeof v === "object"]. *)
Definition index_key (i : nat) : string :=
  NilEmpty.string_of_uint (Nat.to_uint i).

Definition entries (v : jsval) : list (string * jsval) :=
  match v with
  | JObj props => props
  | JArr items => combine (map index_key (seq 0 (List.length items))) items
  | _ => []
  end.

End JS.

(** [String(v)] as a computation that can throw. *)
Definition String_ (v : jsval) : result string :=
  match JS.ToString v with
  | Some s => Ok s
  | None => TypeError
  end.

(** ** [Set] and [Map] objects

    A [Set] of strings and a [Map] with string keys keep their elements in
    insertion order, and that order is what iteration follows.  Package names
    are strings, and every value the program puts into a [Set] went through
    [String]. *)

Module SetObj.

Definition t := list string.

Definition has (s : t) (v : string) : bool := existsb (String.eqb v) s.

Definition add (s : t) (v : string) : t := if has s v then s else s ++ [v].

(** [new Set(iterable)] *)
Definition of_list (l : list string) : t := fold_left add l [].

End SetObj.

Module MapObj.

Section WithValues.

Variable V : Type.

Definition t := list (string * V).

Fixpoint get (m : t) (k : string) : option V :=
  match m with
  | [] => None
  | (k', v) :: rest => if String.eqb k' k then Some v else get rest k
  end.

Definition has (m : t) (k : string) : bool :=
  match get m k with
  | Some _ => true
  | None => false
  end.

(** [set] replaces the value of a key that is present, in place, and
    appends a new key at the end. *)
Fixpoint set (m : t) (k : string) (v : V) : t :=
  match m with
  | [] => [(k, v)]
  | (k', v') :: rest =>
      if String.eqb k' k then (k, v) :: rest else (k', v') :: set rest k v
  end.

Definition keys (m : t) : list string := map fst m.

End WithValues.

Arguments get {V} m k.
Arguments has {V} m k.
Arguments set {V} m k v.
Arguments keys {V} m.

End MapObj.

(** ** The store of [Set] objects

    An inventory is a [Map] from a name to a [Set] object.  The [Set]s are
    reached by reference, and [new Map(lock)] in [main] copies the references,
    so the [Set]s live in a store and a [Map] holds their addresses.  A [Map]
    object itself is only ever reached through the one variable that holds it
    ([hits], [merged]), so it is the value of its entry list. *)

Abbreviation loc := nat (only parsing).

Definition heap := list SetObj.t.

(** A reference of the program always points to an object.  In the model an
    address that is not allocated reads as the empty [Set] and a write to it
    does nothing; [jsmap_wf] below says that the addresses of a map are
    allocated. *)
Definition heap_read (h : heap) (l : loc) : SetObj.t := nth l h [].

Fixpoint heap_write (h : heap) (l : loc) (s : SetObj.t) : heap :=
  match h, l with
  | [], _ => []
  | _ :: rest, O => s :: rest
  | x :: rest, S l' => x :: heap_write rest l' s
  end.

(** [new Set()] *)
Definition heap_alloc (h : heap) : loc * heap := (List.length h, h ++ [[]]).

Definition jsmap := MapObj.t loc.

(** What an inventory holds: every name with the contents of its [Set]. *)
Definition inventory := MapObj.t SetObj.t.

Definition deref (h : heap) (m : jsmap) : inventory :=
  map (fun e => (fst e, heap_read h (snd e))) m.

(** ** lib/core.js *)

(** [add(map, name, version)]:
<<
  if (!map.has(name)) map.set(name, new Set());
  map.get(name).add(String(version));
>> *)
Definition add (map : jsmap) (name : string) (version : jsval) (h : heap)
  : result (jsmap * heap) :=
  let '(map1, h1) :=
    if negb (MapObj.has map name) then
      let '(l, h') := heap_alloc h in (MapObj.set map name l, h')
    else (map, h) in
  match MapObj.get map1 name with
  | None => TypeError
  | Some l =>
      s <- String_ version ;;
      Ok (map1, heap_write h1 l (SetObj.add (heap_read h1 l) s))
  end.

Record finding : Type := mkFinding { name : string; version : string }.

(** [array.map(String)] *)
Fixpoint map_String (items : list jsval) : result (list string) :=
  match items with
  | [] => Ok []
  | x :: rest =>
      s <- String_ x ;;
      r <- map_String rest ;;
      Ok (s :: r)
  end.

(** What [for (const entry of knownBad.packages)] iterates over: the
    elements of an array, the characters of a string (the loop body throws
    on the first one); any other value that [JSON.parse] gives is not
    iterable, and reading [packages] from [null] or [undefined] throws. *)
Definition packages_of (knownBad : jsval) : result (list jsval) :=
  if JS.nullish knownBad then TypeError
  else
    match JS.get knownBad "packages" with
    | JArr items => Ok items
    | JStr s => Ok (map (fun c => JStr (String c "")) (list_ascii_of_string s))
    | _ => TypeError
    end.

(** One turn of the loop that builds [badIndex]:
<<
  badIndex.set(entry.name, new Set(entry.badVersions.map(String)));
>>
    Only an array has a [map] method here.  An entry whose [name] is not a
    string is stored under a key that no package name, a string, is equal
    to: it never shows in a lookup, and the index of names leaves it out. *)
Definition badIndex_set (badIndex : MapObj.t SetObj.t) (entry : jsval)
  : result (MapObj.t SetObj.t) :=
  if JS.nullish entry then TypeError
  else
    match JS.get entry "badVersions" with
    | JArr items =>
        strs <- map_String items ;;
        match JS.get entry "name" with
        | JStr n => Ok (MapObj.set badIndex n (SetObj.of_list strs))
        | _ => Ok badIndex
        end
    | _ => TypeError
    end.

Fixpoint badIndex_loop (badIndex : MapObj.t SetObj.t) (packages : list jsval)
  : result (MapObj.t SetObj.t) :=
  match packages with
  | [] => Ok badIndex
  | entry :: rest =>
      badIndex' <- badIndex_set badIndex entry ;;
      badIndex_loop badIndex' rest
  end.

Definition build_badIndex (knownBad : jsval) : result (MapObj.t SetObj.t) :=
  packages <- packages_of knownBad ;;
  badIndex_loop [] packages.

(** The inner loop of [compare], over the versions of one name. *)
Definition compare_versions (badIndex : MapObj.t SetObj.t) (name : string)
  (versions : SetObj.t) (findings : list finding) : list finding :=
  fold_left
    (fun findings v =>
       match MapObj.get badIndex name with
       | Some bad =>
           if SetObj.has bad v then findings ++ [mkFinding name v]
           else findings
       | None => findings
       end)
    versions findings.

(** [compare(installedMap, knownBad)].  It only reads [installedMap], so it
    takes what the map holds. *)
Definition compare (installedMap : inventory) (knownBad : jsval)
  : result (list finding) :=
  badIndex <- build_badIndex knownBad ;;
  Ok (fold_left
        (fun findings e =>
           let '(name, versions) := e in
           if negb (MapObj.has badIndex name) then findings
           else compare_versions badIndex name versions findings)
        installedMap []).

(** The identity key of a finding, [`${f.name}@${f.version}`]. *)
Definition finding_key (f : finding) : string :=
  name f +:+ "@" +:+ version f.

(** [findings.filter(...)] with the [seen] set of the closure. *)
Fixpoint uniq_filter (seen : SetObj.t) (findings : list finding)
  : list finding :=
  match findings with
  | [] => []
  | f :: rest =>
      let key := finding_key f in
      if SetObj.has seen key then uniq_filter seen rest
      else f :: uniq_filter (SetObj.add seen key) rest
  end.

Definition uniqFindings (findings : list finding) : list finding :=
  uniq_filter [] findings.

(** A loop whose body can throw. *)
Fixpoint foldM {A S : Type} (body : S -> A -> result S) (l : list A) (s : S)
  : result S :=
  match l with
  | [] => Ok s
  | x :: rest => s' <- body s x ;; foldM body rest s'
  end.

(** ** The file system

    What the program sees of it: whether a path exists, the entries of a
    directory ([None] when [fs.readdirSync] throws) and the value that
    [JSON.parse(fs.readFileSync(p, "utf8"))] gives ([None] when either
    throws).  The three are functions of the path and nothing relates them,
    so a directory "tree" may be cyclic or infinitely deep. *)

Record dirent : Type := mkDirent { d_name : string; isDirectory : bool }.

Record filesystem : Type := mkFs {
  existsSync : string -> bool;
  readdirSync : string -> option (list dirent);
  readJSON : string -> option jsval
}.

(** [path.join(a, b)] for a directory and an entry name. *)
Definition path_join (a b : string) : string := a +:+ "/" +:+ b.

(** [readJSONSafe(p)] *)
Definition readJSONSafe (fs : filesystem) (p : string) : jsval :=
  match readJSON fs p with
  | Some v => v
  | None => JNull
  end.

(** [key.replace(/^node_modules\//, "")] *)
Definition strip_node_modules (key : string) : string :=
  if prefix "node_modules/" key
  then substring 13 (String.length key - 13) key
  else key.

(** The loop of [collectFromPackageLock] over [lock.packages], the flat map:
<<
  for (const [key, meta] of Object.entries(lock.packages)) {
    if (!meta || !meta.version) continue;
    const name = key.replace(/^node_modules\//, "");
    add(hits, name, meta.version);
  }
>> *)
Definition collect_packages (packages : jsval) (st : jsmap * heap)
  : result (jsmap * heap) :=
  foldM
    (fun st e =>
       let '(key, meta) := e in
       if negb (JS.truthy meta) || negb (JS.truthy (JS.get meta "version"))
       then Ok st
       else add (fst st) (strip_node_modules key) (JS.get meta "version")
                (snd st))
    (JS.entries packages) st.

(** [walkDeps(obj)], the nested tree of [dependencies]. *)
Fixpoint walkDeps (fuel : nat) (obj : jsval) (st : jsmap * heap)
  : result (jsmap * heap) :=
  if negb (JS.truthy obj) || negb (JS.typeof_object obj) then Ok st
  else
    match fuel with
    | O => OutOfFuel
    | S fuel' =>
        foldM
          (fun st e =>
             let '(name, meta) := e in
             if negb (JS.truthy meta) then Ok st
             else
               st1 <- (if JS.truthy (JS.get meta "version")
                       then add (fst st) name (JS.get meta "version") (snd st)
                       else Ok st) ;;
               if JS.truthy (JS.get meta "dependencies")
               then walkDeps fuel' (JS.get meta "dependencies") st1
               else Ok st1)
          (JS.entries obj) st
    end.

(** The nesting depth of a value bounds the recursion of [walkDeps]. *)
Fixpoint jsdepth (v : jsval) : nat :=
  match v with
  | JArr items => S (list_max (map jsdepth items))
  | JObj props => S (list_max (map (fun p => jsdepth (snd p)) props))
  | _ => 0
  end.

(** [collectFromPackageLock(projectRoot)]; [h] is the store it allocates
    its [Set]s in.  The budget of [walkDeps] is the depth of the tree it is
    given: the model sets no bound on the call stack, and says of a tree
    that is too deep for the stack of an engine what the program does on a
    stack that is deep enough. *)
Definition collectFromPackageLock (fs : filesystem) (projectRoot : string)
  (h : heap) : result (jsmap * heap) :=
  let hits : jsmap := [] in
  let lockPath := path_join projectRoot "package-lock.json" in
  if negb (existsSync fs lockPath) then Ok (hits, h)
  else
    let lock := readJSONSafe fs lockPath in
    if negb (JS.truthy lock) then Ok (hits, h)
    else
      st1 <- (if JS.truthy (JS.get lock "packages")
                 && JS.typeof_object (JS.get lock "packages")
              then collect_packages (JS.get lock "packages") (hits, h)
              else Ok (hits, h)) ;;
      if JS.truthy (JS.get lock "dependencies")
      then walkDeps (jsdepth (JS.get lock "dependencies"))
                    (JS.get lock "dependencies") st1
      else Ok st1.

(** ** check-compromised.js *)

(** The state of [collectFromNodeModules]: the [hits] map, the store, and
    the calls of [fs.readdirSync] made so far, each with the [depth] of the
    call of [walk] that made it (the newest first). *)
Record scan : Type := mkScan {
  hits : jsmap;
  store : heap;
  reads : list (string * nat)
}.

(** [processPkg(pkgDir)].  A manifest whose [name] is not a string would be
    stored under a key that is no package name; the model coerces its version
    as [add] does and leaves the map as it is. *)
Definition processPkg (fs : filesystem) (pkgDir : string) (st : scan)
  : result scan :=
  let pkgJsonPath := path_join pkgDir "package.json" in
  if negb (existsSync fs pkgJsonPath) then Ok st
  else
    let pkg := readJSONSafe fs pkgJsonPath in
    if negb (JS.truthy pkg) || negb (JS.truthy (JS.get pkg "name"))
       || negb (JS.truthy (JS.get pkg "version"))
    then Ok st
    else
      match JS.get pkg "name" with
      | JStr n =>
          '(m, h) <- add (hits st) n (JS.get pkg "version") (store st) ;;
          Ok (mkScan m h (reads st))
      | _ => _ <- String_ (JS.get pkg "version") ;; Ok st
      end.

Definition log_read (dir : string) (depth : nat) (st : scan) : scan :=
  mkScan (hits st) (store st) ((dir, depth) :: reads st).

(** [walk(dir, depth)] *)
Fixpoint walk (fuel : nat) (fs : filesystem) (dir : string) (depth : nat)
  (st : scan) : result scan :=
  if (6 <? depth)%nat then Ok st
  else
    match fuel with
    | O => OutOfFuel
    | S fuel' =>
        let st := log_read dir depth st in
        match readdirSync fs dir with
        | None => Ok st
        | Some entries =>
            foldM
              (fun st ent =>
                 if negb (isDirectory ent) || prefix "." (d_name ent)
                 then Ok st
                 else if prefix "@" (d_name ent) then
                   let scopeDir := path_join dir (d_name ent) in
                   let st := log_read scopeDir depth st in
                   match readdirSync fs scopeDir with
                   | None => Ok st
                   | Some scoped =>
                       foldM
                         (fun st s =>
                            if negb (isDirectory s) then Ok st
                            else
                              let pkgDir := path_join scopeDir (d_name s) in
                              st1 <- processPkg fs pkgDir st ;;
                              let nested := path_join pkgDir "node_modules" in
                              if existsSync fs nested
                              then walk fuel' fs nested (S depth) st1
                              else Ok st1)
                         scoped st
                   end
                 else
                   let pkgDir := path_join dir (d_name ent) in
                   st1 <- processPkg fs pkgDir st ;;
                   let nested := path_join pkgDir "node_modules" in
                   if existsSync fs nested
                   then walk fuel' fs nested (S depth) st1
                   else Ok st1)
              entries st
        end
    end.

(** [collectFromNodeModules()].  The budget of [walk] is seven nested
    calls, one for each depth from 0 to 6. *)
Definition collectFromNodeModules (fs : filesystem) (projectRoot : string)
  (h : heap) : result scan :=
  let st := mkScan [] h [] in
  let nmRoot := path_join projectRoot "node_modules" in
  if negb (existsSync fs nmRoot) then Ok st
  else walk 7 fs nmRoot 0 st.

(** [process.exit(code)] ends the program where it is called. *)
Inductive exit_or (A : Type) : Type :=
| Exit (code : Z)
| Continue (a : A).

Arguments Exit {A} code.
Arguments Continue {A} a.

Record process : Type := mkProcess {
  projectRoot : string;
  dirname : string;
  SHOW_HELP : bool;
  SHOW_LIST : bool;
  OUTPUT_JSON : bool;
  VERBOSE : bool
}.

(** [loadKnownBad()] *)
Definition loadKnownBad (fs : filesystem) (p : process) : exit_or jsval :=
  let jsonPath := path_join (projectRoot p) "compromised.json" in
  let found :=
    if negb (existsSync fs jsonPath) then
      let bundledPath := path_join (dirname p) "compromised.json" in
      if existsSync fs bundledPath then Continue bundledPath else Exit 2%Z
    else Continue jsonPath in
  match found with
  | Exit code => Exit code
  | Continue jsonPath =>
      let data := readJSONSafe fs jsonPath in
      if negb (JS.truthy data) || negb (JS.isArray (JS.get data "packages"))
      then Exit 2%Z
      else Continue data
  end.

(** The merge of [main]:
<<
  const merged = new Map(lock);
  for (const [name, vers] of nm.entries()) {
    if (!merged.has(name)) merged.set(name, new Set());
    for (const v of vers) merged.get(name).add(v);
  }
>>
    [new Map(lock)] has the entries of [lock], that is, the same [Set]
    objects.  The inner loop reads [vers] when it starts: should [vers] be the
    very [Set] it adds to, every value added is in it already and the [Set]
    stays as it is. *)
Definition merge_versions (merged : jsmap) (name : string) (vers : SetObj.t)
  (h : heap) : heap :=
  fold_left
    (fun h v =>
       match MapObj.get merged name with
       | Some l => heap_write h l (SetObj.add (heap_read h l) v)
       | None => h
       end)
    vers h.

Definition merge_entry (st : jsmap * heap) (e : string * loc) : jsmap * heap :=
  let '(merged, h) := st in
  let '(name, vers) := e in
  let '(merged1, h1) :=
    if negb (MapObj.has merged name) then
      let '(l, h') := heap_alloc h in (MapObj.set merged name l, h')
    else (merged, h) in
  (merged1, merge_versions merged1 name (heap_read h1 vers) h1).

Definition merge (lock nm : jsmap) (h : heap) : jsmap * heap :=
  fold_left merge_entry nm (lock, h).

(** The list mode prints [`  ${p.name}: [${p.badVersions.join(", ")}]`] for
    every entry: the text is left out, the conversions that can throw are
    kept. *)
Definition print_list (knownBad : jsval) : result unit :=
  packages <- packages_of knownBad ;;
  foldM
    (fun _ p =>
       if JS.nullish p then TypeError
       else
         match JS.get p "badVersions" with
         | JArr items =>
             _ <- String_ (JArr items) ;;
             _ <- String_ (JS.get p "name") ;;
             Ok tt
         | _ => TypeError
         end)
    packages tt.

(** [main()]: the exit code of the process and, when the scan ran, the
    findings it reported.  Printing is left out, and with it the listing
    under [if (VERBOSE)], which [verbose] below models on its own. *)
Definition main (fs : filesystem) (p : process)
  : result (Z * option (list finding)) :=
  if SHOW_HELP p then Ok (0%Z, None)
  else
    match loadKnownBad fs p with
    | Exit code => Ok (code, None)
    | Continue knownBad =>
        if SHOW_LIST p then
          _ <- (if OUTPUT_JSON p then Ok tt else print_list knownBad) ;;
          Ok (0%Z, None)
        else
          nm <- collectFromNodeModules fs (projectRoot p) [] ;;
          '(lock, h) <- collectFromPackageLock fs (projectRoot p) (store nm) ;;
          let '(merged, h') := merge lock (hits nm) h in
          found <- compare (deref h' merged) knownBad ;;
          let findings := uniqFindings found in
          Ok (if (0 <? List.length findings)%nat then 1%Z else 0%Z,
              Some findings)
    end.

(** * Definitions of the specification

    What the statements below are written with. *)

(** The identity key of a finding as the specification spells it,
    [name@version]: the name, then the character [@] followed by the
    version. *)
Definition identity_key (f : finding) : string :=
  name f +:+ String "@" (version f).

(** The deduplication as the specification words it: the entries of
    [findings] that are the first occurrence of their identity key, in the
    order of [findings]. *)
Definition first_occurrences (findings : list finding) : list finding :=
  map snd
    (filter
       (fun p =>
          negb (existsb
                  (fun g => String.eqb (identity_key g) (identity_key (snd p)))
                  (firstn (fst p) findings)))
       (combine (seq 0 (List.length findings)) findings)).

(** Every (name, version) pair of an inventory, in iteration order: the
    names in the order of the [Map], the versions of a name in the order of
    its [Set]. *)
Definition all_pairs (installed : inventory) : list finding :=
  flat_map (fun e => map (mkFinding (fst e)) (snd e)) installed.

(** The name is a key of the index and the version is in its bad set. *)
Definition flagged (badIndex : MapObj.t SetObj.t) (f : finding) : bool :=
  match MapObj.get badIndex (name f) with
  | Some bad => SetObj.has bad (version f)
  | None => false
  end.

(** A [Map] has no two entries with one key, a [Set] no value twice. *)
Definition inventory_wf (installed : inventory) : Prop :=
  NoDup (MapObj.keys installed) /\ Forall (fun e => NoDup (snd e)) installed.

(** ** The same operations on what the maps hold

    [add] and the merge loop, read on inventories instead of on a store:
    what they do when no [Set] object is reached through two entries. *)

Definition versions_of (installed : inventory) (n : string) : SetObj.t :=
  match MapObj.get installed n with
  | Some versions => versions
  | None => []
  end.

(** [name] has [v] among its versions. *)
Definition installs (installed : inventory) (n v : string) : Prop :=
  exists versions, MapObj.get installed n = Some versions /\ In v versions.

Definition inv_add (installed : inventory) (n v : string) : inventory :=
  MapObj.set installed n (SetObj.add (versions_of installed n) v).

Definition inv_merge_entry (merged : inventory) (e : string * SetObj.t)
  : inventory :=
  let '(n, vers) := e in
  fold_left (fun merged v => inv_add merged n v) vers
    (if negb (MapObj.has merged n) then MapObj.set merged n [] else merged).

Definition inv_merge (lock nm : inventory) : inventory :=
  fold_left inv_merge_entry nm lock.

(** The addresses of a map are pairwise different and allocated. *)
Definition jsmap_wf (m : jsmap) (h : heap) : Prop :=
  NoDup (map snd m) /\ forall l, In l (map snd m) -> l < List.length h.

(** A sequence of calls of [add] on one map. *)
Definition add_all (l : list (string * jsval)) (st : jsmap * heap)
  : result (jsmap * heap) :=
  foldM (fun st e => add (fst st) (fst e) (snd e) (snd st)) l st.

Definition coercible (v : jsval) : bool :=
  match JS.ToString v with
  | Some _ => true
  | None => false
  end.

(** Two sets with the same members, two inventories with the same names and
    the same members under every name: equality that ignores the order of
    iteration. *)
Definition same_members (s1 s2 : SetObj.t) : Prop :=
  forall v, In v s1 <-> In v s2.

Definition same_inventory (i1 i2 : inventory) : Prop :=
  forall n,
    MapObj.has i1 n = MapObj.has i2 n /\
    forall v, installs i1 n v <-> installs i2 n v.

(** No [Set] object is reached from both maps. *)
Definition separate (m1 m2 : jsmap) : Prop :=
  forall l, In l (map snd m1) -> ~ In l (map snd m2).

(** What [merge] leaves in the store, read through a map. *)
Definition merged_view (lock nm : jsmap) (h : heap) : inventory :=
  deref (snd (merge lock nm h)) (fst (merge lock nm h)).

(** ** The registry, entry by entry *)

(** [entry.name] is the string [n]. *)
Definition named (n : string) (entry : jsval) : bool :=
  match JS.get entry "name" with
  | JStr n' => String.eqb n' n
  | _ => false
  end.

(** The entry that decides the bad versions of [n]: [Map.set] overwrites, so
    it is the last entry of the registry with that name. *)
Definition last_named (n : string) (packages : list jsval) : option jsval :=
  find (named n) (rev packages).

(** The registry has one entry for the name [n], as the documented format
    has one for every package. *)
Definition named_once (n : string) (packages : list jsval) : Prop :=
  forall e e',
    In e packages -> In e' packages ->
    named n e = true -> named n e' = true -> e = e'.

(** An entry on which the loop of [compare] does not throw: it is an object
    (or any value but [null] and [undefined]) whose [badVersions] is an array
    of values that [String] converts. *)
Definition entry_ok (entry : jsval) : bool :=
  negb (JS.nullish entry) &&
  match JS.get entry "badVersions" with
  | JArr items => forallb coercible items
  | _ => false
  end.

Definition string_or_number (v : jsval) : bool :=
  match v with
  | JStr _ | JNum _ _ => true
  | _ => false
  end.

(** The data source that [loadKnownBad] reads: [compromised.json] of the
    project if it exists, else the bundled one if it exists. *)
Definition known_bad_source (fs : filesystem) (p : process) : option string :=
  if existsSync fs (path_join (projectRoot p) "compromised.json")
  then Some (path_join (projectRoot p) "compromised.json")
  else if existsSync fs (path_join (dirname p) "compromised.json")
       then Some (path_join (dirname p) "compromised.json")
       else None.

(** The data source parsed as structured data: [None] when there is no
    source, or it cannot be read, or it is not JSON. *)
Definition known_bad_parsed (fs : filesystem) (p : process) : option jsval :=
  match known_bad_source fs p with
  | Some path => readJSON fs path
  | None => None
  end.

(** The top-level [packages] field of the data, when it has one. *)
Definition packages_field (data : jsval) : option jsval :=
  match data with
  | JObj props => JS.lookup "packages" props
  | _ => None
  end.

(** The records of the flat map that carry a version, with the name and the
    version that the loop hands to [add]. *)
Definition carries_version (e : string * jsval) : bool :=
  JS.truthy (snd e) && JS.truthy (JS.get (snd e) "version").

Definition lock_adds (packages : jsval) : list (string * jsval) :=
  map (fun e => (strip_node_modules (fst e), JS.get (snd e) "version"))
      (filter carries_version (JS.entries packages)).

(** [seen] holds the keys of the findings [pre] already filtered. *)
Definition seen_of (seen : SetObj.t) (pre : list finding) : Prop :=
  forall k, In k seen <-> In k (map finding_key pre).

(** Every directory read by a call of [walk] at [depth] is read at a depth
    between [depth] and six. *)
Definition reads_within (depth : nat) (st0 st : scan) : Prop :=
  forall e, In e (reads st) -> In e (reads st0) \/ depth <= snd e <= 6.

(** What a collector keeps true of its map and the store, from the store
    [h0] it started with: the addresses of the map are pairwise different,
    allocated, and none of them was allocated in [h0]; the names are pairwise
    different; the cells of [h0] hold what they held. *)
Definition collecting (h0 : heap) (m : jsmap) (h : heap) : Prop :=
  jsmap_wf m h /\
  NoDup (MapObj.keys m) /\
  (forall l, In l (map snd m) -> List.length h0 <= l) /\
  List.length h0 <= List.length h /\
  (forall l, l < List.length h0 -> heap_read h l = heap_read h0 l).

(** ** Registries, inventories and file systems of the scenarios *)

Definition entry (n : string) (bad : list jsval) : jsval :=
  JObj [("name", JStr n); ("badVersions", JArr bad)].

Definition registry (entries : list jsval) : jsval :=
  JObj [("packages", JArr entries)].

Definition scenario_knownBad : jsval :=
  registry [entry "pkg-a" [JStr "1.0.0"; JStr "1.0.1"];
            entry "pkg-b" [JStr "2.1.0"]].

Definition scenario_index : MapObj.t SetObj.t :=
  [("pkg-a", ["1.0.0"; "1.0.1"]); ("pkg-b", ["2.1.0"])].

Definition scenario_installed : inventory :=
  [("pkg-a", ["1.0.0"]); ("pkg-b", ["2.1.0"]); ("pkg-c", ["9.9.9"])].

(** A lockfile inventory and a [node_modules] inventory that share the name
    [pkg-a], as two runs of [add] leave them in one store. *)
Definition shared_heap : heap := [["1.0.0"]; ["2.0.0"]].
Definition shared_lock : jsmap := [("pkg-a", 0)].
Definition shared_nm : jsmap := [("pkg-a", 1)].

Definition union_heap : heap := [["1"]; ["2"]; ["2"; "3"]; ["4"]].
Definition union_a : jsmap := [("x", 0); ("y", 1)].
Definition union_b : jsmap := [("y", 2); ("z", 3)].

Definition numeric_knownBad : jsval :=
  registry [entry "pkg" [JNum 15 (-1)]].

Definition unlisted_knownBad : jsval :=
  registry [JObj [("name", JStr "pkg-a")]].

Definition renamed_knownBad : jsval :=
  registry [entry "pkg-a" []; entry "pkg-a" [JStr "1.0.0"]].

Definition cleared_knownBad : jsval :=
  registry [entry "pkg-a" [JStr "1.0.0"]; entry "pkg-a" []].

Definition file_is (path : string) (v : jsval) (p : string) : option jsval :=
  if String.eqb p path then Some v else None.

Definition manifest (n v : string) : jsval :=
  JObj [("name", JStr n); ("version", JStr v)].

(** A project whose [compromised.json] is the empty object. *)
Definition empty_object_fs : filesystem :=
  mkFs (fun p => String.eqb p "/proj/compromised.json")
       (fun _ => None)
       (file_is "/proj/compromised.json" (JObj [])).

Definition scenario_fs : filesystem :=
  mkFs (fun p => String.eqb p "/proj/compromised.json")
       (fun _ => None)
       (file_is "/proj/compromised.json" scenario_knownBad).

Definition proc : process := mkProcess "/proj" "/pkg" false false false false.

(** A directory that contains itself at every level, as a symbolic link to
    an ancestor makes it: every path exists, every directory lists one
    package [a], and every manifest is that of [a]. *)
Definition cyclic_fs : filesystem :=
  mkFs (fun _ => true)
       (fun _ => Some [mkDirent "a" true])
       (fun _ => Some (manifest "a" "1.0.0")).

(** [node_modules] with a hidden directory, a plain file, a package and a
    scope that holds a hidden directory; the two hidden directories hold a
    manifest. *)
Definition hidden_fs : filesystem :=
  mkFs (fun p =>
          existsb (String.eqb p)
            ["/proj/node_modules";
             "/proj/node_modules/.staging/package.json";
             "/proj/node_modules/left-pad/package.json";
             "/proj/node_modules/@scope/.hidden/package.json"])
       (fun p =>
          if String.eqb p "/proj/node_modules" then
            Some [mkDirent ".staging" true; mkDirent "README.md" false;
                  mkDirent "left-pad" true; mkDirent "@scope" true]
          else if String.eqb p "/proj/node_modules/@scope" then
            Some [mkDirent ".hidden" true]
          else None)
       (fun p =>
          if String.eqb p "/proj/node_modules/.staging/package.json"
          then Some (manifest "staged" "0.0.1")
          else if String.eqb p "/proj/node_modules/left-pad/package.json"
          then Some (manifest "left-pad" "1.3.0")
          else if String.eqb p "/proj/node_modules/@scope/.hidden/package.json"
          then Some (manifest "@scope/.hidden" "6.6.6")
          else None).

(** A lockfile with the record of the project root and a nested install. *)
Definition nested_lock : jsval :=
  JObj [("packages",
         JObj [("", JObj [("name", JStr "proj"); ("version", JStr "1.0.0")]);
               ("node_modules/a", JObj [("version", JStr "1.1.0")]);
               ("node_modules/a/node_modules/b",
                JObj [("version", JStr "2.0.0")])])].

Definition nested_lock_fs : filesystem :=
  mkFs (fun p => String.eqb p "/proj/package-lock.json")
       (fun _ => None)
       (file_is "/proj/package-lock.json" nested_lock).

(** ** The tree of [dependencies]

    [dep_node obj n meta]: the walk of [walkDeps] from [obj] visits the node
    [meta] under the key [n], at the top of [obj] or below the
    [dependencies] of a node it visits. *)
Inductive dep_node : jsval -> string -> jsval -> Prop :=
| dep_here obj n meta :
    JS.truthy obj = true -> JS.typeof_object obj = true ->
    In (n, meta) (JS.entries obj) -> JS.truthy meta = true ->
    dep_node obj n meta
| dep_below obj n' meta' n meta :
    JS.truthy obj = true -> JS.typeof_object obj = true ->
    In (n', meta') (JS.entries obj) -> JS.truthy meta' = true ->
    JS.truthy (JS.get meta' "dependencies") = true ->
    dep_node (JS.get meta' "dependencies") n meta ->
    dep_node obj n meta.

(** The tree gives the version [s] for the name [n]. *)
Definition tree_gives (obj : jsval) (n s : string) : Prop :=
  exists meta,
    dep_node obj n meta /\
    JS.truthy (JS.get meta "version") = true /\
    JS.ToString (JS.get meta "version") = Some s.

(** What one entry of the object under walk gives: its own version, or what
    the tree of its [dependencies] gives. *)
Definition entry_gives (e : string * jsval) (n s : string) : Prop :=
  JS.truthy (snd e) = true /\
  ((n = fst e /\ JS.truthy (JS.get (snd e) "version") = true /\
    JS.ToString (JS.get (snd e) "version") = Some s) \/
   (JS.truthy (JS.get (snd e) "dependencies") = true /\
    tree_gives (JS.get (snd e) "dependencies") n s)).

(** The flat map gives the version [s] for the name [n]. *)
Definition flat_gives (packages : jsval) (n s : string) : Prop :=
  exists key meta,
    In (key, meta) (JS.entries packages) /\
    JS.truthy meta = true /\
    JS.truthy (JS.get meta "version") = true /\
    n = strip_node_modules key /\
    JS.ToString (JS.get meta "version") = Some s.

(** What [collectFromPackageLock] has in hand after its two early returns:
    the parsed lockfile, or [null] for a lockfile that is missing or cannot
    be read. *)
Definition lock_data (fs : filesystem) (projectRoot : string) : jsval :=
  if existsSync fs (path_join projectRoot "package-lock.json")
  then readJSONSafe fs (path_join projectRoot "package-lock.json")
  else JNull.

(** A lockfile with both shapes: [b] is nested twice in the tree. *)
Definition both_shapes_lock : jsval :=
  JObj [("packages",
         JObj [("node_modules/a", JObj [("version", JStr "1.0.0")])]);
        ("dependencies",
         JObj [("a", JObj [("version", JStr "1.0.0");
                           ("dependencies",
                            JObj [("b", JObj [("version", JNum 2 0)])])])])].

Definition both_shapes_fs : filesystem :=
  mkFs (fun p => String.eqb p "/proj/package-lock.json")
       (fun _ => None)
       (file_is "/proj/package-lock.json" both_shapes_lock).

(** ** The walk of [node_modules], loop by loop *)

(** The manifest of the package directory [pkgDir] exists, parses, and
    declares the name [n] and a version that [String] prints as [s]. *)
Definition manifest_at (fs : filesystem) (pkgDir : string) (n s : string)
  : Prop :=
  existsSync fs (path_join pkgDir "package.json") = true /\
  exists pkg,
    readJSON fs (path_join pkgDir "package.json") = Some pkg /\
    JS.get pkg "name" = JStr n /\ n <> "" /\
    JS.truthy (JS.get pkg "version") = true /\
    JS.ToString (JS.get pkg "version") = Some s.

(** What [processPkg] hands to [add] for the package directory [pkgDir]:
    the manifest exists, parses, and has the truthy name [nm], of whatever
    type, and a truthy version that [String] prints as [s]. *)
Definition manifest_adds (fs : filesystem) (pkgDir : string) (nm : jsval)
  (s : string) : Prop :=
  existsSync fs (path_join pkgDir "package.json") = true /\
  exists pkg,
    readJSON fs (path_join pkgDir "package.json") = Some pkg /\
    JS.get pkg "name" = nm /\ JS.truthy nm = true /\
    JS.truthy (JS.get pkg "version") = true /\
    JS.ToString (JS.get pkg "version") = Some s.

(** Every manifest that has a name has a string for it, as npm requires.
    The inventories of the model are keyed by strings: with such manifests
    they hold every key that the [Map]s of the program hold. *)
Definition names_are_strings (fs : filesystem) : Prop :=
  forall pkgDir pkg,
    readJSON fs (path_join pkgDir "package.json") = Some pkg ->
    JS.truthy (JS.get pkg "name") = true ->
    exists n, JS.get pkg "name" = JStr n.

(** What [walk] does with one package directory: [processPkg], then the
    nested [node_modules] when there is one. *)
Definition visit_pkg (fuel : nat) (fs : filesystem) (pkgDir : string)
  (depth : nat) (st : scan) : result scan :=
  st1 <- processPkg fs pkgDir st ;;
  let nested := path_join pkgDir "node_modules" in
  if existsSync fs nested then walk fuel fs nested (S depth) st1 else Ok st1.

(** The body of the loop of [walk] over the children of a scope. *)
Definition walk_scoped (fuel : nat) (fs : filesystem) (scopeDir : string)
  (depth : nat) (st : scan) (s : dirent) : result scan :=
  if negb (isDirectory s) then Ok st
  else visit_pkg fuel fs (path_join scopeDir (d_name s)) depth st.

(** The body of the loop of [walk] over the entries of [dir]. *)
Definition walk_entry (fuel : nat) (fs : filesystem) (dir : string)
  (depth : nat) (st : scan) (ent : dirent) : result scan :=
  if negb (isDirectory ent) || prefix "." (d_name ent) then Ok st
  else if prefix "@" (d_name ent) then
    let scopeDir := path_join dir (d_name ent) in
    let st := log_read scopeDir depth st in
    match readdirSync fs scopeDir with
    | None => Ok st
    | Some scoped => foldM (walk_scoped fuel fs scopeDir depth) scoped st
    end
  else visit_pkg fuel fs (path_join dir (d_name ent)) depth st.

(** What a scan holds. *)
Definition scanned (st : scan) : inventory := deref (store st) (hits st).

(** The map of a scan names a set of the store at every key. *)
Definition scan_wf (st : scan) : Prop := jsmap_wf (hits st) (store st).

(** [pkgDir] is a package directory that the loops of [walk] find in [dir]:
    a directory entry that is not hidden and is no scope, or a directory
    entry of such a scope. *)
Definition pkg_child (fs : filesystem) (dir pkgDir : string) : Prop :=
  exists entries ent,
    readdirSync fs dir = Some entries /\ In ent entries /\
    isDirectory ent = true /\ prefix "." (d_name ent) = false /\
    (prefix "@" (d_name ent) = false /\ pkgDir = path_join dir (d_name ent)
     \/
     prefix "@" (d_name ent) = true /\
     exists scoped s,
       readdirSync fs (path_join dir (d_name ent)) = Some scoped /\
       In s scoped /\ isDirectory s = true /\
       pkgDir = path_join (path_join dir (d_name ent)) (d_name s)).

(** The package directories that [walk(dir, depth)] comes to: those of [dir]
    when [depth] is at most 6, and those that the walk of the nested
    [node_modules] of one of them comes to. *)
Inductive visited (fs : filesystem) : string -> nat -> string -> Prop :=
| visited_child dir depth pkgDir :
    depth <= 6 -> pkg_child fs dir pkgDir -> visited fs dir depth pkgDir
| visited_nested dir depth pkgDir p :
    depth <= 6 -> pkg_child fs dir pkgDir ->
    existsSync fs (path_join pkgDir "node_modules") = true ->
    visited fs (path_join pkgDir "node_modules") (S depth) p ->
    visited fs dir depth p.

(** [node_modules] with a package, a scoped package and a nested install of
    another version of the first. *)
Definition nested_fs : filesystem :=
  mkFs (fun p =>
          existsb (String.eqb p)
            ["/proj/node_modules";
             "/proj/node_modules/left-pad/package.json";
             "/proj/node_modules/@scope/pkg/package.json";
             "/proj/node_modules/@scope/pkg/node_modules";
             "/proj/node_modules/@scope/pkg/node_modules/left-pad/package.json"])
       (fun p =>
          if String.eqb p "/proj/node_modules" then
            Some [mkDirent "left-pad" true; mkDirent "@scope" true]
          else if String.eqb p "/proj/node_modules/@scope" then
            Some [mkDirent "pkg" true]
          else if String.eqb p "/proj/node_modules/@scope/pkg/node_modules" then
            Some [mkDirent "left-pad" true]
          else None)
       (fun p =>
          if String.eqb p "/proj/node_modules/left-pad/package.json"
          then Some (manifest "left-pad" "1.3.0")
          else if String.eqb p "/proj/node_modules/@scope/pkg/package.json"
          then Some (manifest "@scope/pkg" "3.0.1")
          else if String.eqb p
                    "/proj/node_modules/@scope/pkg/node_modules/left-pad/package.json"
          then Some (manifest "left-pad" "1.0.0")
          else None).

Definition nested_scan : scan :=
  mkScan [("left-pad", 0); ("@scope/pkg", 1)]
         [["1.3.0"; "1.0.0"]; ["3.0.1"]]
         [("/proj/node_modules/@scope/pkg/node_modules", 1);
          ("/proj/node_modules/@scope", 0); ("/proj/node_modules", 0)].

(** The manifest of [pkgDir] passes the tests of [processPkg] and declares a
    version that [String] cannot print. *)
Definition manifest_throws (fs : filesystem) (pkgDir : string) : Prop :=
  existsSync fs (path_join pkgDir "package.json") = true /\
  exists pkg,
    readJSON fs (path_join pkgDir "package.json") = Some pkg /\
    JS.truthy pkg = true /\
    JS.truthy (JS.get pkg "name") = true /\
    JS.truthy (JS.get pkg "version") = true /\
    JS.ToString (JS.get pkg "version") = None.

(** ** Keys that name one pair *)

(** The string has an [@] in it. *)
Fixpoint has_at (s : string) : bool :=
  match s with
  | EmptyString => false
  | String c rest => Ascii.eqb c "@" || has_at rest
  end.

(** ** What [main] scans, lists and prints *)

(** The project at [root] has the version [s] of [n] installed: a manifest
    that the walk of [node_modules] comes to declares it, or one of the two
    shapes of the lockfile gives it. *)
Definition on_disk (fs : filesystem) (root : string) (n s : string) : Prop :=
  (existsSync fs (path_join root "node_modules") = true /\
   exists pkgDir,
     visited fs (path_join root "node_modules") 0 pkgDir /\
     manifest_at fs pkgDir n s) \/
  (JS.truthy (JS.get (lock_data fs root) "packages") = true /\
   JS.typeof_object (JS.get (lock_data fs root) "packages") = true /\
   flat_gives (JS.get (lock_data fs root) "packages") n s) \/
  tree_gives (JS.get (lock_data fs root) "dependencies") n s.

(** An entry of the registry that the list mode can print: its
    [badVersions] is an array that [join] can print, and its [name] can be
    printed. *)
Definition listable (entry : jsval) : bool :=
  negb (JS.nullish entry) &&
  match JS.get entry "badVersions" with
  | JArr items => coercible (JArr items) && coercible (JS.get entry "name")
  | _ => false
  end.

(** ** The verbose listing

    The block of [main] under [if (VERBOSE)]: it builds the index again, as
    [compare] does, and prints one line for every installed version, with
    the two counts at the end.  The lines are template literals over the
    name and the version: both are strings in an inventory of the model,
    and a string is printed as it is. *)
Inductive status : Type := Compromised | Monitored | NotMonitored.

Definition status_of (badIndex : MapObj.t SetObj.t) (name v : string)
  : status :=
  if MapObj.has badIndex name
     && match MapObj.get badIndex name with
        | Some bad => SetObj.has bad v
        | None => false
        end
  then Compromised
  else if MapObj.has badIndex name then Monitored
  else NotMonitored.

Record listing : Type := mkListing {
  lines : list (finding * status);
  checkedCount : nat;
  compromisedCount : nat
}.

Definition verbose_line (badIndex : MapObj.t SetObj.t) (name : string)
  (out : listing) (v : string) : listing :=
  match status_of badIndex name v with
  | Compromised =>
      mkListing (lines out ++ [(mkFinding name v, Compromised)])
                (S (checkedCount out)) (S (compromisedCount out))
  | st =>
      mkListing (lines out ++ [(mkFinding name v, st)])
                (S (checkedCount out)) (compromisedCount out)
  end.

Definition verbose (merged : inventory) (knownBad : jsval) : result listing :=
  badIndex <- build_badIndex knownBad ;;
  Ok (fold_left
        (fun out e => fold_left (verbose_line badIndex (fst e)) (snd e) out)
        merged (mkListing [] 0 0)).

Definition is_compromised (l : finding * status) : bool :=
  match snd l with
  | Compromised => true
  | _ => false
  end.

(** A project with the packages of [nested_fs], a lockfile, and a registry
    that lists one of the installed versions. *)
Definition infected_knownBad : jsval :=
  registry [entry "left-pad" [JStr "1.0.0"]; entry "b" [JNum 2 0; JNum 3 0]].

Definition infected_fs : filesystem :=
  mkFs (fun p =>
          existsSync nested_fs p
          || String.eqb p "/proj/package-lock.json"
          || String.eqb p "/proj/compromised.json")
       (readdirSync nested_fs)
       (fun p =>
          if String.eqb p "/proj/package-lock.json" then Some both_shapes_lock
          else if String.eqb p "/proj/compromised.json"
               then Some infected_knownBad
               else readJSON nested_fs p).

(** The line that the verbose listing prints for an installed version. *)
Definition line_of (badIndex : MapObj.t SetObj.t) (f : finding)
  : finding * status :=
  (f, status_of badIndex (name f) (version f)).

(** The process of the scenarios, in list mode. *)
Definition proc_list : process :=
  mkProcess "/proj" "/pkg" false true false false.

(** ** Versions that cannot be printed *)

(** The body of the loop of [walkDeps]. *)
Definition walkDeps_entry (fuel : nat) (st : jsmap * heap)
  (e : string * jsval) : result (jsmap * heap) :=
  if negb (JS.truthy (snd e)) then Ok st
  else
    st1 <- (if JS.truthy (JS.get (snd e) "version")
            then add (fst st) (fst e) (JS.get (snd e) "version") (snd st)
            else Ok st) ;;
    if JS.truthy (JS.get (snd e) "dependencies")
    then walkDeps fuel (JS.get (snd e) "dependencies") st1
    else Ok st1.

(** A record of the flat map has a version that [String] cannot print. *)
Definition flat_throws (packages : jsval) : Prop :=
  exists key meta,
    In (key, meta) (JS.entries packages) /\
    JS.truthy meta = true /\
    JS.truthy (JS.get meta "version") = true /\
    JS.ToString (JS.get meta "version") = None.

(** A node of the tree has a version that [String] cannot print. *)
Definition tree_throws (obj : jsval) : Prop :=
  exists n meta,
    dep_node obj n meta /\
    JS.truthy (JS.get meta "version") = true /\
    JS.ToString (JS.get meta "version") = None.

(** A manifest that the walk comes to, or the lockfile, has a version that
    [String] cannot print. *)
Definition unprintable_on_disk (fs : filesystem) (root : string) : Prop :=
  (existsSync fs (path_join root "node_modules") = true /\
   exists pkgDir,
     visited fs (path_join root "node_modules") 0 pkgDir /\
     manifest_throws fs pkgDir) \/
  (JS.truthy (JS.get (lock_data fs root) "packages") = true /\
   JS.typeof_object (JS.get (lock_data fs root) "packages") = true /\
   flat_throws (JS.get (lock_data fs root) "packages")) \/
  tree_throws (JS.get (lock_data fs root) "dependencies").

(** A lockfile whose tree has a version that is an object with a [toString]
    property of its own. *)
Definition hostile_lock : jsval :=
  JObj [("dependencies",
         JObj [("a", JObj [("version", JStr "1.0.0");
                           ("dependencies",
                            JObj [("b", JObj [("version",
                                               JObj [("toString", JNull)])])])])])].

Definition hostile_fs : filesystem :=
  mkFs (fun p =>
          String.eqb p "/proj/package-lock.json"
          || String.eqb p "/proj/compromised.json")
       (fun _ => None)
       (fun p =>
          if String.eqb p "/proj/package-lock.json" then Some hostile_lock
          else if String.eqb p "/proj/compromised.json"
               then Some scenario_knownBad
               else None).

(** ** The command line

<<
  const argv = new Set(process.argv.slice(2));
  const OUTPUT_JSON = argv.has("--json");
  const SHOW_LIST = argv.has("--list");
  const VERBOSE = argv.has("--verbose");
  const SHOW_HELP = argv.has("--help") || argv.has("-h");
>>
    [args] is [process.argv.slice(2)], [cwd] is [process.cwd()] and [dir]
    the directory of the script. *)
Definition process_of (cwd dir : string) (args : list string) : process :=
  let argv := SetObj.of_list args in
  mkProcess cwd dir
    (SetObj.has argv "--help" || SetObj.has argv "-h")
    (SetObj.has argv "--list")
    (SetObj.has argv "--json")
    (SetObj.has argv "--verbose").

(** The arguments that the program reads. *)
Definition flags : list string :=
  ["--help"; "-h"; "--list"; "--json"; "--verbose"].

(** * Tactics *)

(** The element type of a heap shows as [SetObj.t] or unfolded; arithmetic
    on lengths wants one spelling. *)
Ltac store_lia := unfold heap, SetObj.t in *; cbn [List.length] in *; lia.

(** [NoDup] of a list of literals. *)
Ltac solve_NoDup :=
  repeat (constructor; [cbn; intuition (discriminate || lia) |]); constructor.

(** Rewrites the first computation of a sequence in [Hrun] with the
    equation [Heq] of its outcome, whatever spelling its types have. *)
Ltac run_step Hrun Heq :=
  match type of Hrun with
  | context [bind ?c _] =>
      let E := fresh in
      assert (E : c = _) by exact Heq; rewrite E in Hrun; clear E
  end.

(** * The model on concrete inputs *)

Example Number_toString_1_5 : JS.Number_toString 15 (-1) = "1.5".
Proof. reflexivity. Qed.

Example Number_toString_samples :
  map (fun p => JS.Number_toString (fst p) (snd p))
      [(150, -2); (100, 0); (1, 21); (-25, -3); (1, -7); (123, -9); (0, 5);
       (12345, -2); (1, 0); (5, -1)]%Z
  = ["1.5"; "100"; "1e+21"; "-0.025"; "1e-7"; "1.23e-7"; "0";
     "123.45"; "1"; "0.5"].
Proof. reflexivity. Qed.

Example ToString_samples :
  map JS.ToString
      [JArr [JNum 1 0; JNull; JStr "a"]; JObj []; JObj [("toString", JNum 1 0)];
       JBool true; JArr []]
  = [Some "1,,a"; Some "[object Object]"; None; Some "true"; Some ""].
Proof. reflexivity. Qed.

Example uniqFindings_sample :
  uniqFindings [mkFinding "a" "1"; mkFinding "b" "1"; mkFinding "a" "1";
                mkFinding "a@1" "2"; mkFinding "a" "1@2"]
  = [mkFinding "a" "1"; mkFinding "b" "1"; mkFinding "a@1" "2"].
Proof. reflexivity. Qed.

Example main_scenario : main scenario_fs proc = Ok (0%Z, Some []).
Proof. reflexivity. Qed.

(** * Deduplication *)

Section Dedup.

Lemma SetObj_has_In s v : SetObj.has s v = true <-> In v s.
Proof.
  unfold SetObj.has. rewrite existsb_exists. split.
  - intros [x [Hx He]]. apply String.eqb_eq in He. now subst.
  - intros H. exists v. split; [assumption | apply String.eqb_refl].
Qed.

Lemma SetObj_has_false s v : SetObj.has s v = false <-> ~ In v s.
Proof.
  rewrite <- SetObj_has_In. destruct (SetObj.has s v); split; congruence.
Qed.

Lemma SetObj_add_In s v x : In x (SetObj.add s v) <-> In x s \/ x = v.
Proof.
  unfold SetObj.add. destruct (SetObj.has s v) eqn:E.
  - apply SetObj_has_In in E. split; [tauto | intros [H | ->]; assumption].
  - rewrite in_app_iff. simpl. intuition congruence.
Qed.

Lemma existsb_key pre f :
  existsb (fun g => String.eqb (finding_key g) (finding_key f)) pre = true
  <-> In (finding_key f) (map finding_key pre).
Proof.
  rewrite existsb_exists, in_map_iff. split.
  - intros [g [Hg He]]. apply String.eqb_eq in He. eauto.
  - intros [g [He Hg]]. exists g. split; [assumption |].
    rewrite He. apply String.eqb_refl.
Qed.

Lemma uniq_filter_prefix findings : forall seen pre,
  seen_of seen pre ->
  uniq_filter seen findings =
  map snd
    (filter
       (fun p =>
          negb (existsb
                  (fun g => String.eqb (finding_key g) (finding_key (snd p)))
                  (firstn (fst p) (pre ++ findings))))
       (combine (seq (List.length pre) (List.length findings)) findings)).
Proof.
  induction findings as [| f rest IH]; intros seen pre Hseen; [reflexivity |].
  cbn [uniq_filter List.length seq combine filter fst snd].
  rewrite firstn_app, Nat.sub_diag, firstn_all. cbn [firstn].
  rewrite app_nil_r.
  assert (Hstep : forall seen',
             seen_of seen' (pre ++ [f]) ->
             uniq_filter seen' rest =
             map snd
               (filter
                  (fun p =>
                     negb (existsb
                             (fun g => String.eqb (finding_key g)
                                         (finding_key (snd p)))
                             (firstn (fst p) (pre ++ f :: rest))))
                  (combine (seq (S (List.length pre)) (List.length rest))
                     rest))).
  { intros seen' H'. rewrite (IH seen' (pre ++ [f]) H').
    rewrite <- app_assoc, length_app. cbn [List.length app].
    now rewrite Nat.add_1_r. }
  destruct (SetObj.has seen (finding_key f)) eqn:E.
  - apply SetObj_has_In in E.
    assert (Hin : In (finding_key f) (map finding_key pre))
      by now apply Hseen.
    apply existsb_key in Hin. rewrite Hin. cbn [negb].
    apply Hstep. intros k. rewrite map_app, in_app_iff. cbn.
    rewrite (Hseen k). split; [tauto |].
    intros [H | [<- | []]]; [assumption | now apply Hseen].
  - apply SetObj_has_false in E.
    destruct (existsb _ pre) eqn:E'.
    + apply existsb_key in E'. apply Hseen in E'. contradiction.
    + cbn [negb map snd]. f_equal. apply Hstep.
      intros k. rewrite SetObj_add_In, map_app, in_app_iff. cbn.
      rewrite (Hseen k). intuition congruence.
Qed.

Lemma uniq_filter_keys findings : forall seen,
  NoDup (map finding_key (uniq_filter seen findings)) /\
  forall k, In k (map finding_key (uniq_filter seen findings)) -> ~ In k seen.
Proof.
  induction findings as [| f rest IH]; intros seen.
  - split; [constructor | intros k []].
  - cbn [uniq_filter]. destruct (SetObj.has seen (finding_key f)) eqn:E.
    + apply IH.
    + apply SetObj_has_false in E.
      destruct (IH (SetObj.add seen (finding_key f))) as [Hnd Hout].
      split.
      * cbn. constructor; [| assumption].
        intros Hin. apply (Hout _ Hin). apply SetObj_add_In. now right.
      * intros k [<- | Hin]; [assumption |].
        intros Hs. apply (Hout _ Hin). apply SetObj_add_In. now left.
Qed.

Lemma uniq_filter_fixed findings : forall seen,
  NoDup (map finding_key findings) ->
  (forall k, In k (map finding_key findings) -> ~ In k seen) ->
  uniq_filter seen findings = findings.
Proof.
  induction findings as [| f rest IH]; intros seen Hnd Hout; [reflexivity |].
  cbn [uniq_filter]. inversion Hnd as [| ? ? Hf Hrest]; subst.
  destruct (SetObj.has seen (finding_key f)) eqn:E.
  - apply SetObj_has_In in E. exfalso. apply (Hout (finding_key f)); [now left | assumption].
  - f_equal. apply IH; [assumption |].
    intros k Hk Hs. apply SetObj_add_In in Hs. destruct Hs as [Hs | ->].
    + apply (Hout k); [now right | assumption].
    + contradiction.
Qed.

End Dedup.

(** The key that the code computes is the identity key of the
    specification. *)
Lemma finding_key_identity f : finding_key f = identity_key f.
Proof. reflexivity. Qed.

Lemma first_occurrences_code_key findings :
  first_occurrences findings =
  map snd
    (filter
       (fun p =>
          negb (existsb
                  (fun g => String.eqb (finding_key g) (finding_key (snd p)))
                  (firstn (fst p) findings)))
       (combine (seq 0 (List.length findings)) findings)).
Proof. reflexivity. Qed.

(** C4.  [uniqFindings] returns the first occurrence of every identity key
    [name@version], in the order of the input; no two entries of its output
    have the same identity key, and applying it twice changes nothing more.
    The key is the one the specification names: findings of one version and
    two names are both kept, as are two versions of one name, and only the
    second occurrence of the same name and version is dropped. *)
Theorem uniqFindings_first_occurrences (findings : list finding) :
  uniqFindings findings = first_occurrences findings /\
  NoDup (map identity_key (uniqFindings findings)) /\
  uniqFindings (uniqFindings findings) = uniqFindings findings /\
  uniqFindings [mkFinding "a" "1"; mkFinding "b" "1"; mkFinding "a" "2";
                mkFinding "a" "1"]
  = [mkFinding "a" "1"; mkFinding "b" "1"; mkFinding "a" "2"].
Proof.
  rewrite first_occurrences_code_key.
  assert (Hkeys : map identity_key (uniqFindings findings) =
                  map finding_key (uniqFindings findings))
    by reflexivity.
  rewrite Hkeys. unfold uniqFindings. split; [| split; [| split]].
  - apply (uniq_filter_prefix findings [] []). intros k. reflexivity.
  - apply uniq_filter_keys.
  - apply uniq_filter_fixed.
    + apply uniq_filter_keys.
    + intros k _ [].
  - reflexivity.
Qed.

(** * The comparison *)

Section MapFacts.

Context {V : Type}.

Lemma MapObj_get_In (m : MapObj.t V) k v :
  MapObj.get m k = Some v -> In (k, v) m.
Proof.
  induction m as [| [k' v'] rest IH]; cbn; [discriminate |].
  destruct (String.eqb k' k) eqn:E.
  - apply String.eqb_eq in E. intros [= ->]. left. now subst.
  - intros H. right. now apply IH.
Qed.

Lemma MapObj_In_get (m : MapObj.t V) k v :
  NoDup (MapObj.keys m) -> In (k, v) m -> MapObj.get m k = Some v.
Proof.
  induction m as [| [k' v'] rest IH]; cbn; [intros _ [] |].
  intros Hnd [H | H]; inversion Hnd as [| ? ? Hk Hrest]; subst.
  - inversion H; subst. now rewrite String.eqb_refl.
  - destruct (String.eqb k' k) eqn:E.
    + apply String.eqb_eq in E. subst. exfalso. apply Hk.
      change k with (fst (k, v)). now apply in_map.
    + now apply IH.
Qed.

Lemma MapObj_has_keys (m : MapObj.t V) k :
  MapObj.has m k = true <-> In k (MapObj.keys m).
Proof.
  unfold MapObj.has. induction m as [| [k' v'] rest IH]; cbn.
  - split; [discriminate | intros []].
  - destruct (String.eqb k' k) eqn:E.
    + apply String.eqb_eq in E. subst. split; [now left | reflexivity].
    + apply String.eqb_neq in E. rewrite IH. unfold MapObj.keys.
      split; [now right | intros [H | H]; [contradiction | assumption]].
Qed.

Lemma MapObj_has_get (m : MapObj.t V) k :
  MapObj.has m k = false <-> MapObj.get m k = None.
Proof.
  unfold MapObj.has. destruct (MapObj.get m k); split; congruence.
Qed.

End MapFacts.

Section Compare.

Variable badIndex : MapObj.t SetObj.t.

Lemma compare_versions_filter n versions : forall findings,
  compare_versions badIndex n versions findings =
  findings ++ filter (flagged badIndex) (map (mkFinding n) versions).
Proof.
  unfold compare_versions.
  induction versions as [| v rest IH]; intros findings; cbn [fold_left map filter].
  - now rewrite app_nil_r.
  - rewrite IH. unfold flagged at 2. cbn [name version].
    destruct (MapObj.get badIndex n) as [bad |]; [| reflexivity].
    destruct (SetObj.has bad v); [| reflexivity].
    now rewrite <- app_assoc.
Qed.

Lemma unmonitored_none_flagged n versions :
  MapObj.has badIndex n = false ->
  filter (flagged badIndex) (map (mkFinding n) versions) = [].
Proof.
  intros H. apply MapObj_has_get in H.
  induction versions as [| v rest IH]; [reflexivity |].
  cbn [map filter]. unfold flagged at 1. cbn [name]. now rewrite H.
Qed.

Lemma compare_loop_filter installed : forall findings,
  fold_left
    (fun findings e =>
       let '(n, versions) := e in
       if negb (MapObj.has badIndex n) then findings
       else compare_versions badIndex n versions findings)
    installed findings
  = findings ++ filter (flagged badIndex) (all_pairs installed).
Proof.
  induction installed as [| [n versions] rest IH]; intros findings.
  - cbn. now rewrite app_nil_r.
  - cbn [fold_left]. rewrite IH. unfold all_pairs. cbn [flat_map fst snd].
    rewrite filter_app, app_assoc. f_equal.
    destruct (MapObj.has badIndex n) eqn:E; cbn [negb].
    + apply compare_versions_filter.
    + rewrite (unmonitored_none_flagged _ _ E). now rewrite app_nil_r.
Qed.

End Compare.

Lemma compare_eq installed knownBad badIndex :
  build_badIndex knownBad = Ok badIndex ->
  compare installed knownBad =
  Ok (filter (flagged badIndex) (all_pairs installed)).
Proof.
  intros H. unfold compare. rewrite H. cbn [bind].
  now rewrite compare_loop_filter.
Qed.

Lemma compare_throws installed knownBad :
  build_badIndex knownBad = TypeError -> compare installed knownBad = TypeError.
Proof. intros H. unfold compare. now rewrite H. Qed.

Lemma In_all_pairs installed n v :
  In (mkFinding n v) (all_pairs installed) <->
  exists versions, In (n, versions) installed /\ In v versions.
Proof.
  unfold all_pairs. rewrite in_flat_map. split.
  - intros [[n' versions] [He Hin]]. cbn in Hin. apply in_map_iff in Hin.
    destruct Hin as [v' [Heq Hv]]. inversion Heq; subst. eauto.
  - intros [versions [He Hv]]. exists (n, versions). split; [assumption |].
    cbn. now apply in_map.
Qed.

Lemma NoDup_all_pairs installed :
  inventory_wf installed -> NoDup (all_pairs installed).
Proof.
  unfold inventory_wf, all_pairs.
  induction installed as [| [n versions] rest IH]; intros [Hk Hs]; [constructor |].
  cbn [flat_map fst snd]. cbn in Hk.
  inversion Hk as [| ? ? Hn Hrest]; subst.
  inversion Hs as [| ? ? Hv Hvs]; subst.
  apply NoDup_app.
  - apply Injective_map_NoDup; [| exact Hv].
    intros x y Heq. now inversion Heq.
  - apply IH. split; assumption.
  - intros f Hf Hin. apply in_map_iff in Hf. destruct Hf as [v [<- _]].
    apply (In_all_pairs rest n v) in Hin. destruct Hin as [vs [Hin _]].
    apply Hn. change n with (fst (n, vs)). now apply in_map.
Qed.

Lemma flagged_true badIndex n v :
  flagged badIndex (mkFinding n v) = true <->
  exists bad, MapObj.get badIndex n = Some bad /\ In v bad.
Proof.
  unfold flagged. cbn [name version].
  destruct (MapObj.get badIndex n) as [bad |].
  - rewrite SetObj_has_In. split.
    + intros H. eauto.
    + intros [bad' [[= <-] H]]. assumption.
  - split; [discriminate | intros [bad [[=] _]]].
Qed.

(** C1.  [compare] emits a finding for a name and a version exactly when the
    name is a key of the inventory and of the index built from the registry
    and the version is in both sets; it emits each such pair once, in the
    iteration order of the inventory and, within a name, of its set. *)
Theorem compare_findings (installed : inventory) (knownBad : jsval)
  (badIndex : MapObj.t SetObj.t) :
  inventory_wf installed ->
  build_badIndex knownBad = Ok badIndex ->
  exists found,
    compare installed knownBad = Ok found /\
    found = filter (flagged badIndex) (all_pairs installed) /\
    (forall n v,
        In (mkFinding n v) found <->
        (exists versions, MapObj.get installed n = Some versions /\ In v versions) /\
        (exists bad, MapObj.get badIndex n = Some bad /\ In v bad)) /\
    NoDup found.
Proof.
  intros Hwf Hidx. exists (filter (flagged badIndex) (all_pairs installed)).
  split; [now apply compare_eq | split; [reflexivity | split]].
  - intros n v. rewrite filter_In, In_all_pairs, flagged_true.
    destruct Hwf as [Hk _]. split.
    + intros [[vs [Hin Hv]] Hbad]. split; [| assumption].
      exists vs. split; [now apply MapObj_In_get | assumption].
    + intros [[vs [Hget Hv]] Hbad]. split; [| assumption].
      exists vs. split; [now apply MapObj_get_In | assumption].
  - apply NoDup_filter. now apply NoDup_all_pairs.
Qed.

(** * The store *)

Section Store.

Lemma heap_write_length h : forall l s,
  List.length (heap_write h l s) = List.length h.
Proof.
  induction h as [| x rest IH]; intros [| l] s; cbn; auto.
Qed.

Lemma heap_read_write_eq h : forall l s,
  l < List.length h -> heap_read (heap_write h l s) l = s.
Proof.
  unfold heap_read.
  induction h as [| x rest IH]; intros [| l] s Hl; cbn in *; try lia; auto.
  apply IH. lia.
Qed.

Lemma heap_read_write_ne h : forall l l' s,
  l <> l' -> heap_read (heap_write h l s) l' = heap_read h l'.
Proof.
  unfold heap_read.
  induction h as [| x rest IH]; intros [| l] [| l'] s Hne; cbn; auto;
    try congruence.
Qed.

Lemma heap_read_app h h' l :
  l < List.length h -> heap_read (h ++ h') l = heap_read h l.
Proof. intros Hl. unfold heap_read. now apply app_nth1. Qed.

Lemma heap_write_alloc h s :
  heap_write (h ++ [[]]) (List.length h) s = h ++ [s].
Proof. induction h as [| x rest IH]; cbn; [reflexivity | now rewrite IH]. Qed.

Lemma heap_read_last h s : heap_read (h ++ [s]) (List.length h) = s.
Proof.
  unfold heap_read. rewrite app_nth2, Nat.sub_diag; [reflexivity | lia].
Qed.

Lemma deref_get h (m : jsmap) n :
  MapObj.get (deref h m) n = option_map (heap_read h) (MapObj.get m n).
Proof.
  induction m as [| [k l] rest IH]; cbn; [reflexivity |].
  destruct (String.eqb k n); [reflexivity | assumption].
Qed.

Lemma deref_has h (m : jsmap) n :
  MapObj.has (deref h m) n = MapObj.has m n.
Proof.
  unfold MapObj.has. rewrite deref_get. now destruct (MapObj.get m n).
Qed.

Lemma deref_keys h (m : jsmap) : MapObj.keys (deref h m) = MapObj.keys m.
Proof.
  unfold MapObj.keys, deref. rewrite map_map. reflexivity.
Qed.

Lemma deref_app h (m m' : jsmap) : deref h (m ++ m') = deref h m ++ deref h m'.
Proof. apply map_app. Qed.

(** Cells that a map does not point to do not matter to what it holds. *)
Lemma deref_ext h h' (m : jsmap) :
  (forall l, In l (map snd m) -> heap_read h' l = heap_read h l) ->
  deref h' m = deref h m.
Proof.
  intros H. unfold deref. apply map_ext_in. intros [k l] Hin. cbn.
  f_equal. apply H. change l with (snd (k, l)). now apply in_map.
Qed.

Lemma MapObj_get_loc (m : jsmap) n l :
  MapObj.get m n = Some l -> In l (map snd m).
Proof.
  intros H. apply MapObj_get_In in H.
  change l with (snd (n, l)). now apply in_map.
Qed.

Lemma MapObj_set_new {V} (m : MapObj.t V) k v :
  MapObj.get m k = None -> MapObj.set m k v = m ++ [(k, v)].
Proof.
  induction m as [| [k' v'] rest IH]; cbn; [reflexivity |].
  destruct (String.eqb k' k); [discriminate |].
  intros H. now rewrite IH.
Qed.

Lemma MapObj_get_set {V} (m : MapObj.t V) k v k' :
  MapObj.get (MapObj.set m k v) k' =
  if String.eqb k k' then Some v else MapObj.get m k'.
Proof.
  induction m as [| [k0 v0] rest IH]; cbn.
  - reflexivity.
  - destruct (String.eqb k0 k) eqn:E; cbn.
    + apply String.eqb_eq in E. subst.
      destruct (String.eqb k k'); reflexivity.
    + destruct (String.eqb k0 k') eqn:E'; [| assumption].
      apply String.eqb_eq in E'. subst. now rewrite String.eqb_sym, E.
Qed.

Lemma MapObj_keys_set {V} (m : MapObj.t V) k v :
  MapObj.keys (MapObj.set m k v) =
  if MapObj.has m k then MapObj.keys m else MapObj.keys m ++ [k].
Proof.
  unfold MapObj.has, MapObj.keys.
  induction m as [| [k0 v0] rest IH]; cbn; [reflexivity |].
  destruct (String.eqb k0 k) eqn:E; cbn.
  - apply String.eqb_eq in E. now subst.
  - rewrite IH. now destruct (MapObj.get rest k).
Qed.

(** Writing the cell of one name changes the set of that name only. *)
Lemma deref_write (m : jsmap) h n l s :
  NoDup (map snd m) -> MapObj.get m n = Some l -> l < List.length h ->
  deref (heap_write h l s) m = MapObj.set (deref h m) n s.
Proof.
  intros Hnd Hget Hl.
  induction m as [| [k l'] rest IH]; cbn in *; [discriminate |].
  inversion Hnd as [| ? ? Hnotin Hrest]; subst.
  destruct (String.eqb k n) eqn:E.
  - apply String.eqb_eq in E. inversion Hget; subst.
    rewrite heap_read_write_eq by assumption. f_equal.
    apply deref_ext. intros l' Hl'. apply heap_read_write_ne.
    intros ->. contradiction.
  - rewrite heap_read_write_ne.
    + f_equal. now apply IH.
    + intros ->. apply Hnotin. now apply (MapObj_get_loc rest n).
Qed.

End Store.

Section Add.

Lemma versions_of_deref h (m : jsmap) n l :
  MapObj.get m n = Some l -> versions_of (deref h m) n = heap_read h l.
Proof. intros H. unfold versions_of. now rewrite deref_get, H. Qed.

(** [add] on the store is [inv_add] on what the map holds. *)
Lemma add_deref m h n v s :
  jsmap_wf m h -> JS.ToString v = Some s ->
  exists m' h',
    add m n v h = Ok (m', h') /\
    jsmap_wf m' h' /\
    List.length h <= List.length h' /\
    deref h' m' = inv_add (deref h m) n s /\
    (forall l, l < List.length h -> ~ In l (map snd m) ->
               heap_read h' l = heap_read h l).
Proof.
  intros [Hnd Hval] Hs. unfold add, String_, inv_add.
  destruct (MapObj.has m n) eqn:Hhas; cbn [negb].
  - unfold MapObj.has in Hhas.
    destruct (MapObj.get m n) as [l |] eqn:Hget; [| discriminate].
    rewrite Hs. cbn [bind].
    assert (Hl : l < List.length h) by (apply Hval; now apply (MapObj_get_loc m n)).
    eexists _, _. split; [reflexivity |]. repeat split.
    + assumption.
    + intros l' Hl'. rewrite heap_write_length. now apply Hval.
    + rewrite heap_write_length. store_lia.
    + rewrite (versions_of_deref h m n l Hget). now apply deref_write.
    + intros l' _ Hnot. apply heap_read_write_ne. intros ->.
      apply Hnot. now apply (MapObj_get_loc m n).
  - apply MapObj_has_get in Hhas. cbn [heap_alloc].
    rewrite MapObj_get_set, String.eqb_refl, Hs. cbn [bind].
    rewrite heap_read_last, heap_write_alloc.
    rewrite (MapObj_set_new m n _ Hhas).
    eexists _, _. split; [reflexivity |]. repeat split.
    + rewrite map_app. cbn. apply NoDup_app; [assumption | repeat constructor; intros [] |].
      intros l Hl [<- | []]. apply Hval in Hl. store_lia.
    + intros l. rewrite map_app, in_app_iff, length_app. cbn.
      intros [Hl | [<- | []]]; [apply Hval in Hl |]; store_lia.
    + rewrite length_app. store_lia.
    + rewrite deref_app. cbn. rewrite heap_read_last.
      unfold versions_of. rewrite deref_get, Hhas. cbn.
      rewrite MapObj_set_new by (now rewrite deref_get, Hhas).
      f_equal. apply deref_ext. intros l Hl. apply heap_read_app. now apply Hval.
    + intros l Hl _. now apply heap_read_app.
Qed.

Lemma add_throws m h n v :
  JS.ToString v = None -> add m n v h = TypeError.
Proof.
  intros Hs. unfold add, String_. rewrite Hs.
  destruct (negb (MapObj.has m n)); cbn [heap_alloc].
  - now rewrite MapObj_get_set, String.eqb_refl.
  - now destruct (MapObj.get m n).
Qed.

Lemma add_fuel m h n v : add m n v h <> OutOfFuel.
Proof.
  unfold add, String_.
  destruct (negb (MapObj.has m n)); cbn [heap_alloc];
    [rewrite MapObj_get_set, String.eqb_refl | destruct (MapObj.get m n)];
    destruct (JS.ToString v); cbn; congruence.
Qed.

(** What [inv_add] changes in the lookups. *)
Lemma installs_inv_add installed n v k x :
  installs (inv_add installed n v) k x <->
  installs installed k x \/ (k = n /\ x = v).
Proof.
  unfold installs, inv_add, versions_of. split.
  - intros [vs [Hget Hin]]. rewrite MapObj_get_set in Hget.
    destruct (String.eqb n k) eqn:E.
    + apply String.eqb_eq in E. subst k. inversion Hget; subst vs.
      apply SetObj_add_In in Hin. destruct Hin as [Hin | ->]; [| now right].
      left. destruct (MapObj.get installed n) as [old |]; [eauto | destruct Hin].
    + left. eauto.
  - intros [[vs [Hget Hin]] | [-> ->]].
    + rewrite MapObj_get_set. destruct (String.eqb n k) eqn:E.
      * apply String.eqb_eq in E. subst k. rewrite Hget.
        eexists. split; [reflexivity |]. apply SetObj_add_In. now left.
      * eauto.
    + rewrite MapObj_get_set, String.eqb_refl.
      eexists. split; [reflexivity |]. apply SetObj_add_In. now right.
Qed.

Lemma keys_inv_add installed n v k :
  In k (MapObj.keys (inv_add installed n v)) <->
  In k (MapObj.keys installed) \/ k = n.
Proof.
  unfold inv_add. rewrite MapObj_keys_set.
  destruct (MapObj.has installed n) eqn:E.
  - apply MapObj_has_keys in E. split; [tauto | intros [H | ->]; assumption].
  - rewrite in_app_iff. cbn. intuition.
Qed.

Lemma add_all_deref l : forall m h,
  jsmap_wf m h ->
  forallb (fun e => coercible (snd e)) l = true ->
  exists m' h',
    add_all l (m, h) = Ok (m', h') /\
    jsmap_wf m' h' /\
    (forall k x,
        installs (deref h' m') k x <->
        installs (deref h m) k x \/
        exists v, In (k, v) l /\ JS.ToString v = Some x) /\
    (forall k,
        In k (MapObj.keys m') <-> In k (MapObj.keys m) \/ In k (map fst l)).
Proof.
  unfold add_all.
  induction l as [| [n v] rest IH]; intros m h Hwf Hco.
  - exists m, h. split; [reflexivity |]. split; [assumption |]. split.
    + intros k x. split; [tauto | intros [H | [v [[] _]]]; assumption].
    + intros k. cbn. tauto.
  - cbn in Hco. apply andb_prop in Hco. destruct Hco as [Hv Hrest].
    unfold coercible in Hv. destruct (JS.ToString v) as [s |] eqn:Hs; [| discriminate].
    destruct (add_deref m h n v s Hwf Hs) as (m1 & h1 & Hadd & Hwf1 & _ & Hd & _).
    destruct (IH m1 h1 Hwf1 Hrest) as (m' & h' & Hall & Hwf' & Hin & Hkeys).
    exists m', h'. cbn [foldM fst snd]. rewrite Hadd. cbn [bind].
    split; [assumption |]. split; [assumption |]. split.
    + intros k x. rewrite Hin, Hd, installs_inv_add. split.
      * intros [[H | [-> ->]] | [v' [Hv' Hx]]].
        -- now left.
        -- right. exists v. split; [now left | assumption].
        -- right. exists v'. split; [now right | assumption].
      * intros [H | [v' [[Heq | Hv'] Hx]]].
        -- left. now left.
        -- inversion Heq; subst. left. right. split; [reflexivity | congruence].
        -- right. eauto.
    + intros k. rewrite Hkeys. rewrite <- (deref_keys h1 m1), Hd.
      rewrite keys_inv_add, deref_keys. cbn. intuition.
Qed.

End Add.

(** * The merge *)

Section MergeStore.

Lemma merge_versions_sim (merged : jsmap) n l vers : forall h,
  NoDup (map snd merged) -> MapObj.get merged n = Some l ->
  l < List.length h ->
  List.length (merge_versions merged n vers h) = List.length h /\
  deref (merge_versions merged n vers h) merged =
    fold_left (fun i v => inv_add i n v) vers (deref h merged) /\
  forall l', l' <> l ->
    heap_read (merge_versions merged n vers h) l' = heap_read h l'.
Proof.
  intros h Hnd Hget. revert h. unfold merge_versions. rewrite Hget.
  induction vers as [| v rest IH]; intros h Hl; cbn [fold_left].
  - auto.
  - destruct (IH (heap_write h l (SetObj.add (heap_read h l) v)))
      as (Hlen & Hd & Hfr).
    { now rewrite heap_write_length. }
    rewrite Hlen, Hd, heap_write_length. split; [reflexivity |]. split.
    + f_equal. unfold inv_add.
      rewrite (versions_of_deref h merged n l Hget). now apply deref_write.
    + intros l' Hne. rewrite Hfr by assumption.
      apply heap_read_write_ne. congruence.
Qed.

Lemma merge_entry_sim (merged : jsmap) h n lb :
  jsmap_wf merged h -> lb < List.length h ->
  jsmap_wf (fst (merge_entry (merged, h) (n, lb)))
           (snd (merge_entry (merged, h) (n, lb))) /\
  List.length h <= List.length (snd (merge_entry (merged, h) (n, lb))) /\
  deref (snd (merge_entry (merged, h) (n, lb)))
        (fst (merge_entry (merged, h) (n, lb))) =
    inv_merge_entry (deref h merged) (n, heap_read h lb) /\
  forall l, l < List.length h -> ~ In l (map snd merged) ->
    heap_read (snd (merge_entry (merged, h) (n, lb))) l = heap_read h l.
Proof.
  intros [Hnd Hval] Hlb. unfold merge_entry, inv_merge_entry.
  rewrite deref_has.
  destruct (MapObj.has merged n) eqn:Hhas; cbn [negb fst snd].
  - unfold MapObj.has in Hhas.
    destruct (MapObj.get merged n) as [l |] eqn:Hget; [| discriminate].
    assert (Hl : l < List.length h)
      by (apply Hval; now apply (MapObj_get_loc merged n)).
    destruct (merge_versions_sim merged n l (heap_read h lb) h Hnd Hget Hl)
      as (Hlen & Hd & Hfr).
    split; [split; [assumption | intros l' Hl'; rewrite Hlen; now apply Hval] |].
    split; [rewrite Hlen; store_lia |]. split; [assumption |].
    intros l' _ Hnot. apply Hfr. intros ->.
    apply Hnot. now apply (MapObj_get_loc merged n).
  - apply MapObj_has_get in Hhas. cbn [heap_alloc fst snd].
    rewrite (MapObj_set_new merged n _ Hhas).
    rewrite (heap_read_app h [[]] lb Hlb).
    set (merged1 := merged ++ [(n, List.length h)]).
    assert (Hnd1 : NoDup (map snd merged1)).
    { unfold merged1. rewrite map_app. cbn.
      apply NoDup_app; [assumption | repeat constructor; intros [] |].
      intros l Hl [<- | []]. apply Hval in Hl. store_lia. }
    assert (Hget1 : MapObj.get merged1 n = Some (List.length h)).
    { unfold merged1. rewrite <- (MapObj_set_new merged n _ Hhas).
      now rewrite MapObj_get_set, String.eqb_refl. }
    assert (Hl1 : List.length h < List.length (h ++ [[]]))
      by (rewrite length_app; store_lia).
    destruct (merge_versions_sim merged1 n (List.length h) (heap_read h lb)
                (h ++ [[]]) Hnd1 Hget1 Hl1) as (Hlen & Hd & Hfr).
    split; [split; [assumption |] |].
    { intros l. rewrite Hlen. unfold merged1.
      rewrite map_app, in_app_iff, length_app.
      cbn. intros [Hl | [<- | []]]; [apply Hval in Hl |]; store_lia. }
    split; [rewrite Hlen, length_app; store_lia |]. split.
    + rewrite Hd. f_equal. unfold merged1. rewrite deref_app. cbn.
      rewrite heap_read_last.
      rewrite MapObj_set_new by (now rewrite deref_get, Hhas).
      f_equal. apply deref_ext. intros l Hl. apply heap_read_app. now apply Hval.
    + intros l Hl _. rewrite Hfr by store_lia. now apply heap_read_app.
Qed.

(** The merge on the store is [inv_merge] on what the maps hold, and it
    leaves alone every cell that [lock] does not point to. *)
Lemma merge_sim (nm : jsmap) : forall (lock : jsmap) h,
  jsmap_wf lock h ->
  (forall l, In l (map snd nm) ->
             l < List.length h /\ ~ In l (map snd lock)) ->
  deref (snd (merge lock nm h)) (fst (merge lock nm h)) =
    inv_merge (deref h lock) (deref h nm) /\
  List.length h <= List.length (snd (merge lock nm h)) /\
  forall l, l < List.length h -> ~ In l (map snd lock) ->
    heap_read (snd (merge lock nm h)) l = heap_read h l.
Proof.
  unfold merge, inv_merge.
  induction nm as [| [n lb] rest IH]; intros lock h Hwf Hnm; cbn [fold_left].
  - cbn. auto.
  - assert (Hlb : lb < List.length h) by (apply Hnm; now left).
    destruct (merge_entry_sim lock h n lb Hwf Hlb) as (Hwf1 & Hlen1 & Hd1 & Hfr1).
    destruct (merge_entry (lock, h) (n, lb)) as [lock1 h1] eqn:Hstep.
    cbn [fst snd] in *.
    assert (Hlocs : forall l, In l (map snd lock1) ->
                              In l (map snd lock) \/ List.length h <= l).
    { intros l Hl. unfold merge_entry in Hstep.
      destruct (MapObj.has lock n) eqn:Hhas; cbn [negb heap_alloc] in Hstep.
      - inversion Hstep; subst. now left.
      - inversion Hstep; subst. apply MapObj_has_get in Hhas.
        rewrite (MapObj_set_new lock n _ Hhas), map_app, in_app_iff in Hl.
        destruct Hl as [Hl | [<- | []]]; [now left | right; cbn; store_lia]. }
    assert (Hrest : forall l, In l (map snd rest) ->
                              l < List.length h1 /\ ~ In l (map snd lock1)).
    { intros l Hl. destruct (Hnm l (or_intror Hl)) as [Hlt Hnot].
      split; [store_lia |]. intros Hin. apply Hlocs in Hin.
      destruct Hin as [Hin | Hge]; [contradiction | store_lia]. }
    destruct (IH lock1 h1 Hwf1 Hrest) as (Hd & Hlen & Hfr).
    split; [| split].
    + rewrite Hd, Hd1. rewrite (deref_ext h h1 rest); [reflexivity |].
      intros l Hl.
      destruct (Hnm l (or_intror Hl)) as [Hlt Hnot]. now apply Hfr1.
    + store_lia.
    + intros l Hl Hnot. rewrite Hfr.
      * now apply Hfr1.
      * store_lia.
      * intros Hin. apply Hlocs in Hin.
        destruct Hin as [Hin | Hge]; [contradiction | store_lia].
Qed.

(** The merge never writes to a [Set] of [nm]. *)
Lemma merge_keeps_nm (lock nm : jsmap) h :
  jsmap_wf lock h -> jsmap_wf nm h -> separate lock nm ->
  deref (snd (merge lock nm h)) nm = deref h nm.
Proof.
  intros Hlock [_ Hval] Hsep.
  assert (Hnm : forall l, In l (map snd nm) ->
                          l < List.length h /\ ~ In l (map snd lock)).
  { intros l Hl. split; [now apply Hval |]. intros Hin. now apply (Hsep l). }
  destruct (merge_sim nm lock h Hlock Hnm) as (_ & _ & Hfr).
  apply deref_ext. intros l Hl. destruct (Hnm l Hl). now apply Hfr.
Qed.

End MergeStore.

Section MergeInventory.

Lemma fold_add_In vers : forall cur v,
  In v (fold_left SetObj.add vers cur) <-> In v cur \/ In v vers.
Proof.
  induction vers as [| x rest IH]; intros cur v; cbn [fold_left].
  - cbn. tauto.
  - rewrite IH, SetObj_add_In. cbn. intuition.
Qed.

Lemma get_fold_inv_add n vers : forall (i : inventory) cur k,
  MapObj.get i n = Some cur ->
  MapObj.get (fold_left (fun i v => inv_add i n v) vers i) k =
  if String.eqb n k then Some (fold_left SetObj.add vers cur)
  else MapObj.get i k.
Proof.
  induction vers as [| v rest IH]; intros i cur k Hget; cbn [fold_left].
  - destruct (String.eqb n k) eqn:E; [| reflexivity].
    apply String.eqb_eq in E. now subst.
  - rewrite (IH (inv_add i n v) (SetObj.add cur v)).
    + unfold inv_add. rewrite MapObj_get_set.
      now destruct (String.eqb n k).
    + unfold inv_add, versions_of.
      now rewrite MapObj_get_set, String.eqb_refl, Hget.
Qed.

Lemma get_inv_merge_entry (i : inventory) n vers k :
  MapObj.get (inv_merge_entry i (n, vers)) k =
  if String.eqb n k then Some (fold_left SetObj.add vers (versions_of i n))
  else MapObj.get i k.
Proof.
  unfold inv_merge_entry.
  rewrite (get_fold_inv_add n vers _ (versions_of i n)).
  - destruct (String.eqb n k) eqn:E; [reflexivity |].
    destruct (MapObj.has i n); cbn [negb]; [reflexivity |].
    now rewrite MapObj_get_set, E.
  - unfold versions_of, MapObj.has.
    destruct (MapObj.get i n) eqn:Hget; cbn [negb]; [assumption |].
    now rewrite MapObj_get_set, String.eqb_refl.
Qed.

Lemma get_inv_merge_other (nm : inventory) : forall (lock : inventory) k,
  ~ In k (MapObj.keys nm) ->
  MapObj.get (inv_merge lock nm) k = MapObj.get lock k.
Proof.
  unfold inv_merge.
  induction nm as [| [n vers] rest IH]; intros lock k Hk; cbn [fold_left];
    [reflexivity |].
  cbn in Hk. rewrite IH by tauto. rewrite get_inv_merge_entry.
  destruct (String.eqb n k) eqn:E; [| reflexivity].
  apply String.eqb_eq in E. tauto.
Qed.

Lemma installs_inv_merge (nm : inventory) : forall (lock : inventory) k v,
  installs (inv_merge lock nm) k v <->
  installs lock k v \/ exists vers, In (k, vers) nm /\ In v vers.
Proof.
  unfold inv_merge.
  induction nm as [| [n vers] rest IH]; intros lock k v; cbn [fold_left].
  - split; [tauto | intros [H | [vers [[] _]]]; assumption].
  - rewrite IH. unfold installs at 1. rewrite get_inv_merge_entry.
    destruct (String.eqb n k) eqn:E.
    + apply String.eqb_eq in E. subst k. split.
      * intros [[s [[= <-] Hin]] | [vs [Hvs Hin]]].
        -- apply fold_add_In in Hin. destruct Hin as [Hin | Hin].
           ++ left. unfold installs, versions_of in *.
              destruct (MapObj.get lock n); [eauto | destruct Hin].
           ++ right. exists vers. split; [now left | assumption].
        -- right. exists vs. split; [now right | assumption].
      * intros [[s [Hget Hin]] | [vs [[Heq | Hvs] Hin]]].
        -- left. eexists. split; [reflexivity |]. apply fold_add_In.
           left. unfold versions_of. now rewrite Hget.
        -- inversion Heq; subst. left. eexists. split; [reflexivity |].
           apply fold_add_In. now right.
        -- right. eauto.
    + apply String.eqb_neq in E. split.
      * intros [H | [vs [Hvs Hin]]]; [now left |].
        right. exists vs. split; [now right | assumption].
      * intros [H | [vs [[Heq | Hvs] Hin]]]; [now left | |].
        -- inversion Heq; subst. congruence.
        -- right. eauto.
Qed.

Lemma has_inv_merge (nm : inventory) : forall (lock : inventory) k,
  MapObj.has (inv_merge lock nm) k =
  MapObj.has lock k || existsb (String.eqb k) (MapObj.keys nm).
Proof.
  unfold inv_merge.
  induction nm as [| [n vers] rest IH]; intros lock k; cbn [fold_left].
  - cbn. now rewrite orb_false_r.
  - rewrite IH. unfold MapObj.has at 1. rewrite get_inv_merge_entry.
    cbn [MapObj.keys map fst existsb]. rewrite (String.eqb_sym k n).
    destruct (String.eqb n k); cbn.
    + now rewrite orb_true_r.
    + reflexivity.
Qed.

End MergeInventory.

(** * The index of bad versions *)

Section Index.

Lemma find_last {A} (f : A -> bool) l x :
  find f (l ++ [x]) =
  match find f l with
  | Some y => Some y
  | None => if f x then Some x else None
  end.
Proof.
  induction l as [| y rest IH]; cbn; [reflexivity |].
  destruct (f y); [reflexivity | assumption].
Qed.

Lemma map_String_In items : forall strs,
  map_String items = Ok strs ->
  forall s, In s strs <-> exists b, In b items /\ JS.ToString b = Some s.
Proof.
  induction items as [| x rest IH]; intros strs H s.
  - inversion H; subst. split; [intros [] | intros [b [[] _]]].
  - cbn in H. unfold String_ in H.
    destruct (JS.ToString x) as [sx |] eqn:Hx; [| discriminate].
    cbn in H. destruct (map_String rest) as [r | |] eqn:Hr; try discriminate.
    cbn in H. inversion H; subst. cbn. rewrite (IH r eq_refl). split.
    + intros [<- | [b [Hb Hs]]]; [exists x; auto | exists b; auto].
    + intros [b [[<- | Hb] Hs]]; [left; congruence | right; eauto].
Qed.

Lemma map_String_ok items :
  (exists strs, map_String items = Ok strs) <->
  forallb coercible items = true.
Proof.
  induction items as [| x rest IH]; cbn.
  - split; [reflexivity | eauto].
  - unfold String_, coercible. destruct (JS.ToString x) as [sx |]; cbn.
    + rewrite <- IH. destruct (map_String rest) as [r | |]; cbn; split;
        intros [strs H]; try discriminate; eauto.
    + split; [intros [strs H] |]; discriminate.
Qed.

Lemma map_String_fails items :
  forallb coercible items = false -> map_String items = TypeError.
Proof.
  induction items as [| x rest IH]; cbn; [discriminate |].
  unfold String_, coercible at 1. destruct (JS.ToString x) as [sx |]; cbn.
  - intros H. now rewrite (IH H).
  - reflexivity.
Qed.

Lemma of_list_In strs s : In s (SetObj.of_list strs) <-> In s strs.
Proof. unfold SetObj.of_list. rewrite fold_add_In. cbn. tauto. Qed.

Lemma badIndex_set_ok badIndex entry :
  entry_ok entry = true ->
  exists items strs,
    JS.get entry "badVersions" = JArr items /\
    map_String items = Ok strs /\
    badIndex_set badIndex entry =
    Ok (match JS.get entry "name" with
        | JStr n => MapObj.set badIndex n (SetObj.of_list strs)
        | _ => badIndex
        end).
Proof.
  unfold entry_ok, badIndex_set. intros H. apply andb_prop in H.
  destruct H as [Hn Hb]. apply negb_true_iff in Hn. rewrite Hn.
  destruct (JS.get entry "badVersions"); try discriminate.
  apply map_String_ok in Hb. destruct Hb as [strs Hs].
  exists items, strs. rewrite Hs. cbn [bind].
  split; [reflexivity | split; [reflexivity |]].
  now destruct (JS.get entry "name").
Qed.

Lemma badIndex_set_fails badIndex entry :
  entry_ok entry = false -> badIndex_set badIndex entry = TypeError.
Proof.
  unfold entry_ok, badIndex_set. destruct (JS.nullish entry); [reflexivity |].
  cbn [negb andb].
  destruct (JS.get entry "badVersions"); try reflexivity.
  intros H. now rewrite (map_String_fails _ H).
Qed.

Lemma badIndex_loop_ok packages : forall badIndex,
  (exists idx, badIndex_loop badIndex packages = Ok idx) <->
  forallb entry_ok packages = true.
Proof.
  induction packages as [| e rest IH]; intros badIndex; cbn.
  - split; [reflexivity | eauto].
  - destruct (entry_ok e) eqn:He; cbn.
    + destruct (badIndex_set_ok badIndex e He) as (items & strs & _ & _ & ->).
      cbn [bind]. apply IH.
    + rewrite (badIndex_set_fails badIndex e He). cbn.
      split; [intros [idx H] |]; discriminate.
Qed.

Lemma badIndex_loop_fails packages : forall badIndex,
  forallb entry_ok packages = false ->
  badIndex_loop badIndex packages = TypeError.
Proof.
  induction packages as [| e rest IH]; intros badIndex; cbn; [discriminate |].
  destruct (entry_ok e) eqn:He; cbn.
  - destruct (badIndex_set_ok badIndex e He) as (items & strs & _ & _ & ->).
    cbn [bind]. apply IH.
  - now rewrite (badIndex_set_fails badIndex e He).
Qed.

(** The bad versions of [n] in the index are the coerced [badVersions] of
    the last entry named [n]. *)
Lemma badIndex_loop_flags packages : forall badIndex idx n s,
  badIndex_loop badIndex packages = Ok idx ->
  ((exists bad, MapObj.get idx n = Some bad /\ In s bad) <->
   match last_named n packages with
   | Some e =>
       exists items b,
         JS.get e "badVersions" = JArr items /\ In b items /\
         JS.ToString b = Some s
   | None => exists bad, MapObj.get badIndex n = Some bad /\ In s bad
   end).
Proof.
  unfold last_named.
  induction packages as [| e rest IH]; intros badIndex idx n s Hloop.
  - inversion Hloop; subst. reflexivity.
  - cbn [badIndex_loop] in Hloop.
    destruct (entry_ok e) eqn:He;
      [| rewrite (badIndex_set_fails badIndex e He) in Hloop; discriminate].
    destruct (badIndex_set_ok badIndex e He) as (items & strs & Hbv & Hstrs & Hset).
    rewrite Hset in Hloop. cbn [bind] in Hloop.
    rewrite (IH _ idx n s Hloop). cbn [rev]. rewrite find_last.
    destruct (find (named n) (rev rest)) as [e' |]; [reflexivity |].
    unfold named. destruct (JS.get e "name") as [| | | | n' | |];
      try reflexivity.
    rewrite MapObj_get_set. destruct (String.eqb n' n); [| reflexivity].
    split.
    + intros [bad [[= <-] Hin]]. apply (proj1 (of_list_In _ _)) in Hin.
      apply (proj1 (map_String_In items strs Hstrs s)) in Hin.
      destruct Hin as [b [Hb Hs]]. exists items, b. auto.
    + intros (items' & b & Hbv' & Hb & Hs). rewrite Hbv in Hbv'.
      inversion Hbv'; subst items'. eexists. split; [reflexivity |].
      apply (proj2 (of_list_In _ _)).
      apply (proj2 (map_String_In items strs Hstrs s)). eauto.
Qed.

End Index.

(** C1 at the scenario of the specification. *)
Lemma compare_findings_witness :
  inventory_wf scenario_installed /\
  build_badIndex scenario_knownBad = Ok scenario_index /\
  exists found,
    compare scenario_installed scenario_knownBad = Ok found /\
    found = filter (flagged scenario_index) (all_pairs scenario_installed) /\
    (forall n v,
        In (mkFinding n v) found <->
        (exists versions,
            MapObj.get scenario_installed n = Some versions /\ In v versions) /\
        (exists bad, MapObj.get scenario_index n = Some bad /\ In v bad)) /\
    NoDup found.
Proof.
  assert (Hwf : inventory_wf scenario_installed).
  { split; [solve_NoDup | repeat constructor; cbn; intuition]. }
  split; [exact Hwf | split; [reflexivity |]].
  exact (compare_findings scenario_installed scenario_knownBad scenario_index
           Hwf eq_refl).
Defined.

Example compare_scenario :
  compare scenario_installed scenario_knownBad =
  Ok [mkFinding "pkg-a" "1.0.0"; mkFinding "pkg-b" "2.1.0"].
Proof. reflexivity. Qed.

(** C3.  The merge writes the versions of [nm] into the [Set] objects of
    [lock]: [new Map(lock)] copies the references, so after the merge the
    lockfile inventory holds a version it did not hold before. *)
Theorem merge_writes_to_lock_sets :
  add [] "pkg-a" (JStr "1.0.0") [] = Ok (shared_lock, [["1.0.0"]]) /\
  add [] "pkg-a" (JStr "2.0.0") [["1.0.0"]] = Ok (shared_nm, shared_heap) /\
  deref shared_heap shared_lock = [("pkg-a", ["1.0.0"])] /\
  deref (snd (merge shared_lock shared_nm shared_heap)) shared_lock =
    [("pkg-a", ["1.0.0"; "2.0.0"])] /\
  deref (snd (merge shared_lock shared_nm shared_heap)) shared_nm =
    deref shared_heap shared_nm.
Proof. repeat split. Qed.

Section Union.

Variables (a b : jsmap) (h : heap).
Hypothesis Ha : jsmap_wf a h.
Hypothesis Hb : jsmap_wf b h.
Hypothesis Hsep : separate a b.

Lemma merged_view_eq :
  merged_view a b h = inv_merge (deref h a) (deref h b).
Proof.
  unfold merged_view. apply merge_sim; [assumption |].
  intros l Hl. split; [now apply Hb |]. intros Hin. now apply (Hsep l).
Qed.

Lemma merged_view_installs n v :
  NoDup (MapObj.keys b) ->
  installs (merged_view a b h) n v <->
  installs (deref h a) n v \/ installs (deref h b) n v.
Proof.
  intros Hkb. rewrite merged_view_eq, installs_inv_merge.
  assert (Hk : NoDup (MapObj.keys (deref h b))) by now rewrite deref_keys.
  unfold installs at 3. split; intros [H | [vs [H1 H2]]]; auto; right;
    exists vs; split; auto using MapObj_get_In, MapObj_In_get.
Qed.

Lemma merged_view_has n :
  MapObj.has (merged_view a b h) n = MapObj.has a n || MapObj.has b n.
Proof.
  rewrite merged_view_eq, has_inv_merge, deref_has, deref_keys. f_equal.
  destruct (MapObj.has b n) eqn:E.
  - apply MapObj_has_keys in E. apply existsb_exists. exists n.
    split; [assumption | apply String.eqb_refl].
  - destruct (existsb (String.eqb n) (MapObj.keys b)) eqn:E'; [| reflexivity].
    apply existsb_exists in E'. destruct E' as [k [Hk He]].
    apply String.eqb_eq in He. subst k. apply MapObj_has_keys in Hk. congruence.
Qed.

End Union.

(** C5.  The merge is the union, key by key: a name of one input only keeps
    the versions it has there, a name of both has the versions of both; so
    merging in either order gives the same names with the same versions. *)
Theorem merge_keywise_union (a b : jsmap) (h : heap) :
  jsmap_wf a h -> jsmap_wf b h -> separate a b ->
  NoDup (MapObj.keys a) -> NoDup (MapObj.keys b) ->
  (forall n,
      match MapObj.get (deref h a) n, MapObj.get (deref h b) n with
      | Some sa, None => MapObj.get (merged_view a b h) n = Some sa
      | None, Some sb =>
          exists s, MapObj.get (merged_view a b h) n = Some s /\
                    same_members s sb
      | Some sa, Some sb =>
          exists s, MapObj.get (merged_view a b h) n = Some s /\
                    forall v, In v s <-> In v sa \/ In v sb
      | None, None => MapObj.get (merged_view a b h) n = None
      end) /\
  same_inventory (merged_view a b h) (merged_view b a h).
Proof.
  intros Ha Hb Hsep Hka Hkb.
  assert (Hsep' : separate b a).
  { intros l Hl Hin. now apply (Hsep l). }
  split.
  - intros n.
    pose proof (merged_view_has a b h Ha Hb Hsep n) as Hhas.
    pose proof (fun v => merged_view_installs a b h Ha Hb Hsep n v Hkb) as Hin.
    unfold installs in Hin.
    rewrite <- (deref_has h a), <- (deref_has h b) in Hhas.
    unfold MapObj.has in Hhas.
    destruct (MapObj.get (deref h a) n) as [sa |] eqn:Ea;
      destruct (MapObj.get (deref h b) n) as [sb |] eqn:Eb;
      destruct (MapObj.get (merged_view a b h) n) as [s |] eqn:Em;
      try discriminate.
    + exists s. split; [reflexivity |]. intros v. split.
      * intros Hv. destruct (proj1 (Hin v)) as [[x [[= <-] Hx]] | [x [[= <-] Hx]]];
          eauto.
      * intros [Hv | Hv]; destruct (proj2 (Hin v)) as [x [[= <-] Hx]]; eauto.
    + rewrite merged_view_eq in Em by assumption.
      rewrite get_inv_merge_other in Em; [congruence |].
      rewrite deref_keys. intros Hk. apply MapObj_has_keys in Hk.
      rewrite <- (deref_has h) in Hk. unfold MapObj.has in Hk.
      rewrite Eb in Hk. discriminate.
    + exists s. split; [reflexivity |]. intros v. split.
      * intros Hv. destruct (proj1 (Hin v)) as [[x [[=] _]] | [x [[= <-] Hx]]];
          eauto.
      * intros Hv. destruct (proj2 (Hin v)) as [x [[= <-] Hx]]; eauto.
    + reflexivity.
  - intros n. split.
    + rewrite !merged_view_has by assumption. apply orb_comm.
    + intros v. rewrite !merged_view_installs by assumption. tauto.
Qed.

(** C5 at two inventories that share the name [y]. *)
Lemma merge_keywise_union_witness :
  (jsmap_wf union_a union_heap /\ jsmap_wf union_b union_heap /\
   separate union_a union_b /\
   NoDup (MapObj.keys union_a) /\ NoDup (MapObj.keys union_b)) /\
  merged_view union_a union_b union_heap =
    [("x", ["1"]); ("y", ["2"; "3"]); ("z", ["4"])] /\
  merged_view union_b union_a union_heap =
    [("y", ["2"; "3"]); ("z", ["4"]); ("x", ["1"])] /\
  (forall n,
      match MapObj.get (deref union_heap union_a) n,
            MapObj.get (deref union_heap union_b) n with
      | Some sa, None =>
          MapObj.get (merged_view union_a union_b union_heap) n = Some sa
      | None, Some sb =>
          exists s,
            MapObj.get (merged_view union_a union_b union_heap) n = Some s /\
            same_members s sb
      | Some sa, Some sb =>
          exists s,
            MapObj.get (merged_view union_a union_b union_heap) n = Some s /\
            forall v, In v s <-> In v sa \/ In v sb
      | None, None =>
          MapObj.get (merged_view union_a union_b union_heap) n = None
      end) /\
  same_inventory (merged_view union_a union_b union_heap)
                 (merged_view union_b union_a union_heap).
Proof.
  assert (Ha : jsmap_wf union_a union_heap).
  { split; [solve_NoDup | cbn; intros l [<- | [<- | []]]; lia]. }
  assert (Hb : jsmap_wf union_b union_heap).
  { split; [solve_NoDup | cbn; intros l [<- | [<- | []]]; lia]. }
  assert (Hsep : separate union_a union_b).
  { unfold separate. cbn. intros l [<- | [<- | []]]; lia. }
  assert (Hka : NoDup (MapObj.keys union_a)) by solve_NoDup.
  assert (Hkb : NoDup (MapObj.keys union_b)) by solve_NoDup.
  split; [exact (conj Ha (conj Hb (conj Hsep (conj Hka Hkb)))) |].
  split; [reflexivity | split; [reflexivity |]].
  exact (merge_keywise_union union_a union_b union_heap Ha Hb Hsep Hka Hkb).
Defined.

Section Collected.

Lemma add_all_coercible l : forall st st',
  add_all l st = Ok st' -> forallb (fun e => coercible (snd e)) l = true.
Proof.
  unfold add_all.
  induction l as [| [n v] rest IH]; intros st st' H; [reflexivity |].
  cbn [foldM fst snd] in H. cbn [forallb snd]. unfold coercible at 1.
  destruct (JS.ToString v) as [s |] eqn:Hs.
  - destruct (add (fst st) n v (snd st)) as [st1 | |]; try discriminate.
    cbn [bind] in H. now rewrite (IH st1 st' H).
  - now rewrite (add_throws _ _ _ _ Hs) in H.
Qed.

Lemma inv_add_keys_NoDup installed n v :
  NoDup (MapObj.keys installed) -> NoDup (MapObj.keys (inv_add installed n v)).
Proof.
  intros H. unfold inv_add. rewrite MapObj_keys_set.
  destruct (MapObj.has installed n) eqn:E; [assumption |].
  apply NoDup_app; [assumption | repeat constructor; intros [] |].
  intros k Hk [<- | []]. apply MapObj_has_keys in Hk. congruence.
Qed.

Lemma add_all_keys_NoDup l : forall m h m' h',
  jsmap_wf m h -> NoDup (MapObj.keys m) ->
  add_all l (m, h) = Ok (m', h') -> NoDup (MapObj.keys m').
Proof.
  unfold add_all.
  induction l as [| [n v] rest IH]; intros m h m' h' Hwf Hk H.
  - inversion H; now subst.
  - cbn [foldM fst snd] in H.
    destruct (JS.ToString v) as [s |] eqn:Hs;
      [| now rewrite (add_throws _ _ _ _ Hs) in H].
    destruct (add_deref m h n v s Hwf Hs) as (m1 & h1 & Hadd & Hwf1 & _ & Hd & _).
    rewrite Hadd in H. cbn [bind] in H.
    apply (IH m1 h1 m' h' Hwf1); [| assumption].
    rewrite <- (deref_keys h1 m1), Hd. apply inv_add_keys_NoDup.
    now rewrite deref_keys.
Qed.

Lemma jsmap_wf_empty : jsmap_wf [] [].
Proof. split; [constructor | intros l []]. Qed.

Lemma installs_empty h n v : ~ installs (deref h []) n v.
Proof. intros [vs [H _]]. discriminate. Qed.

Lemma compare_ok installed knownBad found :
  compare installed knownBad = Ok found ->
  exists packages badIndex,
    packages_of knownBad = Ok packages /\
    badIndex_loop [] packages = Ok badIndex /\
    found = filter (flagged badIndex) (all_pairs installed).
Proof.
  unfold compare, build_badIndex. intros H.
  destruct (packages_of knownBad) as [packages | |] eqn:Hp; try discriminate.
  cbn [bind] in H.
  destruct (badIndex_loop [] packages) as [badIndex | |] eqn:Hl; try discriminate.
  cbn [bind] in H. rewrite compare_loop_filter in H. cbn in H.
  inversion H. eauto.
Qed.

Lemma compare_fuel installed knownBad :
  compare installed knownBad <> OutOfFuel.
Proof.
  unfold compare, build_badIndex.
  destruct (packages_of knownBad) as [packages | |] eqn:Hp; cbn [bind];
    [| discriminate |].
  - destruct (forallb entry_ok packages) eqn:E.
    + apply (badIndex_loop_ok packages []) in E. destruct E as [idx ->].
      discriminate.
    + rewrite (badIndex_loop_fails packages [] E). discriminate.
  - unfold packages_of in Hp. destruct (JS.nullish knownBad); [discriminate |].
    destruct (JS.get knownBad "packages"); discriminate.
Qed.

Lemma In_filter_flagged installed badIndex n v :
  NoDup (MapObj.keys installed) ->
  In (mkFinding n v) (filter (flagged badIndex) (all_pairs installed)) <->
  installs installed n v /\
  exists bad, MapObj.get badIndex n = Some bad /\ In v bad.
Proof.
  intros Hk. rewrite filter_In, In_all_pairs, flagged_true. unfold installs.
  split; intros [[vs [H1 H2]] Hbad]; (split; [| assumption]); exists vs;
    split; auto using MapObj_get_In, MapObj_In_get.
Qed.

Lemma string_or_number_coercible items :
  forallb string_or_number items = true -> forallb coercible items = true.
Proof.
  induction items as [| x rest IH]; cbn; [reflexivity |].
  intros H. apply andb_prop in H. destruct H as [Hx Hrest].
  rewrite (IH Hrest), andb_true_r. now destruct x.
Qed.

End Collected.

(** With one entry for a name, that entry is the one that decides. *)
Lemma last_named_once n packages e :
  named_once n packages ->
  last_named n packages = Some e <-> In e packages /\ named n e = true.
Proof.
  intros Honce. unfold last_named. split.
  - intros H. apply find_some in H. destruct H as [Hin Hn].
    split; [now apply in_rev | assumption].
  - intros [Hin Hn]. destruct (find (named n) (rev packages)) as [e' |] eqn:Hf.
    + apply find_some in Hf. destruct Hf as [Hin' Hn'].
      apply in_rev in Hin'. f_equal. now apply Honce.
    + apply in_rev in Hin. rewrite (find_none _ _ Hf e Hin) in Hn.
      discriminate.
Qed.

(** C6 as it is worded fails: a bad version of the registry whose entry is
    followed by another entry of the same name is not in the index, and an
    installed version with the very same string is not reported. *)
Lemma replaced_entry_is_not_matched :
  packages_of cleared_knownBad =
    Ok [entry "pkg-a" [JStr "1.0.0"]; entry "pkg-a" []] /\
  JS.get (entry "pkg-a" [JStr "1.0.0"]) "name" = JStr "pkg-a" /\
  JS.get (entry "pkg-a" [JStr "1.0.0"]) "badVersions" = JArr [JStr "1.0.0"] /\
  JS.ToString (JStr "1.0.0") = Some "1.0.0" /\
  add [] "pkg-a" (JStr "1.0.0") [] = Ok ([("pkg-a", 0)], [["1.0.0"]]) /\
  build_badIndex cleared_knownBad = Ok [("pkg-a", [])] /\
  compare (deref [["1.0.0"]] [("pkg-a", 0)]) cleared_knownBad = Ok [] /\
  ~ (exists found,
        compare (deref [["1.0.0"]] [("pkg-a", 0)]) cleared_knownBad = Ok found /\
        In (mkFinding "pkg-a" "1.0.0") found).
Proof.
  repeat split. intros (found & [= <-] & []).
Qed.

(** C6, amended.  Versions are compared as strings: [add] puts
    [String(version)] into the set of the name, the index holds [String(b)]
    for every bad version [b] of the entry that decides the name, the last
    one with that name, and [compare] reports a name and a string exactly
    when the string is [String] of an installed version and [String] of a
    bad version of that entry.  The number 1.5 in the registry matches the
    installed version "1.5".  For a name that the registry has one entry
    for, the bad versions of the index are those of the registry. *)
Theorem version_match_is_string_equality :
  (forall m h n v,
      jsmap_wf m h ->
      match JS.ToString v with
      | Some s =>
          exists m' h',
            add m n v h = Ok (m', h') /\
            deref h' m' = inv_add (deref h m) n s
      | None => add m n v h = TypeError
      end) /\
  (forall knownBad packages badIndex n s,
      packages_of knownBad = Ok packages ->
      build_badIndex knownBad = Ok badIndex ->
      ((exists bad, MapObj.get badIndex n = Some bad /\ In s bad) <->
       (exists e items b,
           last_named n packages = Some e /\
           JS.get e "badVersions" = JArr items /\
           In b items /\ JS.ToString b = Some s))) /\
  (forall adds m h knownBad packages found n s,
      add_all adds ([], []) = Ok (m, h) ->
      packages_of knownBad = Ok packages ->
      compare (deref h m) knownBad = Ok found ->
      (In (mkFinding n s) found <->
       (exists v, In (n, v) adds /\ JS.ToString v = Some s) /\
       (exists e items b,
           last_named n packages = Some e /\
           JS.get e "badVersions" = JArr items /\
           In b items /\ JS.ToString b = Some s))) /\
  (exists m h,
      add [] "pkg" (JStr "1.5") [] = Ok (m, h) /\
      compare (deref h m) numeric_knownBad = Ok [mkFinding "pkg" "1.5"]) /\
  (forall adds m h knownBad packages found n s,
      add_all adds ([], []) = Ok (m, h) ->
      packages_of knownBad = Ok packages ->
      compare (deref h m) knownBad = Ok found ->
      named_once n packages ->
      (In (mkFinding n s) found <->
       (exists v, In (n, v) adds /\ JS.ToString v = Some s) /\
       (exists e items b,
           In e packages /\ named n e = true /\
           JS.get e "badVersions" = JArr items /\
           In b items /\ JS.ToString b = Some s))).
Proof.
  assert (Hindex : forall packages badIndex n s,
             badIndex_loop [] packages = Ok badIndex ->
             ((exists bad, MapObj.get badIndex n = Some bad /\ In s bad) <->
              (exists e items b,
                  last_named n packages = Some e /\
                  JS.get e "badVersions" = JArr items /\
                  In b items /\ JS.ToString b = Some s))).
  { intros packages badIndex n s Hloop.
    rewrite (badIndex_loop_flags packages [] badIndex n s Hloop).
    destruct (last_named n packages) as [e |]; split.
    - intros (items & b & H). exists e, items, b. auto.
    - intros (e' & items & b & [= <-] & H). eauto.
    - intros [bad [[=] _]].
    - intros (e' & items & b & [=] & _). }
  assert (Hcompare : forall adds m h knownBad packages found n s,
             add_all adds ([], []) = Ok (m, h) ->
             packages_of knownBad = Ok packages ->
             compare (deref h m) knownBad = Ok found ->
             (In (mkFinding n s) found <->
              (exists v, In (n, v) adds /\ JS.ToString v = Some s) /\
              (exists e items b,
                  last_named n packages = Some e /\
                  JS.get e "badVersions" = JArr items /\
                  In b items /\ JS.ToString b = Some s))).
  2:{ split; [| split; [| split; [| split]]].
      - intros m h n v Hwf. destruct (JS.ToString v) as [s |] eqn:Hs.
        + destruct (add_deref m h n v s Hwf Hs)
            as (m' & h' & Hadd & _ & _ & Hd & _).
          eauto.
        + now apply add_throws.
      - intros knownBad packages badIndex n s Hp Hb.
        unfold build_badIndex in Hb. rewrite Hp in Hb. cbn [bind] in Hb. auto.
      - exact Hcompare.
      - exists [("pkg", 0)], [["1.5"]]. split; reflexivity.
      - intros adds m h knownBad packages found n s Hadds Hp Hcmp Honce.
        rewrite (Hcompare adds m h knownBad packages found n s Hadds Hp Hcmp).
        split; intros [Hv (e & items & b & He)]; (split; [assumption |]);
          exists e, items, b.
        + destruct He as (Hl & Hrest).
          apply (last_named_once n packages e Honce) in Hl. tauto.
        + destruct He as (Hin & Hn & Hrest). split; [| assumption].
          now apply (last_named_once n packages e Honce). }
  { intros adds m h knownBad packages found n s Hadds Hp Hcmp.
    apply compare_ok in Hcmp.
    destruct Hcmp as (packages' & badIndex & Hp' & Hloop & ->).
    rewrite Hp in Hp'. inversion Hp'; subst packages'.
    pose proof (add_all_coercible _ _ _ Hadds) as Hco.
    destruct (add_all_deref adds [] [] jsmap_wf_empty Hco)
      as (m' & h' & Hall & _ & Hin & _).
    pose proof (eq_trans (eq_sym Hall) Hadds) as Heq.
    inversion Heq; subst m' h'.
    rewrite In_filter_flagged.
    + rewrite Hin, (Hindex packages badIndex n s Hloop). split.
      * intros [[H | H] Hbad]; [now apply installs_empty in H | auto].
      * intros [H Hbad]. auto.
    + rewrite deref_keys.
      apply (add_all_keys_NoDup adds [] [] m h jsmap_wf_empty);
        [constructor | assumption]. }
Qed.

(** C6 at an inventory with two versions of [pkg], one added as a number. *)
Lemma version_match_is_string_equality_witness :
  jsmap_wf [] [] /\
  add_all [("pkg", JNum 15 (-1)); ("pkg", JStr "2.0")] ([], []) =
    Ok ([("pkg", 0)], [["1.5"; "2.0"]]) /\
  packages_of numeric_knownBad = Ok [entry "pkg" [JNum 15 (-1)]] /\
  build_badIndex numeric_knownBad = Ok [("pkg", ["1.5"])] /\
  compare [("pkg", ["1.5"; "2.0"])] numeric_knownBad =
    Ok [mkFinding "pkg" "1.5"] /\
  (In (mkFinding "pkg" "1.5") [mkFinding "pkg" "1.5"] <->
   (exists v, In ("pkg", v) [("pkg", JNum 15 (-1)); ("pkg", JStr "2.0")] /\
              JS.ToString v = Some "1.5") /\
   (exists e items b,
       last_named "pkg" [entry "pkg" [JNum 15 (-1)]] = Some e /\
       JS.get e "badVersions" = JArr items /\
       In b items /\ JS.ToString b = Some "1.5")).
Proof.
  split; [exact jsmap_wf_empty |].
  split; [reflexivity | split; [reflexivity | split; [reflexivity |]]].
  split; [reflexivity |].
  destruct version_match_is_string_equality as (_ & _ & Hcmp & _).
  exact (Hcmp [("pkg", JNum 15 (-1)); ("pkg", JStr "2.0")]
           [("pkg", 0)] [["1.5"; "2.0"]] numeric_knownBad
           [entry "pkg" [JNum 15 (-1)]] [mkFinding "pkg" "1.5"] "pkg" "1.5"
           eq_refl eq_refl eq_refl).
Defined.

(** [Map.set] overwrites: of two entries with one name the last decides. *)
Example compare_last_entry_decides :
  compare [("pkg-a", ["1.0.0"])] renamed_knownBad =
    Ok [mkFinding "pkg-a" "1.0.0"] /\
  compare [("pkg-a", ["1.0.0"])] cleared_knownBad = Ok [].
Proof. split; reflexivity. Qed.

(** C7 as it is worded fails: on an entry that supplies a name and no
    [badVersions], [compare] throws. *)
Lemma compare_throws_without_badVersions :
  packages_of unlisted_knownBad = Ok [JObj [("name", JStr "pkg-a")]] /\
  JS.get (JObj [("name", JStr "pkg-a")]) "name" = JStr "pkg-a" /\
  JS.get (JObj [("name", JStr "pkg-a")]) "badVersions" = JUndefined /\
  compare [("pkg-a", ["1.0.0"])] unlisted_knownBad = TypeError /\
  ~ (exists found,
        compare [("pkg-a", ["1.0.0"])] unlisted_knownBad = Ok found).
Proof.
  repeat split. intros [found H]. discriminate H.
Qed.

(** C7, amended.  [compare] returns exactly on the registries whose entries
    each have an array of [badVersions] that [String] converts (strings and
    numbers always are), and throws a [TypeError] on the others; a name
    whose deciding entry has an empty array yields no finding, whatever is
    installed. *)
Theorem compare_total_on_arrays :
  (forall installed knownBad packages,
      packages_of knownBad = Ok packages ->
      ((exists found, compare installed knownBad = Ok found) <->
       forallb entry_ok packages = true) /\
      (forallb entry_ok packages = false ->
       compare installed knownBad = TypeError)) /\
  (forall n items,
      forallb string_or_number items = true ->
      entry_ok (entry n items) = true) /\
  (forall installed knownBad packages found n e,
      packages_of knownBad = Ok packages ->
      compare installed knownBad = Ok found ->
      last_named n packages = Some e ->
      JS.get e "badVersions" = JArr [] ->
      forall f, In f found -> name f <> n).
Proof.
  split; [| split].
  - intros installed knownBad packages Hp.
    unfold compare, build_badIndex. rewrite Hp. cbn [bind]. split; [split |].
    + intros [found H]. apply (badIndex_loop_ok packages []).
      destruct (badIndex_loop [] packages) as [idx | |]; try discriminate. eauto.
    + intros H. apply (badIndex_loop_ok packages []) in H.
      destruct H as [idx ->]. cbn [bind]. eauto.
    + intros H. now rewrite (badIndex_loop_fails packages [] H).
  - intros n items H. unfold entry_ok, entry. cbn.
    now apply string_or_number_coercible.
  - intros installed knownBad packages found n e Hp Hcmp Hlast Hempty f Hf Hname.
    apply compare_ok in Hcmp.
    destruct Hcmp as (packages' & badIndex & Hp' & Hloop & ->).
    rewrite Hp in Hp'. inversion Hp'; subst packages'.
    apply filter_In in Hf. destruct Hf as [_ Hflag].
    destruct f as [fn fv]. cbn in Hname. subst fn.
    apply flagged_true in Hflag.
    apply (badIndex_loop_flags packages [] badIndex n fv Hloop) in Hflag.
    rewrite Hlast in Hflag. destruct Hflag as (items & b & Hbv & Hb & _).
    rewrite Hempty in Hbv. inversion Hbv; subst items. destruct Hb.
Qed.

(** C7 at a registry whose last entry for [pkg-a] lists no version. *)
Lemma compare_total_on_arrays_witness :
  packages_of cleared_knownBad =
    Ok [entry "pkg-a" [JStr "1.0.0"]; entry "pkg-a" []] /\
  forallb entry_ok [entry "pkg-a" [JStr "1.0.0"]; entry "pkg-a" []] = true /\
  forallb string_or_number [JStr "1.0.0"; JNum 15 (-1)] = true /\
  compare [("pkg-a", ["1.0.0"])] cleared_knownBad = Ok [] /\
  last_named "pkg-a" [entry "pkg-a" [JStr "1.0.0"]; entry "pkg-a" []] =
    Some (entry "pkg-a" []) /\
  (exists found, compare [("pkg-a", ["1.0.0"])] cleared_knownBad = Ok found) /\
  entry_ok (entry "pkg-a" [JStr "1.0.0"; JNum 15 (-1)]) = true /\
  (forall f, In f [] -> name f <> "pkg-a").
Proof.
  destruct compare_total_on_arrays as (Htotal & Hstrnum & Hempty).
  split; [reflexivity | split; [reflexivity | split; [reflexivity |]]].
  split; [reflexivity | split; [reflexivity |]].
  split; [| split].
  - exact (proj2 (proj1 (Htotal [("pkg-a", ["1.0.0"])] cleared_knownBad
                           [entry "pkg-a" [JStr "1.0.0"]; entry "pkg-a" []]
                           eq_refl)) eq_refl).
  - exact (Hstrnum "pkg-a" [JStr "1.0.0"; JNum 15 (-1)] eq_refl).
  - exact (Hempty [("pkg-a", ["1.0.0"])] cleared_knownBad
             [entry "pkg-a" [JStr "1.0.0"]; entry "pkg-a" []] []
             "pkg-a" (entry "pkg-a" []) eq_refl eq_refl eq_refl eq_refl).
Defined.

(** * The walk of [node_modules] *)

Section Loops.

Context {A S : Type}.

Lemma foldM_ext (f g : S -> A -> result S) l : forall s,
  (forall s x, In x l -> f s x = g s x) -> foldM f l s = foldM g l s.
Proof.
  induction l as [| x rest IH]; intros s H; [reflexivity |].
  cbn [foldM]. rewrite (H s x (or_introl eq_refl)).
  destruct (g s x) as [s' | |]; cbn [bind]; auto.
  apply IH. intros s0 y Hy. apply H. now right.
Qed.

Lemma foldM_fuel (f : S -> A -> result S) l : forall s,
  (forall s x, In x l -> f s x <> OutOfFuel) -> foldM f l s <> OutOfFuel.
Proof.
  induction l as [| x rest IH]; intros s H; [discriminate |].
  cbn [foldM]. pose proof (H s x (or_introl eq_refl)) as Hx.
  destruct (f s x) as [s' | |]; cbn [bind]; try congruence.
  apply IH. intros s0 y Hy. apply H. now right.
Qed.

Lemma foldM_inv (P : S -> Prop) (f : S -> A -> result S) l : forall s s',
  P s ->
  (forall s x s', In x l -> P s -> f s x = Ok s' -> P s') ->
  foldM f l s = Ok s' -> P s'.
Proof.
  induction l as [| x rest IH]; intros s s' Hs H Hfold.
  - inversion Hfold; now subst.
  - cbn [foldM] in Hfold. destruct (f s x) as [s1 | |] eqn:Hx; try discriminate.
    cbn [bind] in Hfold. apply (IH s1 s'); [| | assumption].
    + apply (H s x s1); auto. now left.
    + intros s0 y s0' Hy. apply H. now right.
Qed.

End Loops.

Section Walk.

Variable fs : filesystem.

Lemma String_fuel v : String_ v <> OutOfFuel.
Proof. unfold String_. destruct (JS.ToString v); discriminate. Qed.

Lemma processPkg_fuel pkgDir st : processPkg fs pkgDir st <> OutOfFuel.
Proof.
  unfold processPkg.
  repeat match goal with
         | |- context [if ?c then _ else _] => destruct c
         end; try discriminate.
  destruct (JS.get _ "name");
    match goal with
    | |- context [String_ ?v] =>
        pose proof (String_fuel v); destruct (String_ v); cbn; congruence
    | |- context [add ?m ?n ?v ?h] =>
        pose proof (add_fuel m h n v);
        destruct (add m n v h) as [[? ?] | |]; cbn; congruence
    end.
Qed.

Lemma processPkg_reads pkgDir st st' :
  processPkg fs pkgDir st = Ok st' -> reads st' = reads st.
Proof.
  unfold processPkg.
  repeat match goal with
         | |- context [if ?c then _ else _] => destruct c
         end; try (intros [= <-]; reflexivity).
  destruct (JS.get _ "name");
    try (destruct (String_ _); cbn; intros [= <-]; reflexivity).
  destruct (add _ _ _ _) as [[m h] | |]; cbn; try discriminate.
  intros [= <-]. reflexivity.
Qed.

(** A call deeper than six levels returns at once. *)
Lemma walk_too_deep fuel dir depth st :
  6 < depth -> walk fuel fs dir depth st = Ok st.
Proof.
  intros H. apply Nat.ltb_lt in H. destruct fuel; cbn [walk]; now rewrite H.
Qed.

Lemma walk_fuel fuel : forall dir depth st,
  7 - depth <= fuel -> walk fuel fs dir depth st <> OutOfFuel.
Proof.
  induction fuel as [| fuel IH]; intros dir depth st Hfuel.
  - rewrite walk_too_deep by lia. discriminate.
  - cbn [walk]. destruct (6 <? depth)%nat eqn:Hd; [discriminate |].
    apply Nat.ltb_ge in Hd.
    assert (Hnext : forall pkgDir st0,
               (st1 <- processPkg fs pkgDir st0 ;;
                if existsSync fs (path_join pkgDir "node_modules")
                then walk fuel fs (path_join pkgDir "node_modules")
                          (S depth) st1
                else Ok st1) <> OutOfFuel).
    { intros pkgDir st0. pose proof (processPkg_fuel pkgDir st0) as Hp.
      destruct (processPkg fs pkgDir st0) as [st1 | |]; cbn [bind];
        try congruence.
      destruct (existsSync fs _); [apply IH; lia | discriminate]. }
    destruct (readdirSync fs dir) as [entries |]; [| discriminate].
    apply foldM_fuel. intros s ent _.
    destruct (negb (isDirectory ent) || prefix "." (d_name ent));
      [discriminate |].
    destruct (prefix "@" (d_name ent)); [| apply Hnext].
    destruct (readdirSync fs _) as [scoped |]; [| discriminate].
    apply foldM_fuel. intros s0 sc _.
    destruct (negb (isDirectory sc)); [discriminate | apply Hnext].
Qed.

Lemma walk_fuel_stable fuel : forall dir depth st,
  7 - depth <= fuel ->
  walk fuel fs dir depth st = walk (7 - depth) fs dir depth st.
Proof.
  induction fuel as [| fuel IH]; intros dir depth st Hfuel.
  - now replace (7 - depth) with 0 by lia.
  - destruct (6 <? depth)%nat eqn:Hd.
    + apply Nat.ltb_lt in Hd. now rewrite !walk_too_deep by assumption.
    + pose proof (proj1 (Nat.ltb_ge _ _) Hd) as Hle.
      replace (7 - depth) with (S (7 - S depth)) by lia.
      cbn [walk]. rewrite Hd.
      assert (Hnext : forall pkgDir st0,
                 (st1 <- processPkg fs pkgDir st0 ;;
                  if existsSync fs (path_join pkgDir "node_modules")
                  then walk fuel fs (path_join pkgDir "node_modules")
                            (S depth) st1
                  else Ok st1) =
                 (st1 <- processPkg fs pkgDir st0 ;;
                  if existsSync fs (path_join pkgDir "node_modules")
                  then walk (7 - S depth) fs
                            (path_join pkgDir "node_modules") (S depth) st1
                  else Ok st1)).
      { intros pkgDir st0.
        destruct (processPkg fs pkgDir st0) as [st1 | |]; cbn [bind];
          try reflexivity.
        destruct (existsSync fs _); [apply IH; lia | reflexivity]. }
      destruct (readdirSync fs dir) as [entries |]; [| reflexivity].
      apply foldM_ext. intros s ent _.
      destruct (negb (isDirectory ent) || prefix "." (d_name ent));
        [reflexivity |].
      destruct (prefix "@" (d_name ent)); [| apply Hnext].
      destruct (readdirSync fs _) as [scoped |]; [| reflexivity].
      apply foldM_ext. intros s0 sc _.
      destruct (negb (isDirectory sc)); [reflexivity | apply Hnext].
Qed.

Lemma reads_within_log depth st0 st dir :
  depth <= 6 -> reads_within depth st0 st ->
  reads_within depth st0 (log_read dir depth st).
Proof.
  intros Hd H e [<- | He]; [right; cbn; lia | now apply H].
Qed.

Lemma walk_reads fuel : forall dir depth st st',
  walk fuel fs dir depth st = Ok st' -> reads_within depth st st'.
Proof.
  induction fuel as [| fuel IH]; intros dir depth st st' Hw.
  - cbn [walk] in Hw. destruct (6 <? depth)%nat; [| discriminate].
    inversion Hw; subst. intros e He. now left.
  - cbn [walk] in Hw. destruct (6 <? depth)%nat eqn:Hd.
    { inversion Hw; subst. intros e He. now left. }
    apply Nat.ltb_ge in Hd.
    assert (Hlog : reads_within depth st (log_read dir depth st)).
    { apply reads_within_log; [assumption |]. intros e He. now left. }
    assert (Hnext : forall pkgDir s s',
               reads_within depth st s ->
               (st1 <- processPkg fs pkgDir s ;;
                if existsSync fs (path_join pkgDir "node_modules")
                then walk fuel fs (path_join pkgDir "node_modules")
                          (S depth) st1
                else Ok st1) = Ok s' ->
               reads_within depth st s').
    { intros pkgDir s s' Hs Hb.
      destruct (processPkg fs pkgDir s) as [st1 | |] eqn:Hp;
        try discriminate.
      cbn [bind] in Hb. apply processPkg_reads in Hp.
      assert (Hs1 : reads_within depth st st1).
      { intros e He. rewrite Hp in He. now apply Hs. }
      destruct (existsSync fs _); [| inversion Hb; now subst].
      apply IH in Hb. intros e He. apply Hb in He.
      destruct He as [He | He]; [now apply Hs1 | right; lia]. }
    destruct (readdirSync fs dir) as [entries |];
      [| inversion Hw; now subst].
    revert Hw. apply foldM_inv; [assumption |].
    intros s ent s' _ Hs.
    destruct (negb (isDirectory ent) || prefix "." (d_name ent));
      [intros [= <-]; assumption |].
    destruct (prefix "@" (d_name ent)); [| apply Hnext; assumption].
    assert (Hlog' : reads_within depth st
                      (log_read (path_join dir (d_name ent)) depth s))
      by now apply reads_within_log.
    destruct (readdirSync fs _) as [scoped |];
      [| intros [= <-]; assumption].
    apply foldM_inv; [assumption |].
    intros s0 sc s0' _ Hs0.
    destruct (negb (isDirectory sc));
      [intros [= <-]; assumption | apply Hnext; assumption].
Qed.

End Walk.

(** C8.  [walk] returns on every file system, a cyclic or bottomless one
    too: a call deeper than six levels returns without reading anything, a
    recursive call is one level deeper than its caller, so a budget of seven
    nested calls is never used up, and every directory is read at a depth of
    at most six. *)
Theorem walk_terminates (fs : filesystem) :
  (forall fuel dir depth st,
      6 < depth -> walk fuel fs dir depth st = Ok st) /\
  (forall fuel dir depth st,
      7 - depth <= fuel ->
      walk fuel fs dir depth st <> OutOfFuel /\
      walk fuel fs dir depth st = walk (7 - depth) fs dir depth st) /\
  (forall fuel dir depth st st',
      walk fuel fs dir depth st = Ok st' ->
      forall d k, In (d, k) (reads st') ->
                  In (d, k) (reads st) \/ depth <= k <= 6) /\
  (forall root h,
      collectFromNodeModules fs root h <> OutOfFuel /\
      forall st, collectFromNodeModules fs root h = Ok st ->
                 forall d k, In (d, k) (reads st) -> k <= 6).
Proof.
  split; [| split; [| split]].
  - intros fuel dir depth st. apply walk_too_deep.
  - intros fuel dir depth st H. split;
      [now apply walk_fuel | now apply walk_fuel_stable].
  - intros fuel dir depth st st' Hw d k Hin.
    apply (walk_reads fs fuel dir depth st st' Hw (d, k) Hin).
  - intros root h. unfold collectFromNodeModules.
    destruct (negb (existsSync fs _)).
    + split; [discriminate |]. intros st [= <-] d k [].
    + split; [apply walk_fuel; lia |].
      intros st Hw d k Hin.
      destruct (walk_reads fs _ _ _ _ _ Hw (d, k) Hin) as [[] | H].
      cbn in H. lia.
Qed.

(** C8 at the cyclic file system: seven directories are read, one at each
    depth from 0 to 6. *)
Lemma walk_terminates_witness :
  (6 < 7 /\ 7 - 0 <= 9) /\
  walk 3 cyclic_fs "/proj/node_modules" 7 (mkScan [] [] []) =
    Ok (mkScan [] [] []) /\
  walk 9 cyclic_fs "/proj/node_modules" 0 (mkScan [] [] []) <> OutOfFuel /\
  walk 9 cyclic_fs "/proj/node_modules" 0 (mkScan [] [] []) =
    walk 7 cyclic_fs "/proj/node_modules" 0 (mkScan [] [] []) /\
  (exists st,
      collectFromNodeModules cyclic_fs "/proj" [] = Ok st /\
      map snd (reads st) = [6; 5; 4; 3; 2; 1; 0] /\
      forall d k, In (d, k) (reads st) -> k <= 6).
Proof.
  destruct (walk_terminates cyclic_fs) as (Hdeep & Hfuel & _ & Hcollect).
  split; [lia |].
  split; [apply (Hdeep 3 "/proj/node_modules" 7 (mkScan [] [] [])); lia |].
  assert (H9 : 7 - 0 <= 9) by lia.
  split; [exact (proj1 (Hfuel 9 "/proj/node_modules" 0 (mkScan [] [] []) H9)) |].
  split; [exact (proj2 (Hfuel 9 "/proj/node_modules" 0 (mkScan [] [] []) H9)) |].
  destruct (collectFromNodeModules cyclic_fs "/proj" []) as [st | |] eqn:E;
    try (vm_compute in E; discriminate).
  exists st. split; [reflexivity |]. split.
  - vm_compute in E. inversion E. reflexivity.
  - exact (proj2 (Hcollect "/proj" []) st E).
Defined.

(** C9.  The top-level loop of [walk] skips the hidden directory and the
    plain file, but the loop over a scope does not test the name: the hidden
    directory inside [@scope] is read as a package and its manifest is put
    into the inventory. *)
Theorem scoped_hidden_directory_is_scanned :
  exists st,
    collectFromNodeModules hidden_fs "/proj" [] = Ok st /\
    deref (store st) (hits st) =
      [("left-pad", ["1.3.0"]); ("@scope/.hidden", ["6.6.6"])] /\
    MapObj.has (hits st) "staged" = false /\
    prefix "." ".hidden" = true /\
    installs (deref (store st) (hits st)) "@scope/.hidden" "6.6.6".
Proof.
  eexists. split; [reflexivity |]. split; [reflexivity |].
  split; [reflexivity |]. split; [reflexivity |].
  eexists. split; [reflexivity | now left].
Qed.

(** * The loader and the lockfile *)

Section Loader.

Variables (fs : filesystem) (p : process).

Lemma loadKnownBad_source :
  loadKnownBad fs p =
  match known_bad_source fs p with
  | None => Exit 2%Z
  | Some path =>
      let data := readJSONSafe fs path in
      if negb (JS.truthy data) || negb (JS.isArray (JS.get data "packages"))
      then Exit 2%Z
      else Continue data
  end.
Proof.
  unfold loadKnownBad, known_bad_source.
  destruct (existsSync fs (path_join (projectRoot p) "compromised.json"));
    cbn [negb]; [reflexivity |].
  now destruct (existsSync fs (path_join (dirname p) "compromised.json")).
Qed.

(** The test of [loadKnownBad] rejects the data exactly when it has no
    [packages] field or the field is not an array. *)
Lemma shape_test data :
  negb (JS.truthy data) || negb (JS.isArray (JS.get data "packages")) =
  match packages_field data with
  | Some v => negb (JS.isArray v)
  | None => true
  end.
Proof.
  destruct data as [| | b | m e | s | items | props]; cbn;
    try reflexivity; try (now rewrite orb_true_r).
  now destruct (JS.lookup "packages" props).
Qed.

Lemma loadKnownBad_parsed :
  loadKnownBad fs p =
  match known_bad_parsed fs p with
  | None => Exit 2%Z
  | Some data =>
      match packages_field data with
      | Some v => if JS.isArray v then Continue data else Exit 2%Z
      | None => Exit 2%Z
      end
  end.
Proof.
  rewrite loadKnownBad_source. unfold known_bad_parsed, readJSONSafe.
  destruct (known_bad_source fs p) as [path |]; [| reflexivity].
  destruct (readJSON fs path) as [data |]; [| reflexivity].
  cbv zeta. rewrite shape_test.
  destruct (packages_field data) as [v |]; [| reflexivity].
  now destruct (JS.isArray v).
Qed.

End Loader.

(** C2.  [loadKnownBad] ends the process with code 2, before anything is
    collected, exactly when the data source cannot be parsed or its
    [packages] field is absent or not an array; the empty object is rejected
    and an object whose [packages] is an array is accepted. *)
Theorem loadKnownBad_fatal (fs : filesystem) (p : process) :
  (loadKnownBad fs p = Exit 2%Z <->
   known_bad_parsed fs p = None \/
   exists data,
     known_bad_parsed fs p = Some data /\
     (packages_field data = None \/
      exists v, packages_field data = Some v /\ JS.isArray v = false)) /\
  (forall code, loadKnownBad fs p = Exit code -> code = 2%Z) /\
  (loadKnownBad fs p = Exit 2%Z -> SHOW_HELP p = false ->
   main fs p = Ok (2%Z, None)) /\
  (known_bad_parsed fs p = Some (JObj []) -> loadKnownBad fs p = Exit 2%Z) /\
  (forall props items,
      known_bad_parsed fs p = Some (JObj props) ->
      JS.lookup "packages" props = Some (JArr items) ->
      loadKnownBad fs p = Continue (JObj props)).
Proof.
  rewrite loadKnownBad_parsed.
  split; [| split; [| split; [| split]]].
  - destruct (known_bad_parsed fs p) as [data |]; [| split; auto].
    destruct (packages_field data) as [v |] eqn:Hf.
    + destruct (JS.isArray v) eqn:Ha; split.
      * discriminate.
      * intros [H | (d & [= <-] & [H | (v' & H & H')])]; try discriminate;
          congruence.
      * intros _. right. exists data. split; [reflexivity |]. right. eauto.
      * reflexivity.
    + split; [| reflexivity]. intros _. right. exists data. auto.
  - intros code. destruct (known_bad_parsed fs p) as [data |];
      [| intros [= <-]; reflexivity].
    destruct (packages_field data) as [v |]; [| intros [= <-]; reflexivity].
    destruct (JS.isArray v); [discriminate | intros [= <-]; reflexivity].
  - intros Hexit Hhelp. unfold main. rewrite Hhelp.
    rewrite loadKnownBad_parsed, Hexit. reflexivity.
  - intros ->. reflexivity.
  - intros props items -> Hl. cbn. now rewrite Hl.
Qed.

(** C2 at a project whose [compromised.json] is the empty object, and at
    one whose file is the registry of the scenario. *)
Lemma loadKnownBad_fatal_witness :
  known_bad_parsed empty_object_fs proc = Some (JObj []) /\
  SHOW_HELP proc = false /\
  known_bad_parsed scenario_fs proc = Some scenario_knownBad /\
  loadKnownBad empty_object_fs proc = Exit 2%Z /\
  main empty_object_fs proc = Ok (2%Z, None) /\
  loadKnownBad scenario_fs proc = Continue scenario_knownBad.
Proof.
  destruct (loadKnownBad_fatal empty_object_fs proc)
    as (_ & _ & Hmain & Hempty & _).
  destruct (loadKnownBad_fatal scenario_fs proc) as (_ & _ & _ & _ & Harray).
  split; [reflexivity | split; [reflexivity | split; [reflexivity |]]].
  split; [exact (Hempty eq_refl) |].
  split; [exact (Hmain (Hempty eq_refl) eq_refl) |].
  exact (Harray _ _ eq_refl eq_refl).
Defined.

Section Lockfile.

Lemma substring_all s : substring 0 (String.length s) s = s.
Proof. induction s as [| c s IH]; cbn; [reflexivity | now rewrite IH]. Qed.

Lemma strip_prefixed key :
  strip_node_modules ("node_modules/" +:+ key) = key.
Proof.
  unfold strip_node_modules. cbn [String.append prefix].
  repeat (match goal with
          | |- context [Ascii.ascii_dec ?a ?b] =>
              destruct (Ascii.ascii_dec a b); [| congruence]
          end).
  replace (prefix "" key) with true by now destruct key.
  cbn [String.length Nat.sub substring]. rewrite Nat.sub_0_r.
  apply substring_all.
Qed.

Lemma strip_other key :
  prefix "node_modules/" key = false -> strip_node_modules key = key.
Proof. intros H. unfold strip_node_modules. now rewrite H. Qed.

(** The loop over the flat map is a run of [add] over the records that
    carry a version. *)
Lemma collect_packages_adds packages st :
  collect_packages packages st = add_all (lock_adds packages) st.
Proof.
  unfold collect_packages, add_all, lock_adds. revert st.
  induction (JS.entries packages) as [| [key meta] rest IH]; intros st;
    [reflexivity |].
  cbn [foldM filter]. unfold carries_version at 1. cbn [fst snd].
  destruct (JS.truthy meta); cbn [negb orb andb].
  - destruct (JS.truthy (JS.get meta "version")); cbn [negb map foldM fst snd bind].
    + destruct (add _ _ _ _); cbn [bind]; auto.
    + apply IH.
  - apply IH.
Qed.

Lemma In_lock_adds packages n v :
  In (n, v) (lock_adds packages) <->
  exists key meta,
    In (key, meta) (JS.entries packages) /\
    JS.truthy meta = true /\ JS.truthy (JS.get meta "version") = true /\
    n = strip_node_modules key /\ v = JS.get meta "version".
Proof.
  unfold lock_adds. rewrite in_map_iff. split.
  - intros [[key meta] [Heq Hin]]. apply filter_In in Hin.
    destruct Hin as [Hin Hc]. unfold carries_version in Hc.
    apply andb_prop in Hc. cbn in *. inversion Heq; subst.
    exists key, meta. tauto.
  - intros (key & meta & Hin & Hm & Hv & -> & ->).
    exists (key, meta). split; [reflexivity |]. apply filter_In.
    split; [assumption |]. unfold carries_version. cbn. now rewrite Hm, Hv.
Qed.

End Lockfile.

(** C10.  In the flat map of the lockfile a record that carries a version
    is inventoried under its key without one leading [node_modules/], and
    under the key itself when the key has no such prefix: the record of the
    project root under the empty name, a nested install under the path that
    is left, not under the name of its last segment. *)
Theorem lock_packages_names :
  (forall key, strip_node_modules ("node_modules/" +:+ key) = key) /\
  (forall key,
      prefix "node_modules/" key = false -> strip_node_modules key = key) /\
  (forall packages m h,
      jsmap_wf m h ->
      forallb (fun e => coercible (snd e)) (lock_adds packages) = true ->
      exists m' h',
        collect_packages packages (m, h) = Ok (m', h') /\
        (forall n s,
            installs (deref h' m') n s <->
            installs (deref h m) n s \/
            exists key meta,
              In (key, meta) (JS.entries packages) /\
              JS.truthy meta = true /\
              JS.truthy (JS.get meta "version") = true /\
              n = strip_node_modules key /\
              JS.ToString (JS.get meta "version") = Some s) /\
        (forall n,
            In n (MapObj.keys m') <->
            In n (MapObj.keys m) \/
            exists key meta,
              In (key, meta) (JS.entries packages) /\
              JS.truthy meta = true /\
              JS.truthy (JS.get meta "version") = true /\
              n = strip_node_modules key)) /\
  (exists m h,
      collectFromPackageLock nested_lock_fs "/proj" [] = Ok (m, h) /\
      deref h m =
        [("", ["1.0.0"]); ("a", ["1.1.0"]); ("a/node_modules/b", ["2.0.0"])] /\
      MapObj.has m "b" = false).
Proof.
  split; [exact strip_prefixed | split; [exact strip_other | split]].
  - intros packages m h Hwf Hco.
    destruct (add_all_deref (lock_adds packages) m h Hwf Hco)
      as (m' & h' & Hall & _ & Hin & Hkeys).
    exists m', h'. rewrite collect_packages_adds.
    split; [assumption | split].
    + intros n s. rewrite Hin. split; (intros [H | H]; [now left | right]).
      * destruct H as (v & Hv & Hs). apply In_lock_adds in Hv.
        destruct Hv as (key & meta & H1 & H2 & H3 & H4 & ->).
        exists key, meta. auto.
      * destruct H as (key & meta & H1 & H2 & H3 & H4 & H5).
        exists (JS.get meta "version"). split; [| assumption].
        apply In_lock_adds. exists key, meta. auto.
    + intros n. rewrite Hkeys. split; (intros [H | H]; [now left | right]).
      * apply in_map_iff in H. destruct H as [[n' v] [<- Hv]].
        apply In_lock_adds in Hv.
        destruct Hv as (key & meta & H1 & H2 & H3 & H4 & _).
        exists key, meta. auto.
      * destruct H as (key & meta & H1 & H2 & H3 & ->).
        apply in_map_iff. exists (strip_node_modules key, JS.get meta "version").
        split; [reflexivity |]. apply In_lock_adds. exists key, meta. auto.
  - eexists _, _. split; [reflexivity |]. split; reflexivity.
Qed.

(** C10 at a lockfile with the record of the root and a nested install. *)
Lemma lock_packages_names_witness :
  prefix "node_modules/" "" = false /\
  jsmap_wf [] [] /\
  forallb (fun e => coercible (snd e))
          (lock_adds (JS.get nested_lock "packages")) = true /\
  strip_node_modules "" = "" /\
  strip_node_modules "node_modules/a/node_modules/b" = "a/node_modules/b" /\
  exists m' h',
    collect_packages (JS.get nested_lock "packages") ([], []) = Ok (m', h') /\
    (forall n s,
        installs (deref h' m') n s <->
        installs (deref [] []) n s \/
        exists key meta,
          In (key, meta) (JS.entries (JS.get nested_lock "packages")) /\
          JS.truthy meta = true /\
          JS.truthy (JS.get meta "version") = true /\
          n = strip_node_modules key /\
          JS.ToString (JS.get meta "version") = Some s) /\
    (forall n,
        In n (MapObj.keys m') <->
        In n (MapObj.keys (@nil (string * nat))) \/
        exists key meta,
          In (key, meta) (JS.entries (JS.get nested_lock "packages")) /\
          JS.truthy meta = true /\
          JS.truthy (JS.get meta "version") = true /\
          n = strip_node_modules key).
Proof.
  destruct lock_packages_names as (Hstrip & Hother & Hcollect & _).
  split; [reflexivity | split; [exact jsmap_wf_empty |]].
  split; [reflexivity |].
  split; [exact (Hother "" eq_refl) |].
  split; [exact (Hstrip "a/node_modules/b") |].
  exact (Hcollect (JS.get nested_lock "packages") [] [] jsmap_wf_empty eq_refl).
Defined.

(** * Recursion budgets *)

Section Budgets.

Lemma jsdepth_item items x :
  In x items -> jsdepth x < jsdepth (JArr items).
Proof.
  intros H. cbn [jsdepth]. apply Nat.lt_succ_r.
  assert (Hle : list_max (map jsdepth items) <= list_max (map jsdepth items))
    by lia.
  apply list_max_le in Hle. rewrite Forall_forall in Hle.
  apply Hle. now apply in_map.
Qed.

Lemma jsdepth_prop props k x :
  In (k, x) props -> jsdepth x < jsdepth (JObj props).
Proof.
  intros H. cbn [jsdepth]. apply Nat.lt_succ_r.
  assert (Hle : list_max (map (fun p => jsdepth (snd p)) props) <=
                list_max (map (fun p => jsdepth (snd p)) props)) by lia.
  apply list_max_le in Hle. rewrite Forall_forall in Hle.
  apply Hle. change (jsdepth x) with ((fun p => jsdepth (snd p)) (k, x)).
  now apply in_map.
Qed.

Lemma jsdepth_entries obj k x :
  In (k, x) (JS.entries obj) -> jsdepth x < jsdepth obj.
Proof.
  destruct obj as [| | b | m e | s | items | props]; cbn [JS.entries];
    try (intros []).
  - intros H. apply in_combine_r in H. now apply jsdepth_item.
  - apply jsdepth_prop.
Qed.

Lemma lookup_In k props x : JS.lookup k props = Some x -> In (k, x) props.
Proof.
  induction props as [| [k' v] rest IH]; cbn; [discriminate |].
  destruct (String.eqb k' k) eqn:E.
  - apply String.eqb_eq in E. intros [= ->]. left. now subst.
  - intros H. right. now apply IH.
Qed.

Lemma jsdepth_get v k : jsdepth (JS.get v k) <= jsdepth v.
Proof.
  destruct v as [| | b | m e | s | items | props]; cbn [JS.get]; try (cbn; lia).
  destruct (JS.lookup k props) as [x |] eqn:E; [| cbn; lia].
  apply lookup_In in E. apply jsdepth_prop in E. lia.
Qed.

Lemma shallow_is_leaf obj :
  jsdepth obj = 0 ->
  negb (JS.truthy obj) || negb (JS.typeof_object obj) = true.
Proof.
  destruct obj; cbn; try discriminate; intros _; try reflexivity;
    apply orb_true_r.
Qed.

Lemma walkDeps_fuel fuel : forall obj st,
  jsdepth obj <= fuel -> walkDeps fuel obj st <> OutOfFuel.
Proof.
  induction fuel as [| fuel IH]; intros obj st Hd.
  - cbn [walkDeps]. rewrite shallow_is_leaf by lia. discriminate.
  - cbn [walkDeps].
    destruct (negb (JS.truthy obj) || negb (JS.typeof_object obj));
      [discriminate |].
    apply foldM_fuel. intros s [n meta] Hin.
    apply jsdepth_entries in Hin.
    destruct (negb (JS.truthy meta)); [discriminate |].
    assert (Hadd : (if JS.truthy (JS.get meta "version")
                    then add (fst s) n (JS.get meta "version") (snd s)
                    else Ok s) <> OutOfFuel).
    { destruct (JS.truthy (JS.get meta "version"));
        [apply add_fuel | discriminate]. }
    destruct (if JS.truthy (JS.get meta "version") then _ else _)
      as [st1 | |]; cbn [bind]; try congruence.
    destruct (JS.truthy (JS.get meta "dependencies")); [| discriminate].
    apply IH. pose proof (jsdepth_get meta "dependencies"). lia.
Qed.

Lemma collect_packages_fuel packages st :
  collect_packages packages st <> OutOfFuel.
Proof.
  unfold collect_packages. apply foldM_fuel. intros s [key meta] _.
  destruct (negb (JS.truthy meta) || negb (JS.truthy (JS.get meta "version")));
    [discriminate | apply add_fuel].
Qed.

Variable fs : filesystem.

Lemma collectFromPackageLock_fuel root h :
  collectFromPackageLock fs root h <> OutOfFuel.
Proof.
  unfold collectFromPackageLock.
  destruct (negb (existsSync fs _)); [discriminate |].
  destruct (negb (JS.truthy _)); [discriminate |].
  set (lock := readJSONSafe fs (path_join root "package-lock.json")).
  assert (Hflat : (if JS.truthy (JS.get lock "packages")
                      && JS.typeof_object (JS.get lock "packages")
                   then collect_packages (JS.get lock "packages") ([], h)
                   else Ok ([], h)) <> OutOfFuel).
  { destruct (_ && _); [apply collect_packages_fuel | discriminate]. }
  destruct (if _ && _ then _ else _) as [st1 | |]; cbn [bind]; try congruence.
  destruct (JS.truthy (JS.get lock "dependencies")); [| discriminate].
  apply walkDeps_fuel. lia.
Qed.

Lemma collectFromNodeModules_fuel root h :
  collectFromNodeModules fs root h <> OutOfFuel.
Proof.
  unfold collectFromNodeModules.
  destruct (negb (existsSync fs _)); [discriminate | apply walk_fuel; lia].
Qed.

Lemma print_list_fuel knownBad : print_list knownBad <> OutOfFuel.
Proof.
  unfold print_list.
  destruct (packages_of knownBad) as [packages | |] eqn:Hp; cbn [bind];
    [| discriminate |].
  - apply foldM_fuel. intros s x _. destruct (JS.nullish x); [discriminate |].
    destruct (JS.get x "badVersions"); try discriminate.
    pose proof (String_fuel (JArr items)).
    destruct (String_ (JArr items)); cbn [bind]; try congruence.
    pose proof (String_fuel (JS.get x "name")).
    destruct (String_ (JS.get x "name")); cbn [bind]; congruence.
  - unfold packages_of in Hp. destruct (JS.nullish knownBad); [discriminate |].
    destruct (JS.get knownBad "packages"); discriminate.
Qed.

(** The budgets of [main] suffice: it ends with an exit code or with an
    uncaught [TypeError]. *)
Lemma main_fuel p : main fs p <> OutOfFuel.
Proof.
  unfold main. destruct (SHOW_HELP p); [discriminate |].
  destruct (loadKnownBad fs p) as [code | knownBad]; [discriminate |].
  destruct (SHOW_LIST p).
  - destruct (OUTPUT_JSON p); [discriminate |].
    pose proof (print_list_fuel knownBad).
    destruct (print_list knownBad); cbn; congruence.
  - pose proof (collectFromNodeModules_fuel (projectRoot p) []) as Hnm.
    destruct (collectFromNodeModules fs (projectRoot p) []) as [nm | |];
      cbn [bind]; try congruence.
    pose proof (collectFromPackageLock_fuel (projectRoot p) (store nm)) as Hl.
    destruct (collectFromPackageLock fs (projectRoot p) (store nm))
      as [[lock h] | |]; cbn [bind]; try congruence.
    destruct (merge lock (hits nm) h) as [merged h'].
    pose proof (compare_fuel (deref h' merged) knownBad) as Hc.
    destruct (compare (deref h' merged) knownBad); cbn [bind];
      congruence.
Qed.

End Budgets.

(** * The inventories that [main] merges *)

Section Collectors.

Lemma collecting_start h0 : collecting h0 [] h0.
Proof.
  split; [exact (conj (NoDup_nil _) (fun l (H : In l []) => match H with end)) |].
  split; [constructor |]. split; [intros l [] |]. split; [lia | reflexivity].
Qed.

Lemma add_locs m h n v m' h' :
  add m n v h = Ok (m', h') ->
  forall l, In l (map snd m') -> In l (map snd m) \/ l = List.length h.
Proof.
  unfold add. destruct (MapObj.has m n) eqn:Hhas; cbn [negb heap_alloc].
  - destruct (MapObj.get m n); [| discriminate].
    destruct (String_ v); cbn [bind]; try discriminate.
    intros [= <- <-] l Hl. now left.
  - rewrite MapObj_get_set, String.eqb_refl.
    destruct (String_ v); cbn [bind]; try discriminate.
    intros [= <- <-] l Hl. apply MapObj_has_get in Hhas.
    rewrite (MapObj_set_new m n _ Hhas), map_app, in_app_iff in Hl.
    destruct Hl as [Hl | [<- | []]]; auto.
Qed.

Lemma add_collecting h0 m h n v m' h' :
  collecting h0 m h -> add m n v h = Ok (m', h') -> collecting h0 m' h'.
Proof.
  intros (Hwf & Hk & Hlow & Hlen & Hfr) Hadd.
  destruct (JS.ToString v) as [s |] eqn:Hs;
    [| rewrite (add_throws _ _ _ _ Hs) in Hadd; discriminate].
  destruct (add_deref m h n v s Hwf Hs) as (m1 & h1 & Hadd1 & Hwf1 & Hlen1 & Hd & Hfr1).
  pose proof (eq_trans (eq_sym Hadd1) Hadd) as Heq.
  inversion Heq; subst m1 h1. clear Heq.
  split; [assumption |]. split; [| split; [| split]].
  - rewrite <- (deref_keys h' m'), Hd. apply inv_add_keys_NoDup.
    now rewrite deref_keys.
  - intros l Hl. destruct (add_locs _ _ _ _ _ _ Hadd l Hl) as [H | ->];
      [now apply Hlow | assumption].
  - store_lia.
  - intros l Hl. rewrite <- (Hfr l Hl). apply Hfr1; [store_lia |].
    intros Hin. apply Hlow in Hin. store_lia.
Qed.

Lemma collect_packages_collecting h0 packages m h m' h' :
  collecting h0 m h -> collect_packages packages (m, h) = Ok (m', h') ->
  collecting h0 m' h'.
Proof.
  intros Hc. unfold collect_packages.
  apply (foldM_inv (fun st => collecting h0 (fst st) (snd st)) _ _
           (m, h) (m', h')); [exact Hc |].
  intros [m0 h1] [key meta] [m2 h2] _ H0. cbn [fst snd].
  destruct (negb (JS.truthy meta) || negb (JS.truthy (JS.get meta "version"))).
  - intros [= <- <-]. exact H0.
  - now apply add_collecting.
Qed.

Lemma walkDeps_collecting h0 fuel : forall obj m h m' h',
  collecting h0 m h -> walkDeps fuel obj (m, h) = Ok (m', h') ->
  collecting h0 m' h'.
Proof.
  induction fuel as [| fuel IH]; intros obj m h m' h' Hc Hrun;
    cbn [walkDeps] in Hrun;
    destruct (negb (JS.truthy obj) || negb (JS.typeof_object obj));
    try discriminate; try (inversion Hrun; subst; exact Hc).
  revert Hrun.
  apply (foldM_inv (fun st => collecting h0 (fst st) (snd st)) _ _
           (m, h) (m', h')); [exact Hc |].
  intros [m0 h1] [n meta] [m2 h2] _ H0. cbn [fst snd].
  destruct (negb (JS.truthy meta)); [intros [= <- <-]; exact H0 |].
  destruct (JS.truthy (JS.get meta "version")).
  - destruct (add m0 n (JS.get meta "version") h1) as [[m1 h1'] | |] eqn:Hadd;
      cbn [bind]; try discriminate.
    pose proof (add_collecting _ _ _ _ _ _ _ H0 Hadd) as H1.
    destruct (JS.truthy (JS.get meta "dependencies"));
      [apply IH; exact H1 | intros [= <- <-]; exact H1].
  - cbn [bind]. destruct (JS.truthy (JS.get meta "dependencies"));
      [apply IH; exact H0 | intros [= <- <-]; exact H0].
Qed.

Variable fs : filesystem.

Lemma collectFromPackageLock_collecting root h0 m h :
  collectFromPackageLock fs root h0 = Ok (m, h) -> collecting h0 m h.
Proof.
  unfold collectFromPackageLock.
  destruct (negb (existsSync fs _));
    [intros [= <- <-]; apply collecting_start |].
  destruct (negb (JS.truthy _));
    [intros [= <- <-]; apply collecting_start |].
  set (lock := readJSONSafe fs (path_join root "package-lock.json")).
  destruct (JS.truthy (JS.get lock "packages")
            && JS.typeof_object (JS.get lock "packages")).
  - destruct (collect_packages _ _) as [[m1 h1] | |] eqn:Hflat; cbn [bind];
      try discriminate.
    pose proof (collect_packages_collecting h0 _ _ _ _ _
                  (collecting_start h0) Hflat) as H1.
    destruct (JS.truthy (JS.get lock "dependencies"));
      [apply walkDeps_collecting; exact H1 | intros [= <- <-]; exact H1].
  - cbn [bind]. destruct (JS.truthy (JS.get lock "dependencies"));
      [apply walkDeps_collecting | intros [= <- <-]]; apply collecting_start.
Qed.

Lemma processPkg_collecting h0 pkgDir st st' :
  collecting h0 (hits st) (store st) -> processPkg fs pkgDir st = Ok st' ->
  collecting h0 (hits st') (store st').
Proof.
  intros Hc. unfold processPkg.
  repeat match goal with
         | |- context [if ?c then _ else _] => destruct c
         end; try (intros [= <-]; exact Hc).
  destruct (JS.get _ "name");
    try (destruct (String_ _); cbn [bind]; try discriminate;
         intros [= <-]; exact Hc).
  destruct (add _ _ _ _) as [[m h] | |] eqn:Hadd; cbn [bind]; try discriminate.
  intros [= <-]. cbn [hits store]. exact (add_collecting _ _ _ _ _ _ _ Hc Hadd).
Qed.

Lemma walk_collecting h0 fuel : forall dir depth st st',
  collecting h0 (hits st) (store st) -> walk fuel fs dir depth st = Ok st' ->
  collecting h0 (hits st') (store st').
Proof.
  induction fuel as [| fuel IH]; intros dir depth st st' Hc Hw;
    cbn [walk] in Hw; destruct (6 <? depth)%nat;
    try discriminate; try (inversion Hw; subst; exact Hc).
  assert (Hnext : forall pkgDir s s',
             collecting h0 (hits s) (store s) ->
             (st1 <- processPkg fs pkgDir s ;;
              if existsSync fs (path_join pkgDir "node_modules")
              then walk fuel fs (path_join pkgDir "node_modules") (S depth) st1
              else Ok st1) = Ok s' ->
             collecting h0 (hits s') (store s')).
  { intros pkgDir s s' Hs Hb.
    destruct (processPkg fs pkgDir s) as [st1 | |] eqn:Hp; try discriminate.
    cbn [bind] in Hb. apply (processPkg_collecting h0) in Hp; [| exact Hs].
    destruct (existsSync fs _); [| inversion Hb; subst; exact Hp].
    exact (IH _ _ _ _ Hp Hb). }
  destruct (readdirSync fs dir) as [entries |];
    [| inversion Hw; subst; exact Hc].
  revert Hw.
  apply (foldM_inv (fun s => collecting h0 (hits s) (store s))); [exact Hc |].
  intros s ent s' _ Hs.
  destruct (negb (isDirectory ent) || prefix "." (d_name ent));
    [intros [= <-]; exact Hs |].
  destruct (prefix "@" (d_name ent)); [| apply Hnext; exact Hs].
  destruct (readdirSync fs _) as [scoped |]; [| intros [= <-]; exact Hs].
  apply (foldM_inv (fun s => collecting h0 (hits s) (store s))); [exact Hs |].
  intros s0 sc s0' _ Hs0.
  destruct (negb (isDirectory sc));
    [intros [= <-]; exact Hs0 | apply Hnext; exact Hs0].
Qed.

Lemma collectFromNodeModules_collecting root h0 st :
  collectFromNodeModules fs root h0 = Ok st ->
  collecting h0 (hits st) (store st).
Proof.
  unfold collectFromNodeModules.
  destruct (negb (existsSync fs _));
    [intros [= <-] | apply walk_collecting]; apply collecting_start.
Qed.

(** The two inventories that [main] merges are as the statements about the
    merge take them: each with [Set] objects of its own, in one store. *)
Lemma main_merges_separate_inventories root nm lock h :
  collectFromNodeModules fs root [] = Ok nm ->
  collectFromPackageLock fs root (store nm) = Ok (lock, h) ->
  jsmap_wf lock h /\ jsmap_wf (hits nm) h /\ separate lock (hits nm) /\
  NoDup (MapObj.keys lock) /\ NoDup (MapObj.keys (hits nm)) /\
  deref h (hits nm) = deref (store nm) (hits nm).
Proof.
  intros Hnm Hlock.
  apply collectFromNodeModules_collecting in Hnm.
  apply collectFromPackageLock_collecting in Hlock.
  destruct Hnm as ((Hnd & Hval) & Hk & _ & _ & _).
  destruct Hlock as (Hwf' & Hk' & Hlow' & Hlen' & Hfr').
  split; [assumption |]. split; [| split; [| split; [| split]]].
  - split; [assumption |]. intros l Hl. apply Hval in Hl. store_lia.
  - intros l Hl Hin. apply Hlow' in Hl. apply Hval in Hin. store_lia.
  - assumption.
  - assumption.
  - apply deref_ext. intros l Hl. apply Hfr'. now apply Hval.
Qed.

End Collectors.

(** * The lockfile collector, both shapes *)

Section Tree.

Lemma leaf_gives_nothing obj n s :
  negb (JS.truthy obj) || negb (JS.typeof_object obj) = true ->
  ~ tree_gives obj n s.
Proof.
  intros Hleaf (meta & Hnode & _).
  assert (H : JS.truthy obj = true /\ JS.typeof_object obj = true)
    by (inversion Hnode; auto).
  rewrite (proj1 H), (proj2 H) in Hleaf. discriminate.
Qed.

Lemma tree_gives_entries obj n s :
  JS.truthy obj = true -> JS.typeof_object obj = true ->
  (tree_gives obj n s <->
   exists e, In e (JS.entries obj) /\ entry_gives e n s).
Proof.
  intros Ht Ho. split.
  - intros (meta & Hnode & Hv & Hs). inversion Hnode; subst.
    + exists (n, meta). split; [assumption |]. split; [assumption |].
      left. auto.
    + exists (n', meta'). split; [assumption |]. split; [assumption |].
      right. split; [assumption |]. exists meta. auto.
  - intros ([n' meta'] & Hin & Hm & [(-> & Hv & Hs) | (Hd & meta & Hnode & Hv & Hs)]);
      cbn [fst snd] in *.
    + exists meta'. split; [now apply dep_here | auto].
    + exists meta. split; [| auto]. now apply (dep_below obj n' meta').
Qed.

Lemma walkDeps_installs fuel : forall obj m h m' h',
  jsmap_wf m h -> walkDeps fuel obj (m, h) = Ok (m', h') ->
  jsmap_wf m' h' /\
  forall n s,
    installs (deref h' m') n s <->
    installs (deref h m) n s \/ tree_gives obj n s.
Proof.
  induction fuel as [| fuel IH]; intros obj m h m' h' Hwf Hrun;
    cbn [walkDeps] in Hrun;
    destruct (negb (JS.truthy obj) || negb (JS.typeof_object obj)) eqn:Hleaf;
    try discriminate;
    try (inversion Hrun; subst; split; [assumption |]; intros n s;
         split; [tauto | intros [H | H]; [assumption |];
                 now apply leaf_gives_nothing in H]).
  apply orb_false_iff in Hleaf. destruct Hleaf as [Ht Ho].
  apply negb_false_iff in Ht. apply negb_false_iff in Ho.
  assert (Hloop : forall l m0 h0 m1 h1,
             jsmap_wf m0 h0 ->
             foldM
               (fun st e =>
                  let '(name, meta) := e in
                  if negb (JS.truthy meta) then Ok st
                  else
                    st1 <- (if JS.truthy (JS.get meta "version")
                            then add (fst st) name (JS.get meta "version")
                                     (snd st)
                            else Ok st) ;;
                    if JS.truthy (JS.get meta "dependencies")
                    then walkDeps fuel (JS.get meta "dependencies") st1
                    else Ok st1)
               l (m0, h0) = Ok (m1, h1) ->
             jsmap_wf m1 h1 /\
             forall n s,
               installs (deref h1 m1) n s <->
               installs (deref h0 m0) n s \/
               exists e, In e l /\ entry_gives e n s).
  { induction l as [| [k meta] rest IHl]; intros m0 h0 m1 h1 Hwf0 Hfold.
    - inversion Hfold; subst. split; [assumption |]. intros n s.
      split; [tauto | intros [H | (e & [] & _)]; assumption].
    - cbn [foldM] in Hfold. unfold entry_gives.
      destruct (JS.truthy meta) eqn:Hm; cbn [negb] in Hfold.
      2:{ cbn [bind] in Hfold. destruct (IHl _ _ _ _ Hwf0 Hfold) as [Hwf1 Hin].
          split; [assumption |]. intros n s. rewrite Hin. split.
          - intros [H | (e & He & Hg)]; [now left |].
            right. exists e. split; [now right | assumption].
          - intros [H | (e & [<- | He] & Hg)]; [now left | |].
            + destruct Hg as [Hg _]. cbn in Hg. congruence.
            + right. eauto. }
      (* the version of this node *)
      assert (Hver : exists m2 h2,
                 (if JS.truthy (JS.get meta "version")
                  then add (fst (m0, h0)) k (JS.get meta "version")
                           (snd (m0, h0))
                  else Ok (m0, h0)) = Ok (m2, h2) /\
                 jsmap_wf m2 h2 /\
                 forall n s,
                   installs (deref h2 m2) n s <->
                   installs (deref h0 m0) n s \/
                   (n = k /\ JS.truthy (JS.get meta "version") = true /\
                    JS.ToString (JS.get meta "version") = Some s)).
      { destruct (JS.truthy (JS.get meta "version")) eqn:Hv; cbn [fst snd].
        - destruct (JS.ToString (JS.get meta "version")) as [sv |] eqn:Hs.
          + destruct (add_deref m0 h0 k _ sv Hwf0 Hs)
              as (m2 & h2 & Hadd & Hwf2 & _ & Hd & _).
            exists m2, h2. split; [assumption |]. split; [assumption |].
            intros n s. rewrite Hd, installs_inv_add. split.
            * intros [H | [-> ->]]; auto.
            * intros [H | (-> & _ & [= ->])]; auto.
          + rewrite (add_throws _ _ _ _ Hs) in Hfold. discriminate.
        - exists m0, h0. split; [reflexivity |]. split; [assumption |].
          intros n s. split; [tauto | intros [H | (_ & [=] & _)]; assumption]. }
      destruct Hver as (m2 & h2 & Hveq & Hwf2 & Hin2).
      rewrite Hveq in Hfold. cbn [bind] in Hfold.
      (* its dependencies *)
      assert (Hdeps : exists m3 h3,
                 (if JS.truthy (JS.get meta "dependencies")
                  then walkDeps fuel (JS.get meta "dependencies") (m2, h2)
                  else Ok (m2, h2)) = Ok (m3, h3) /\
                 jsmap_wf m3 h3 /\
                 forall n s,
                   installs (deref h3 m3) n s <->
                   installs (deref h2 m2) n s \/
                   (JS.truthy (JS.get meta "dependencies") = true /\
                    tree_gives (JS.get meta "dependencies") n s)).
      { destruct (JS.truthy (JS.get meta "dependencies")) eqn:Hd.
        - destruct (walkDeps fuel (JS.get meta "dependencies") (m2, h2))
            as [[m3 h3] | |] eqn:Hw; try discriminate.
          destruct (IH _ _ _ _ _ Hwf2 Hw) as [Hwf3 Hin3].
          exists m3, h3. split; [reflexivity |]. split; [assumption |].
          intros n s. rewrite Hin3. tauto.
        - exists m2, h2. split; [reflexivity |]. split; [assumption |].
          intros n s. split; [tauto | intros [H | [[=] _]]; assumption]. }
      destruct Hdeps as (m3 & h3 & Hdeq & Hwf3 & Hin3).
      rewrite Hdeq in Hfold. cbn [bind] in Hfold.
      destruct (IHl _ _ _ _ Hwf3 Hfold) as [Hwf1 Hin].
      split; [assumption |]. intros n s.
      rewrite Hin, Hin3, Hin2. split.
      + intros [[[H | H] | H] | (e & He & Hg)].
        * now left.
        * right. exists (k, meta). split; [now left |]. cbn [fst snd]. tauto.
        * right. exists (k, meta). split; [now left |]. cbn [fst snd]. tauto.
        * right. exists e. split; [now right | assumption].
      + intros [H | (e & [<- | He] & Hg)].
        * left. left. now left.
        * cbn [fst snd] in Hg. destruct Hg as [_ [Hg | Hg]]; tauto.
        * right. eauto. }
  destruct (Hloop _ _ _ _ _ Hwf Hrun) as [Hwf' Hin].
  split; [assumption |]. intros n s.
  rewrite Hin, (tree_gives_entries obj n s Ht Ho). reflexivity.
Qed.

End Tree.

(** X1.  [walkDeps] puts into the inventory, under its own key, every node
    of the tree that has a version, at whatever depth it lies, and nothing
    else. *)
Theorem walkDeps_inventories_every_node
  (fuel : nat) (obj : jsval) (m : jsmap) (h : heap) (m' : jsmap) (h' : heap) :
  jsmap_wf m h ->
  walkDeps fuel obj (m, h) = Ok (m', h') ->
  forall n s,
    installs (deref h' m') n s <->
    installs (deref h m) n s \/
    exists meta,
      dep_node obj n meta /\
      JS.truthy (JS.get meta "version") = true /\
      JS.ToString (JS.get meta "version") = Some s.
Proof.
  intros Hwf Hrun. exact (proj2 (walkDeps_installs fuel obj m h m' h' Hwf Hrun)).
Qed.

Lemma walkDeps_inventories_every_node_witness :
  jsmap_wf [] [] /\
  walkDeps 2 (JS.get both_shapes_lock "dependencies") ([], []) =
    Ok ([("a", 0); ("b", 1)], [["1.0.0"]; ["2"]]) /\
  forall n s,
    installs (deref [["1.0.0"]; ["2"]] [("a", 0); ("b", 1)]) n s <->
    installs (deref [] []) n s \/
    exists meta,
      dep_node (JS.get both_shapes_lock "dependencies") n meta /\
      JS.truthy (JS.get meta "version") = true /\
      JS.ToString (JS.get meta "version") = Some s.
Proof.
  split; [exact jsmap_wf_empty | split; [reflexivity |]].
  exact (walkDeps_inventories_every_node 2
           (JS.get both_shapes_lock "dependencies") [] []
           [("a", 0); ("b", 1)] [["1.0.0"]; ["2"]] jsmap_wf_empty eq_refl).
Defined.

Section LockShapes.

Lemma flat_gives_adds packages n s :
  flat_gives packages n s <->
  exists v, In (n, v) (lock_adds packages) /\ JS.ToString v = Some s.
Proof.
  unfold flat_gives. split.
  - intros (key & meta & H1 & H2 & H3 & H4 & H5).
    exists (JS.get meta "version"). split; [| assumption].
    apply In_lock_adds. exists key, meta. auto.
  - intros (v & Hv & Hs). apply In_lock_adds in Hv.
    destruct Hv as (key & meta & H1 & H2 & H3 & H4 & ->).
    exists key, meta. auto.
Qed.

Lemma collect_packages_installs packages m h m' h' :
  jsmap_wf m h -> collect_packages packages (m, h) = Ok (m', h') ->
  jsmap_wf m' h' /\
  forall n s,
    installs (deref h' m') n s <->
    installs (deref h m) n s \/ flat_gives packages n s.
Proof.
  intros Hwf Hrun. rewrite collect_packages_adds in Hrun.
  pose proof (add_all_coercible _ _ _ Hrun) as Hco.
  destruct (add_all_deref _ m h Hwf Hco) as (m1 & h1 & Hall & Hwf1 & Hin & _).
  pose proof (eq_trans (eq_sym Hall) Hrun) as Heq.
  inversion Heq; subst m1 h1.
  split; [assumption |]. intros n s. rewrite Hin, flat_gives_adds. reflexivity.
Qed.

Lemma nothing_given_by_undefined n s : ~ tree_gives JUndefined n s.
Proof. apply leaf_gives_nothing. reflexivity. Qed.

End LockShapes.

(** What the two shapes of a lockfile give. *)
Lemma collectFromPackageLock_gives
  (fs : filesystem) (root : string) (h : heap) (m : jsmap) (h' : heap) :
  collectFromPackageLock fs root h = Ok (m, h') ->
  (forall n s,
      installs (deref h' m) n s <->
      (JS.truthy (JS.get (lock_data fs root) "packages") = true /\
       JS.typeof_object (JS.get (lock_data fs root) "packages") = true /\
       flat_gives (JS.get (lock_data fs root) "packages") n s) \/
      tree_gives (JS.get (lock_data fs root) "dependencies") n s) /\
  (existsSync fs (path_join root "package-lock.json") = false \/
   readJSON fs (path_join root "package-lock.json") = None ->
   m = [] /\ h' = h).
Proof.
  unfold collectFromPackageLock, lock_data, readJSONSafe.
  destruct (existsSync fs (path_join root "package-lock.json")); cbn [negb].
  2:{ intros [= <- <-]. split; [| auto]. intros n s. split.
      - intros H. now apply installs_empty in H.
      - intros [(H & _) | H]; [discriminate |].
        now apply nothing_given_by_undefined in H. }
  destruct (readJSON fs (path_join root "package-lock.json")) as [lock |].
  2:{ cbn. intros [= <- <-]. split; [| auto]. intros n s. split.
      - intros H. now apply installs_empty in H.
      - intros [(H & _) | H]; [discriminate |].
        now apply nothing_given_by_undefined in H. }
  destruct (JS.truthy lock) eqn:Hlock; cbn [negb].
  2:{ intros [= <- <-].
      assert (Hget : forall k, JS.get lock k = JUndefined).
      { intros k. destruct lock as [| | b | z e | s | items | props];
          try reflexivity; discriminate. }
      split; [| intros [H | H]; discriminate]. intros n s. rewrite !Hget. split.
      - intros H. now apply installs_empty in H.
      - intros [(H & _) | H]; [discriminate |].
        now apply nothing_given_by_undefined in H. }
  intros Hrun. split; [| intros [H | H]; discriminate].
  assert (Hflat : exists m1 h1,
             (if JS.truthy (JS.get lock "packages")
                 && JS.typeof_object (JS.get lock "packages")
              then collect_packages (JS.get lock "packages") ([], h)
              else Ok ([], h)) = Ok (m1, h1) /\
             jsmap_wf m1 h1 /\
             forall n s,
               installs (deref h1 m1) n s <->
               JS.truthy (JS.get lock "packages") = true /\
               JS.typeof_object (JS.get lock "packages") = true /\
               flat_gives (JS.get lock "packages") n s).
  { assert (Hwf0 : jsmap_wf [] h)
      by (split; [constructor | intros l []]).
    destruct (JS.truthy (JS.get lock "packages")
              && JS.typeof_object (JS.get lock "packages")) eqn:Hp.
    - destruct (collect_packages (JS.get lock "packages") ([], h))
        as [[m1 h1] | |] eqn:Hc;
        try (exfalso; run_step Hrun Hc; discriminate Hrun).
      destruct (collect_packages_installs _ _ _ _ _ Hwf0 Hc) as [Hwf1 Hin].
      apply andb_prop in Hp. destruct Hp as [Hp1 Hp2].
      exists m1, h1. split; [reflexivity |]. split; [assumption |].
      intros n s. rewrite Hin. split.
      + intros [H | H]; [now apply installs_empty in H | auto].
      + intros (_ & _ & H). now right.
    - exists [], h. split; [reflexivity |]. split; [assumption |].
      intros n s. split.
      + intros H. now apply installs_empty in H.
      + intros (H1 & H2 & _). rewrite H1, H2 in Hp. discriminate. }
  destruct Hflat as (m1 & h1 & Hfeq & Hwf1 & Hin1).
  run_step Hrun Hfeq. cbn [bind] in Hrun.
  destruct (JS.truthy (JS.get lock "dependencies")) eqn:Hd.
  - destruct (walkDeps_installs _ _ _ _ _ _ Hwf1 Hrun) as [_ Hin].
    intros n s. rewrite Hin, Hin1. reflexivity.
  - inversion Hrun; subst m1 h1. intros n s. rewrite Hin1. split; [tauto |].
    intros [H | (meta & Hnode & _)]; [assumption |].
    assert (Ht : JS.truthy (JS.get lock "dependencies") = true)
      by (inversion Hnode; assumption).
    congruence.
Qed.

(** X2.  The inventory of [collectFromPackageLock] holds exactly what the
    flat map [packages] gives (names without the leading [node_modules/])
    and what the tree [dependencies] gives (names as they are keyed), both
    in one map; a lockfile that is missing or cannot be parsed gives the
    empty inventory and leaves the store alone. *)
Theorem collectFromPackageLock_both_shapes
  (fs : filesystem) (root : string) (h : heap) (m : jsmap) (h' : heap) :
  collectFromPackageLock fs root h = Ok (m, h') ->
  (forall n s,
      installs (deref h' m) n s <->
      (JS.truthy (JS.get (lock_data fs root) "packages") = true /\
       JS.typeof_object (JS.get (lock_data fs root) "packages") = true /\
       flat_gives (JS.get (lock_data fs root) "packages") n s) \/
      tree_gives (JS.get (lock_data fs root) "dependencies") n s) /\
  (existsSync fs (path_join root "package-lock.json") = false \/
   readJSON fs (path_join root "package-lock.json") = None ->
   m = [] /\ h' = h).
Proof. apply collectFromPackageLock_gives. Qed.

Lemma collectFromPackageLock_both_shapes_witness :
  collectFromPackageLock both_shapes_fs "/proj" [] =
    Ok ([("a", 0); ("b", 1)], [["1.0.0"]; ["2"]]) /\
  (forall n s,
      installs (deref [["1.0.0"]; ["2"]] [("a", 0); ("b", 1)]) n s <->
      (JS.truthy (JS.get (lock_data both_shapes_fs "/proj") "packages") = true /\
       JS.typeof_object
         (JS.get (lock_data both_shapes_fs "/proj") "packages") = true /\
       flat_gives (JS.get (lock_data both_shapes_fs "/proj") "packages") n s) \/
      tree_gives (JS.get (lock_data both_shapes_fs "/proj") "dependencies") n s).
Proof.
  split; [reflexivity |].
  exact (proj1 (collectFromPackageLock_both_shapes both_shapes_fs "/proj" []
                  [("a", 0); ("b", 1)] [["1.0.0"]; ["2"]] eq_refl)).
Defined.

Section TreeBudget.

Lemma walkDeps_budget fuel : forall fuel' obj st,
  jsdepth obj <= fuel -> jsdepth obj <= fuel' ->
  walkDeps fuel obj st = walkDeps fuel' obj st.
Proof.
  induction fuel as [| fuel IH]; intros fuel' obj st Hd Hd'.
  - destruct fuel'; cbn [walkDeps]; now rewrite shallow_is_leaf by lia.
  - cbn [walkDeps].
    destruct (negb (JS.truthy obj) || negb (JS.typeof_object obj)) eqn:Hleaf.
    + destruct fuel'; cbn [walkDeps]; now rewrite Hleaf.
    + destruct fuel' as [| fuel'].
      * rewrite shallow_is_leaf in Hleaf by lia. discriminate.
      * cbn [walkDeps]. rewrite Hleaf.
        apply foldM_ext. intros s [n meta] Hin.
        apply jsdepth_entries in Hin.
        destruct (negb (JS.truthy meta)); [reflexivity |].
        destruct (if JS.truthy (JS.get meta "version") then _ else _)
          as [st1 | |]; cbn [bind]; try reflexivity.
        destruct (JS.truthy (JS.get meta "dependencies")); [| reflexivity].
        pose proof (jsdepth_get meta "dependencies").
        apply IH; lia.
Qed.

End TreeBudget.

(** X3.  [walkDeps] returns on every parsed value: its recursion is no
    deeper than the value is nested, so a budget of that depth is never
    used up, and a larger one gives the same result. *)
Theorem walkDeps_terminates (fuel : nat) (obj : jsval) (st : jsmap * heap) :
  jsdepth obj <= fuel ->
  walkDeps fuel obj st <> OutOfFuel /\
  walkDeps fuel obj st = walkDeps (jsdepth obj) obj st.
Proof.
  intros Hd. split; [now apply walkDeps_fuel |].
  apply walkDeps_budget; lia.
Qed.

Lemma walkDeps_terminates_witness :
  jsdepth (JS.get both_shapes_lock "dependencies") <= 9 /\
  walkDeps 9 (JS.get both_shapes_lock "dependencies") ([], []) <> OutOfFuel /\
  walkDeps 9 (JS.get both_shapes_lock "dependencies") ([], []) =
  walkDeps (jsdepth (JS.get both_shapes_lock "dependencies"))
           (JS.get both_shapes_lock "dependencies") ([], []).
Proof.
  assert (H : jsdepth (JS.get both_shapes_lock "dependencies") <= 9)
    by (vm_compute; lia).
  split; [exact H |].
  exact (walkDeps_terminates 9 (JS.get both_shapes_lock "dependencies")
           ([], []) H).
Defined.

(** * The [node_modules] collector, package by package *)

Section Packages.

Variable fs : filesystem.

Lemma walk_unfold fuel dir depth st :
  walk (S fuel) fs dir depth st =
  if (6 <? depth)%nat then Ok st
  else
    match readdirSync fs dir with
    | None => Ok (log_read dir depth st)
    | Some entries =>
        foldM (walk_entry fuel fs dir depth) entries (log_read dir depth st)
    end.
Proof. reflexivity. Qed.

Lemma foldM_member {A S : Type} (P Q : S -> Prop) (f : S -> A -> result S)
  l x :
  In x l ->
  (forall s y s', P s -> f s y = Ok s' -> P s') ->
  (forall s s', P s -> f s x = Ok s' -> Q s') ->
  (forall s y s', P s -> Q s -> f s y = Ok s' -> Q s') ->
  forall s s', P s -> foldM f l s = Ok s' -> Q s'.
Proof.
  intros Hin HP Hx HQ.
  induction l as [| y rest IH]; [destruct Hin |].
  intros s s' Hs Hfold. cbn [foldM] in Hfold.
  destruct (f s y) as [s1 | |] eqn:Hy; try discriminate. cbn [bind] in Hfold.
  destruct Hin as [-> | Hin].
  - pose proof (Hx _ _ Hs Hy) as Hq. pose proof (HP _ _ _ Hs Hy) as Hp1.
    clear IH Hx Hy. revert s1 Hq Hp1 Hfold.
    induction rest as [| z rest IHr]; intros s1 Hq Hp1 Hfold.
    + inversion Hfold; now subst.
    + cbn [foldM] in Hfold.
      destruct (f s1 z) as [s2 | |] eqn:Hz; try discriminate.
      cbn [bind] in Hfold. apply (IHr s2); eauto.
  - apply (IH Hin s1 s'); eauto.
Qed.

(** What [processPkg] adds is what the manifest declares, and nothing when
    there is no such manifest. *)
Lemma processPkg_installs pkgDir st st' :
  jsmap_wf (hits st) (store st) -> processPkg fs pkgDir st = Ok st' ->
  jsmap_wf (hits st') (store st') /\
  forall n s,
    installs (scanned st') n s <->
    installs (scanned st) n s \/ manifest_at fs pkgDir n s.
Proof.
  intros Hwf. unfold processPkg, manifest_at, readJSONSafe, scanned.
  assert (Hsame : forall (absurd : forall n s,
                     ~ (existsSync fs (path_join pkgDir "package.json") = true /\
                        exists pkg,
                          readJSON fs (path_join pkgDir "package.json") = Some pkg /\
                          JS.get pkg "name" = JStr n /\ n <> "" /\
                          JS.truthy (JS.get pkg "version") = true /\
                          JS.ToString (JS.get pkg "version") = Some s)),
             Ok st = Ok st' ->
             jsmap_wf (hits st') (store st') /\
             forall n s,
               installs (deref (store st') (hits st')) n s <->
               installs (deref (store st) (hits st)) n s \/
               (existsSync fs (path_join pkgDir "package.json") = true /\
                exists pkg,
                  readJSON fs (path_join pkgDir "package.json") = Some pkg /\
                  JS.get pkg "name" = JStr n /\ n <> "" /\
                  JS.truthy (JS.get pkg "version") = true /\
                  JS.ToString (JS.get pkg "version") = Some s)).
  { intros Habs [= <-]. split; [assumption |]. intros n s.
    split; [tauto | intros [H | H]; [assumption | now apply Habs in H]]. }
  destruct (existsSync fs (path_join pkgDir "package.json")) eqn:Hex;
    cbn [negb].
  2:{ apply Hsame. intros n s [H _]. discriminate. }
  destruct (readJSON fs (path_join pkgDir "package.json")) as [pkg |] eqn:Hr.
  2:{ cbn. apply Hsame. intros n s (_ & pkg & [=] & _). }
  destruct (JS.truthy pkg) eqn:Hp; cbn [negb orb].
  2:{ apply Hsame. intros n s (_ & pkg' & [= <-] & Hn & _).
      destruct pkg; try discriminate. }
  destruct (JS.truthy (JS.get pkg "name")) eqn:Hn; cbn [negb orb].
  2:{ apply Hsame. intros n s (_ & pkg' & [= <-] & Hname & Hne & _).
      rewrite Hname in Hn. cbn in Hn. apply negb_false_iff in Hn.
      apply String.eqb_eq in Hn. contradiction. }
  destruct (JS.truthy (JS.get pkg "version")) eqn:Hv; cbn [negb].
  2:{ apply Hsame. intros n s (_ & pkg' & [= <-] & _ & _ & Hv' & _).
      congruence. }
  destruct (JS.get pkg "name") as [| | b | z e | nm | items | props] eqn:Hname.
  5:{ destruct (JS.ToString (JS.get pkg "version")) as [sv |] eqn:Hs.
      - destruct (add_deref (hits st) (store st) nm _ sv Hwf Hs)
          as (m' & h' & Hadd & Hwf' & _ & Hd & _).
        rewrite Hadd. cbn [bind]. intros [= <-]. cbn [hits store].
        split; [assumption |]. intros n0 s0.
        rewrite Hd, installs_inv_add. split.
        + intros [H | [-> ->]]; [now left |]. right. split; [reflexivity |].
          exists pkg. repeat split; try assumption.
          intros ->. discriminate.
        + intros [H | (_ & pkg' & [= <-] & Hname' & _ & _ & Hs')];
            [now left |].
          right. split; congruence.
      - rewrite (add_throws _ _ _ _ Hs). discriminate. }
  all: unfold String_; destruct (JS.ToString (JS.get pkg "version"));
    cbn [bind]; try discriminate;
    apply Hsame; intros n0 s0 (_ & pkg' & [= <-] & Hname' & _); congruence.
Qed.

Section Invariant.

Variable P : scan -> Prop.
Hypothesis P_processPkg :
  forall pkgDir st st', P st -> processPkg fs pkgDir st = Ok st' -> P st'.
Hypothesis P_log : forall dir depth st, P st -> P (log_read dir depth st).

Lemma walk_invariant fuel : forall dir depth st st',
  P st -> walk fuel fs dir depth st = Ok st' -> P st'.
Proof.
  induction fuel as [| fuel IH]; intros dir depth st st' Hst Hw.
  - cbn [walk] in Hw. destruct (6 <? depth)%nat; [| discriminate].
    inversion Hw; now subst.
  - rewrite walk_unfold in Hw. destruct (6 <? depth)%nat;
      [inversion Hw; now subst |].
    assert (Hvisit : forall pkgDir s s',
               P s -> visit_pkg fuel fs pkgDir depth s = Ok s' -> P s').
    { intros pkgDir s s' Hs. unfold visit_pkg.
      destruct (processPkg fs pkgDir s) as [s1 | |] eqn:Hp; try discriminate.
      cbn [bind]. pose proof (P_processPkg _ _ _ Hs Hp) as H1.
      destruct (existsSync fs _); [apply IH; exact H1 | intros [= <-]; exact H1]. }
    destruct (readdirSync fs dir) as [entries |];
      [| inversion Hw; subst; now apply P_log].
    revert Hw. apply foldM_inv; [now apply P_log |].
    intros s ent s' _ Hs. unfold walk_entry.
    destruct (negb (isDirectory ent) || prefix "." (d_name ent));
      [intros [= <-]; exact Hs |].
    destruct (prefix "@" (d_name ent)); [| now apply Hvisit].
    cbv zeta. destruct (readdirSync fs _) as [scoped |];
      [| intros [= <-]; now apply P_log].
    apply foldM_inv; [now apply P_log |].
    intros s0 sc s0' _ Hs0. unfold walk_scoped.
    destruct (negb (isDirectory sc)); [intros [= <-]; exact Hs0 |].
    now apply Hvisit.
Qed.

Lemma visit_pkg_invariant fuel pkgDir depth st st' :
  P st -> visit_pkg fuel fs pkgDir depth st = Ok st' -> P st'.
Proof.
  intros Hs. unfold visit_pkg.
  destruct (processPkg fs pkgDir st) as [s1 | |] eqn:Hp; try discriminate.
  cbn [bind]. pose proof (P_processPkg _ _ _ Hs Hp) as H1.
  destruct (existsSync fs _);
    [now apply walk_invariant | intros [= <-]; exact H1].
Qed.

Lemma walk_scoped_invariant fuel scopeDir depth st s st' :
  P st -> walk_scoped fuel fs scopeDir depth st s = Ok st' -> P st'.
Proof.
  intros Hs. unfold walk_scoped.
  destruct (negb (isDirectory s)); [intros [= <-]; exact Hs |].
  now apply visit_pkg_invariant.
Qed.

Lemma walk_entry_invariant fuel dir depth st ent st' :
  P st -> walk_entry fuel fs dir depth st ent = Ok st' -> P st'.
Proof.
  intros Hs. unfold walk_entry.
  destruct (negb (isDirectory ent) || prefix "." (d_name ent));
    [intros [= <-]; exact Hs |].
  destruct (prefix "@" (d_name ent)); [| now apply visit_pkg_invariant].
  cbv zeta. destruct (readdirSync fs _) as [scoped |];
    [| intros [= <-]; now apply P_log].
  apply foldM_inv; [now apply P_log |].
  intros s0 sc s0' _ Hs0. now apply walk_scoped_invariant.
Qed.

End Invariant.

Lemma scan_wf_processPkg pkgDir st st' :
  scan_wf st -> processPkg fs pkgDir st = Ok st' -> scan_wf st'.
Proof. intros H Hp. exact (proj1 (processPkg_installs _ _ _ H Hp)). Qed.

Lemma scan_wf_log dir depth st : scan_wf st -> scan_wf (log_read dir depth st).
Proof. intros H. exact H. Qed.

(** Nothing that a scan holds is ever taken out of it. *)
Lemma kept_processPkg n s pkgDir st st' :
  scan_wf st /\ installs (scanned st) n s ->
  processPkg fs pkgDir st = Ok st' ->
  scan_wf st' /\ installs (scanned st') n s.
Proof.
  intros [Hwf Hin] Hp. destruct (processPkg_installs _ _ _ Hwf Hp) as [Hwf' H].
  split; [assumption |]. apply H. now left.
Qed.

Lemma kept_log n s dir depth st :
  scan_wf st /\ installs (scanned st) n s ->
  scan_wf (log_read dir depth st) /\
  installs (scanned (log_read dir depth st)) n s.
Proof. intros H. exact H. Qed.

Lemma visit_pkg_installs fuel pkgDir depth st st' n s :
  scan_wf st -> visit_pkg fuel fs pkgDir depth st = Ok st' ->
  manifest_at fs pkgDir n s -> installs (scanned st') n s.
Proof.
  intros Hwf Hv Hm. unfold visit_pkg in Hv.
  destruct (processPkg fs pkgDir st) as [s1 | |] eqn:Hp; try discriminate.
  cbn [bind] in Hv. destruct (processPkg_installs _ _ _ Hwf Hp) as [Hwf1 H].
  assert (H1 : scan_wf s1 /\ installs (scanned s1) n s)
    by (split; [assumption | apply H; now right]).
  destruct (existsSync fs _); [| inversion Hv; subst; exact (proj2 H1)].
  exact (proj2 (walk_invariant _ (kept_processPkg n s) (kept_log n s)
                  _ _ _ _ _ H1 Hv)).
Qed.

End Packages.

(** * The [node_modules] collector: what it inventories *)

Section Visited.

Variable fs : filesystem.

Lemma visited_depth dir depth p : visited fs dir depth p -> depth <= 6.
Proof. intros H. destruct H; assumption. Qed.

(** Everything that a walk adds is declared by the manifest of a directory it
    comes to. *)
Lemma walk_sound fuel : forall dir depth st st',
  scan_wf st -> walk fuel fs dir depth st = Ok st' ->
  scan_wf st' /\
  forall n s,
    installs (scanned st') n s ->
    installs (scanned st) n s \/
    exists p, visited fs dir depth p /\ manifest_at fs p n s.
Proof.
  induction fuel as [| fuel IH]; intros dir depth st st' Hwf Hw.
  - cbn [walk] in Hw. destruct (6 <? depth)%nat; [| discriminate].
    inversion Hw; subst. split; [assumption | now left].
  - rewrite walk_unfold in Hw. destruct (6 <? depth)%nat eqn:Hd;
      [inversion Hw; subst; split; [assumption | now left] |].
    pose proof (proj1 (Nat.ltb_ge _ _) Hd) as Hle.
    set (P := fun s0 : scan =>
                scan_wf s0 /\
                forall n s,
                  installs (scanned s0) n s ->
                  installs (scanned st) n s \/
                  exists p, visited fs dir depth p /\ manifest_at fs p n s).
    assert (HP0 : P st) by (split; [assumption | now left]).
    assert (Hlog : forall d k s0, P s0 -> P (log_read d k s0))
      by (intros d k s0 H; exact H).
    assert (Hvisit : forall pkgDir s0 s0',
               pkg_child fs dir pkgDir -> P s0 ->
               visit_pkg fuel fs pkgDir depth s0 = Ok s0' -> P s0').
    { intros pkgDir s0 s0' Hchild [Hwf0 Hs0]. unfold visit_pkg.
      destruct (processPkg fs pkgDir s0) as [s1 | |] eqn:Hp; try discriminate.
      cbn [bind]. destruct (processPkg_installs fs _ _ _ Hwf0 Hp) as [Hwf1 H1].
      assert (HP1 : P s1).
      { split; [assumption |]. intros n s Hi. apply H1 in Hi.
        destruct Hi as [Hi | Hi]; [now apply Hs0 |].
        right. exists pkgDir. split; [now apply visited_child | assumption]. }
      destruct (existsSync fs _) eqn:Hex; [| intros [= <-]; exact HP1].
      intros Hn. destruct (IH _ _ _ _ Hwf1 Hn) as [Hwf' H'].
      split; [assumption |]. intros n s Hi. apply H' in Hi.
      destruct Hi as [Hi | (p & Hp' & Hm)]; [now apply (proj2 HP1) |].
      right. exists p. split; [| assumption].
      now apply (visited_nested fs dir depth pkgDir p). }
    destruct (readdirSync fs dir) as [entries |] eqn:Hr;
      [| inversion Hw; subst; now apply Hlog].
    revert Hw. apply (foldM_inv P); [now apply Hlog |].
    intros s0 ent s0' Hent Hs0. unfold walk_entry.
    destruct (isDirectory ent) eqn:Hdir; cbn [negb orb];
      [| intros [= <-]; exact Hs0].
    destruct (prefix "." (d_name ent)) eqn:Hdot; [intros [= <-]; exact Hs0 |].
    destruct (prefix "@" (d_name ent)) eqn:Hat.
    + cbv zeta. destruct (readdirSync fs (path_join dir (d_name ent)))
        as [scoped |] eqn:Hrs; [| intros [= <-]; now apply Hlog].
      apply (foldM_inv P); [now apply Hlog |].
      intros s1 sc s1' Hsc Hs1. unfold walk_scoped.
      destruct (isDirectory sc) eqn:Hsd; cbn [negb];
        [| intros [= <-]; exact Hs1].
      apply Hvisit; [| assumption].
      exists entries, ent. repeat split; try assumption.
      right. split; [assumption |]. exists scoped, sc. now repeat split.
    + apply Hvisit; [| assumption].
      exists entries, ent. repeat split; try assumption. now left.
Qed.

(** The manifest of every directory that a walk comes to is inventoried. *)
Lemma walk_complete fuel : forall dir depth st st' p n s,
  scan_wf st -> walk fuel fs dir depth st = Ok st' ->
  visited fs dir depth p -> manifest_at fs p n s ->
  installs (scanned st') n s.
Proof.
  induction fuel as [| fuel IH]; intros dir depth st st' p n s Hwf Hw Hv Hm.
  - pose proof (visited_depth _ _ _ Hv) as Hle. cbn [walk] in Hw.
    destruct (6 <? depth)%nat eqn:Hd; [| discriminate].
    apply Nat.ltb_lt in Hd. lia.
  - rewrite walk_unfold in Hw.
    pose proof (visited_depth _ _ _ Hv) as Hle.
    destruct (6 <? depth)%nat eqn:Hd; [apply Nat.ltb_lt in Hd; lia |].
    set (P := scan_wf).
    set (Q := fun s0 : scan => installs (scanned s0) n s).
    assert (Hkeep_visit : forall pkgDir s0 s0',
               P s0 -> Q s0 -> visit_pkg fuel fs pkgDir depth s0 = Ok s0' ->
               Q s0').
    { intros pkgDir s0 s0' H0 Hq Hvp.
      exact (proj2 (visit_pkg_invariant fs _ (kept_processPkg fs n s)
                      (kept_log n s) _ _ _ _ _ (conj H0 Hq) Hvp)). }
    assert (Hwf_visit : forall pkgDir s0 s0',
               P s0 -> visit_pkg fuel fs pkgDir depth s0 = Ok s0' -> P s0').
    { intros pkgDir s0 s0'.
      apply (visit_pkg_invariant fs scan_wf (scan_wf_processPkg fs)
               scan_wf_log). }
    assert (Hwf_scoped : forall scopeDir s0 sc s0',
               P s0 -> walk_scoped fuel fs scopeDir depth s0 sc = Ok s0' ->
               P s0').
    { intros scopeDir s0 sc s0'.
      apply (walk_scoped_invariant fs scan_wf (scan_wf_processPkg fs)
               scan_wf_log). }
    assert (Hkeep_scoped : forall scopeDir s0 sc s0',
               P s0 -> Q s0 ->
               walk_scoped fuel fs scopeDir depth s0 sc = Ok s0' -> Q s0').
    { intros scopeDir s0 sc s0' H0 Hq Hws.
      exact (proj2 (walk_scoped_invariant fs _ (kept_processPkg fs n s)
                      (kept_log n s) _ _ _ _ _ _ (conj H0 Hq) Hws)). }
    assert (Hwf_entry : forall s0 ent s0',
               P s0 -> walk_entry fuel fs dir depth s0 ent = Ok s0' -> P s0').
    { intros s0 ent s0'.
      apply (walk_entry_invariant fs scan_wf (scan_wf_processPkg fs)
               scan_wf_log). }
    assert (Hkeep_entry : forall s0 ent s0',
               P s0 -> Q s0 ->
               walk_entry fuel fs dir depth s0 ent = Ok s0' -> Q s0').
    { intros s0 ent s0' H0 Hq Hwe.
      exact (proj2 (walk_entry_invariant fs _ (kept_processPkg fs n s)
                      (kept_log n s) _ _ _ _ _ _ (conj H0 Hq) Hwe)). }
    (* the directory of [dir] that leads to [p], and what its visit adds *)
    assert (Hchild : exists pkgDir,
               pkg_child fs dir pkgDir /\
               forall s0 s0', P s0 ->
                 visit_pkg fuel fs pkgDir depth s0 = Ok s0' -> Q s0').
    { inversion Hv as [d k pkgDir _ Hc | d k pkgDir p' _ Hc Hex Hn]; subst.
      - exists p. split; [assumption |]. intros s0 s0' H0 Hvp.
        now apply (visit_pkg_installs fs fuel p depth s0 s0').
      - exists pkgDir. split; [assumption |]. intros s0 s0' H0. unfold visit_pkg.
        destruct (processPkg fs pkgDir s0) as [s1 | |] eqn:Hp;
          try discriminate.
        cbn [bind]. rewrite Hex. intros Hn'.
        apply (IH _ _ _ _ p n s (scan_wf_processPkg fs _ _ _ H0 Hp) Hn');
          assumption. }
    destruct Hchild as (pkgDir & (entries & ent & Hr & Hent & Hdir & Hdot & Hk)
                        & Hadd).
    rewrite Hr in Hw. revert Hw.
    apply (foldM_member P Q _ entries ent Hent Hwf_entry); [| exact Hkeep_entry
                                                            | exact Hwf].
    intros s0 s0' H0. unfold walk_entry. rewrite Hdir, Hdot. cbn [negb orb].
    destruct Hk as [[Hat ->] | (Hat & scoped & sc & Hrs & Hsc & Hsd & ->)];
      rewrite Hat; [now apply Hadd |].
    cbv zeta. rewrite Hrs.
    apply (foldM_member P Q _ scoped sc Hsc (Hwf_scoped _));
      [| exact (Hkeep_scoped _) | exact H0].
    intros s1 s1' H1. unfold walk_scoped. rewrite Hsd. cbn [negb].
    now apply Hadd.
Qed.

End Visited.

(** What the walk of [node_modules] gives. *)
Lemma collectFromNodeModules_scans fs projectRoot h st :
  collectFromNodeModules fs projectRoot h = Ok st ->
  jsmap_wf (hits st) (store st) /\
  forall n s,
    installs (scanned st) n s <->
    existsSync fs (path_join projectRoot "node_modules") = true /\
    exists pkgDir,
      visited fs (path_join projectRoot "node_modules") 0 pkgDir /\
      manifest_at fs pkgDir n s.
Proof.
  unfold collectFromNodeModules. cbv zeta.
  assert (Hwf0 : scan_wf (mkScan [] h []))
    by exact (proj1 (collecting_start h)).
  destruct (existsSync fs _) eqn:Hex; cbn [negb].
  - intros Hw. destruct (walk_sound fs _ _ _ _ _ Hwf0 Hw) as [Hwf Hs].
    split; [assumption |]. intros n s. split.
    + intros Hi. split; [reflexivity |]. apply Hs in Hi.
      destruct Hi as [Hi | Hi]; [| assumption].
      unfold scanned in Hi. cbn [hits store] in Hi.
      now apply installs_empty in Hi.
    + intros (_ & p & Hv & Hm).
      now apply (walk_complete fs _ _ _ _ _ p n s Hwf0 Hw).
  - intros [= <-]. split; [assumption |]. intros n s. split.
    + intros Hi. unfold scanned in Hi. cbn [hits store] in Hi.
      now apply installs_empty in Hi.
    + intros [[=] _].
Qed.

(** The manifests of the scenarios have string names. *)
Lemma nested_fs_names : names_are_strings nested_fs.
Proof.
  intros pkgDir pkg Hr _. unfold nested_fs, readJSON in Hr.
  repeat match type of Hr with
         | (if ?c then _ else _) = _ => destruct c
         end;
    try discriminate; injection Hr as <-; eexists; reflexivity.
Qed.

Lemma infected_fs_names : names_are_strings infected_fs.
Proof.
  intros pkgDir pkg Hr Ht. unfold infected_fs, nested_fs, readJSON in Hr.
  repeat match type of Hr with
         | (if ?c then _ else _) = _ => destruct c
         end;
    try discriminate; injection Hr as <-;
    try discriminate Ht; eexists; reflexivity.
Qed.

Lemma hostile_fs_names : names_are_strings hostile_fs.
Proof.
  intros pkgDir pkg Hr Ht. unfold hostile_fs, readJSON in Hr.
  repeat match type of Hr with
         | (if ?c then _ else _) = _ => destruct c
         end;
    try discriminate; injection Hr as <-; discriminate Ht.
Qed.



(** * The [node_modules] collector: when it throws *)

Section Throws.

Variable fs : filesystem.

Lemma add_ok m h n v s :
  JS.ToString v = Some s -> exists r, add m n v h = Ok r.
Proof.
  intros Hs. unfold add, String_. rewrite Hs.
  destruct (MapObj.has m n) eqn:Hhas; cbn [negb heap_alloc].
  - destruct (MapObj.get m n) eqn:Hg; [cbn [bind]; eauto |].
    apply MapObj_has_get in Hg. congruence.
  - rewrite MapObj_get_set, String.eqb_refl. cbn [bind]. eauto.
Qed.

Lemma processPkg_throws pkgDir st :
  processPkg fs pkgDir st = TypeError <-> manifest_throws fs pkgDir.
Proof.
  unfold processPkg, manifest_throws, readJSONSafe. cbv zeta.
  destruct (existsSync fs (path_join pkgDir "package.json")); cbn [negb];
    [| split; [discriminate | intros [[=] _]]].
  destruct (readJSON fs (path_join pkgDir "package.json")) as [pkg |];
    [| cbn; split; [discriminate | intros (_ & pkg & [=] & _)]].
  destruct (JS.truthy pkg) eqn:Hp; cbn [negb orb];
    [| split; [discriminate | intros (_ & pkg' & [= <-] & H & _); congruence]].
  destruct (JS.truthy (JS.get pkg "name")) eqn:Hn; cbn [negb orb];
    [| split; [discriminate
              | intros (_ & pkg' & [= <-] & _ & H & _); congruence]].
  destruct (JS.truthy (JS.get pkg "version")) eqn:Hv; cbn [negb];
    [| split; [discriminate
              | intros (_ & pkg' & [= <-] & _ & _ & H & _); congruence]].
  assert (Hgoal : forall r : result scan,
             (r = TypeError <-> JS.ToString (JS.get pkg "version") = None) ->
             r = TypeError <->
             true = true /\
             exists pkg0, Some pkg = Some pkg0 /\ JS.truthy pkg0 = true /\
               JS.truthy (JS.get pkg0 "name") = true /\
               JS.truthy (JS.get pkg0 "version") = true /\
               JS.ToString (JS.get pkg0 "version") = None).
  { intros r Hr. rewrite Hr. split.
    - intros H. split; [reflexivity |]. exists pkg. now repeat split.
    - now intros (_ & pkg' & [= <-] & _ & _ & _ & H). }
  apply Hgoal.
  destruct (JS.ToString (JS.get pkg "version")) as [sv |] eqn:Hs.
  - destruct (JS.get pkg "name") as [| | b | z e | nm | items | props];
      try (unfold String_; rewrite Hs; cbn [bind];
           split; intros; discriminate).
    destruct (add_ok (hits st) (store st) nm _ sv Hs) as [[m' h'] Hadd].
    rewrite Hadd. cbn [bind]. split; intros; discriminate.
  - destruct (JS.get pkg "name") as [| | b | z e | nm | items | props];
      try (unfold String_; rewrite Hs; cbn [bind]; tauto).
    rewrite (add_throws _ _ _ _ Hs). cbn [bind]. tauto.
Qed.

Lemma foldM_ok_member {A S : Type} (f : S -> A -> result S) l x :
  In x l -> forall s s', foldM f l s = Ok s' ->
  exists s0 s1, f s0 x = Ok s1.
Proof.
  induction l as [| y rest IH]; intros Hin s s' Hfold; [destruct Hin |].
  cbn [foldM] in Hfold. destruct (f s y) as [s1 | |] eqn:Hy; try discriminate.
  cbn [bind] in Hfold. destruct Hin as [-> | Hin]; [eauto |].
  now apply (IH Hin s1 s').
Qed.

Lemma foldM_throws {A S : Type} (f : S -> A -> result S) l : forall s,
  foldM f l s = TypeError -> exists x s0, In x l /\ f s0 x = TypeError.
Proof.
  induction l as [| y rest IH]; intros s Hfold; [discriminate |].
  cbn [foldM] in Hfold. destruct (f s y) as [s1 | |] eqn:Hy; try discriminate.
  - cbn [bind] in Hfold. destruct (IH _ Hfold) as (x & s0 & Hin & Hx).
    exists x, s0. split; [now right | assumption].
  - exists y, s. split; [now left | assumption].
Qed.

(** A walk that returns met no manifest that throws. *)
Lemma walk_ok_no_throw fuel : forall dir depth st st' p,
  walk fuel fs dir depth st = Ok st' -> visited fs dir depth p ->
  ~ manifest_throws fs p.
Proof.
  induction fuel as [| fuel IH]; intros dir depth st st' p Hw Hv.
  - pose proof (visited_depth _ _ _ _ Hv) as Hle. cbn [walk] in Hw.
    destruct (6 <? depth)%nat eqn:Hd; [| discriminate].
    apply Nat.ltb_lt in Hd. lia.
  - rewrite walk_unfold in Hw.
    pose proof (visited_depth _ _ _ _ Hv) as Hle.
    destruct (6 <? depth)%nat eqn:Hd; [apply Nat.ltb_lt in Hd; lia |].
    assert (Hchild : exists pkgDir,
               pkg_child fs dir pkgDir /\
               forall s0 s0', visit_pkg fuel fs pkgDir depth s0 = Ok s0' ->
                              ~ manifest_throws fs p).
    { inversion Hv as [d k pkgDir _ Hc | d k pkgDir p' _ Hc Hex Hn]; subst.
      - exists p. split; [assumption |]. intros s0 s0'. unfold visit_pkg.
        destruct (processPkg fs p s0) as [s1 | |] eqn:Hp; try discriminate.
        intros _ Ht. apply (processPkg_throws p s0) in Ht. congruence.
      - exists pkgDir. split; [assumption |]. intros s0 s0'. unfold visit_pkg.
        destruct (processPkg fs pkgDir s0) as [s1 | |] eqn:Hp;
          try discriminate.
        cbn [bind]. rewrite Hex. intros Hn'. now apply (IH _ _ _ _ p Hn'). }
    destruct Hchild as (pkgDir & (entries & ent & Hr & Hent & Hdir & Hdot & Hk)
                        & Hno).
    rewrite Hr in Hw.
    destruct (foldM_ok_member _ _ _ Hent _ _ Hw) as (s0 & s1 & He).
    unfold walk_entry in He. rewrite Hdir, Hdot in He. cbn [negb orb] in He.
    destruct Hk as [[Hat ->] | (Hat & scoped & sc & Hrs & Hsc & Hsd & ->)];
      rewrite Hat in He; [now apply (Hno s0 s1) |].
    cbv zeta in He. rewrite Hrs in He.
    destruct (foldM_ok_member _ _ _ Hsc _ _ He) as (s2 & s3 & Hs).
    unfold walk_scoped in Hs. rewrite Hsd in Hs. cbn [negb] in Hs.
    now apply (Hno s2 s3).
Qed.

(** A walk that throws met a manifest that throws. *)
Lemma walk_throws fuel : forall dir depth st,
  walk fuel fs dir depth st = TypeError ->
  exists p, visited fs dir depth p /\ manifest_throws fs p.
Proof.
  induction fuel as [| fuel IH]; intros dir depth st Hw.
  - cbn [walk] in Hw. destruct (6 <? depth)%nat; discriminate.
  - rewrite walk_unfold in Hw. destruct (6 <? depth)%nat eqn:Hd;
      [discriminate |].
    pose proof (proj1 (Nat.ltb_ge _ _) Hd) as Hle.
    assert (Hvisit : forall pkgDir s0,
               pkg_child fs dir pkgDir ->
               visit_pkg fuel fs pkgDir depth s0 = TypeError ->
               exists p, visited fs dir depth p /\ manifest_throws fs p).
    { intros pkgDir s0 Hc. unfold visit_pkg.
      destruct (processPkg fs pkgDir s0) as [s1 | |] eqn:Hp;
        try discriminate.
      - cbn [bind]. destruct (existsSync fs _) eqn:Hex; [| discriminate].
        intros Hn. destruct (IH _ _ _ Hn) as (p & Hv & Ht).
        exists p. split; [| assumption].
        now apply (visited_nested fs dir depth pkgDir p).
      - intros _. exists pkgDir. split; [now apply visited_child |].
        now apply (processPkg_throws pkgDir s0). }
    destruct (readdirSync fs dir) as [entries |] eqn:Hr; [| discriminate].
    destruct (foldM_throws _ _ _ Hw) as (ent & s0 & Hent & He).
    unfold walk_entry in He.
    destruct (isDirectory ent) eqn:Hdir; cbn [negb orb] in He;
      [| discriminate].
    destruct (prefix "." (d_name ent)) eqn:Hdot; [discriminate |].
    destruct (prefix "@" (d_name ent)) eqn:Hat.
    + cbv zeta in He.
      destruct (readdirSync fs (path_join dir (d_name ent)))
        as [scoped |] eqn:Hrs; [| discriminate].
      destruct (foldM_throws _ _ _ He) as (sc & s1 & Hsc & Hs).
      unfold walk_scoped in Hs.
      destruct (isDirectory sc) eqn:Hsd; cbn [negb] in Hs; [| discriminate].
      apply (Hvisit (path_join (path_join dir (d_name ent)) (d_name sc)) s1);
        [| assumption].
      exists entries, ent. repeat split; try assumption.
      right. split; [assumption |]. exists scoped, sc. now repeat split.
    + apply (Hvisit (path_join dir (d_name ent)) s0); [| assumption].
      exists entries, ent. repeat split; try assumption. now left.
Qed.

End Throws.

(** When the walk of [node_modules] throws. *)
Lemma collectFromNodeModules_throws fs projectRoot h :
  collectFromNodeModules fs projectRoot h <> OutOfFuel /\
  (collectFromNodeModules fs projectRoot h = TypeError <->
   existsSync fs (path_join projectRoot "node_modules") = true /\
   exists pkgDir,
     visited fs (path_join projectRoot "node_modules") 0 pkgDir /\
     manifest_throws fs pkgDir).
Proof.
  split; [apply collectFromNodeModules_fuel |].
  pose proof (collectFromNodeModules_fuel fs projectRoot h) as Hfuel.
  revert Hfuel. unfold collectFromNodeModules. cbv zeta.
  destruct (existsSync fs _) eqn:Hex; cbn [negb];
    [| intros _; split; [discriminate | intros [[=] _]]].
  intros Hfuel. split.
  - intros Hw. split; [reflexivity |]. now apply (walk_throws fs _ _ _ _ Hw).
  - intros (_ & p & Hv & Ht).
    destruct (walk 7 fs _ 0 _) as [st | |] eqn:Hw;
      [| reflexivity | congruence].
    now destruct (walk_ok_no_throw fs _ _ _ _ _ p Hw Hv).
Qed.

(** X5.  [collectFromNodeModules()] always ends, and it throws exactly when
    [node_modules] exists and the walk comes to a package directory whose
    manifest has a name and a version that [String] cannot print; otherwise it
    returns its inventory. *)
Theorem collectFromNodeModules_throws_iff fs projectRoot h :
  collectFromNodeModules fs projectRoot h <> OutOfFuel /\
  (collectFromNodeModules fs projectRoot h = TypeError <->
   existsSync fs (path_join projectRoot "node_modules") = true /\
   exists pkgDir,
     visited fs (path_join projectRoot "node_modules") 0 pkgDir /\
     manifest_throws fs pkgDir).
Proof. apply collectFromNodeModules_throws. Qed.

(** * [add], called again *)

Section AddAgain.

Lemma heap_write_idem h : forall l s,
  heap_write (heap_write h l s) l s = heap_write h l s.
Proof.
  induction h as [| x rest IH]; intros [| l] s; cbn; [auto .. |].
  now rewrite IH.
Qed.

Lemma SetObj_add_idem vs s : SetObj.add (SetObj.add vs s) s = SetObj.add vs s.
Proof.
  assert (H : SetObj.has (SetObj.add vs s) s = true)
    by (apply SetObj_has_In, SetObj_add_In; now right).
  unfold SetObj.add at 1. now rewrite H.
Qed.

(** Where [add] writes: the [Set] of the name in the map it returns. *)
Lemma add_writes m h n v m1 h1 s :
  jsmap_wf m h -> JS.ToString v = Some s -> add m n v h = Ok (m1, h1) ->
  exists l h0,
    MapObj.get m1 n = Some l /\ l < List.length h0 /\
    h1 = heap_write h0 l (SetObj.add (heap_read h0 l) s).
Proof.
  intros [Hnd Hval] Hs. unfold add, String_. rewrite Hs.
  destruct (MapObj.has m n) eqn:Hhas; cbn [negb heap_alloc].
  - destruct (MapObj.get m n) as [l |] eqn:Hg;
      [| apply MapObj_has_get in Hg; congruence].
    cbn [bind]. intros [= <- <-]. exists l, h. split; [assumption |].
    split; [| reflexivity]. apply Hval. now apply (MapObj_get_loc m n).
  - rewrite MapObj_get_set, String.eqb_refl. cbn [bind]. intros [= <- <-].
    exists (List.length h), (h ++ [[]]).
    rewrite MapObj_get_set, String.eqb_refl.
    split; [reflexivity |]. split; [| reflexivity].
    rewrite length_app. store_lia.
Qed.

End AddAgain.

(** X6.  [add] puts the printed version under the name and touches nothing
    else that the map holds, and it is idempotent: the same call again leaves
    the map and every [Set] as they are. *)
Theorem add_twice_is_add_once
  (m : jsmap) (h : heap) (n : string) (v : jsval) (m1 : jsmap) (h1 : heap) :
  jsmap_wf m h -> add m n v h = Ok (m1, h1) ->
  add m1 n v h1 = Ok (m1, h1) /\
  exists s,
    JS.ToString v = Some s /\
    forall k x,
      installs (deref h1 m1) k x <->
      installs (deref h m) k x \/ (k = n /\ x = s).
Proof.
  intros Hwf Hadd.
  destruct (JS.ToString v) as [s |] eqn:Hs;
    [| rewrite (add_throws m h n v Hs) in Hadd; discriminate].
  split.
  - destruct (add_writes m h n v m1 h1 s Hwf Hs Hadd)
      as (l & h0 & Hget & Hl & ->).
    unfold add, String_. rewrite Hs.
    unfold MapObj.has. rewrite Hget. cbn [negb]. rewrite Hget. cbn [bind].
    rewrite heap_read_write_eq by assumption.
    now rewrite SetObj_add_idem, heap_write_idem.
  - exists s. split; [reflexivity |]. intros k x.
    destruct (add_deref m h n v s Hwf Hs) as (m' & h' & Hadd' & _ & _ & Hd & _).
    pose proof (eq_trans (eq_sym Hadd) Hadd') as Heq.
    injection Heq as -> ->. rewrite Hd. apply installs_inv_add.
Qed.

Lemma add_twice_is_add_once_witness :
  jsmap_wf union_a union_heap /\
  add union_a "y" (JNum 3 0) union_heap =
    Ok (union_a, [["1"]; ["2"; "3"]; ["2"; "3"]; ["4"]]) /\
  add union_a "y" (JNum 3 0) [["1"]; ["2"; "3"]; ["2"; "3"]; ["4"]] =
    Ok (union_a, [["1"]; ["2"; "3"]; ["2"; "3"]; ["4"]]) /\
  exists s,
    JS.ToString (JNum 3 0) = Some s /\
    forall k x,
      installs (deref [["1"]; ["2"; "3"]; ["2"; "3"]; ["4"]] union_a) k x <->
      installs (deref union_heap union_a) k x \/ (k = "y" /\ x = s).
Proof.
  assert (Hwf : jsmap_wf union_a union_heap).
  { split; [solve_NoDup |]. cbn. intros l [<- | [<- | []]]; lia. }
  split; [exact Hwf |]. split; [reflexivity |].
  exact (add_twice_is_add_once union_a union_heap "y" (JNum 3 0) union_a
           [["1"]; ["2"; "3"]; ["2"; "3"]; ["4"]] Hwf eq_refl).
Defined.

(** * The merge: the order of the names, and what becomes of the inputs *)

Section MergeOrder.

Lemma merge_entry_map merged h n lb :
  fst (merge_entry (merged, h) (n, lb)) =
  if MapObj.has merged n then merged
  else MapObj.set merged n (List.length h).
Proof.
  unfold merge_entry. now destruct (MapObj.has merged n).
Qed.

Lemma merge_cons lock e nm h :
  merge lock (e :: nm) h =
  merge (fst (merge_entry (lock, h) e)) nm (snd (merge_entry (lock, h) e)).
Proof.
  unfold merge. cbn [fold_left]. now destruct (merge_entry (lock, h) e).
Qed.

Lemma merge_keys (nm : jsmap) : forall (lock : jsmap) h,
  NoDup (MapObj.keys nm) ->
  MapObj.keys (fst (merge lock nm h)) =
  MapObj.keys lock ++
  filter (fun k => negb (MapObj.has lock k)) (MapObj.keys nm).
Proof.
  induction nm as [| [n lb] rest IH]; intros lock h Hnd.
  - cbn. now rewrite app_nil_r.
  - cbn in Hnd. inversion Hnd as [| ? ? Hn Hrest]; subst.
    rewrite merge_cons, IH by assumption. rewrite merge_entry_map.
    cbn [MapObj.keys map fst filter].
    destruct (MapObj.has lock n) eqn:Hhas; cbn [negb]; [reflexivity |].
    rewrite MapObj_keys_set, Hhas, <- app_assoc. cbn [app]. do 2 f_equal.
    apply filter_ext_in. intros k Hk. unfold MapObj.has.
    rewrite MapObj_get_set.
    destruct (String.eqb n k) eqn:E; [| reflexivity].
    apply String.eqb_eq in E. subst k. contradiction.
Qed.

Lemma merge_get_lock (nm : jsmap) : forall (lock : jsmap) h k,
  MapObj.has lock k = true ->
  MapObj.get (fst (merge lock nm h)) k = MapObj.get lock k.
Proof.
  induction nm as [| [n lb] rest IH]; intros lock h k Hk; [reflexivity |].
  rewrite merge_cons, merge_entry_map.
  assert (Hget : MapObj.get (if MapObj.has lock n then lock
                             else MapObj.set lock n (List.length h)) k =
                 MapObj.get lock k).
  { destruct (MapObj.has lock n) eqn:Hhas; [reflexivity |].
    rewrite MapObj_get_set. destruct (String.eqb n k) eqn:E; [| reflexivity].
    apply String.eqb_eq in E. subst k. congruence. }
  assert (Hhas' : MapObj.has (if MapObj.has lock n then lock
                              else MapObj.set lock n (List.length h)) k = true)
    by (unfold MapObj.has in *; rewrite Hget; exact Hk).
  rewrite IH; [exact Hget | exact Hhas'].
Qed.

End MergeOrder.

(** X7.  The merged map iterates the names of the lockfile first, in their
    order, then the names that only [node_modules] has, in theirs: this is
    the order in which [compare] meets them. *)
Theorem merge_key_order (lock nm : jsmap) (h : heap) :
  NoDup (MapObj.keys nm) ->
  MapObj.keys (merged_view lock nm h) =
  MapObj.keys lock ++
  filter (fun k => negb (MapObj.has lock k)) (MapObj.keys nm).
Proof.
  intros Hnd. unfold merged_view. rewrite deref_keys. now apply merge_keys.
Qed.

Lemma merge_key_order_witness :
  NoDup (MapObj.keys union_b) /\
  MapObj.keys (merged_view union_a union_b union_heap) = ["x"; "y"; "z"] /\
  MapObj.keys (merged_view union_a union_b union_heap) =
  MapObj.keys union_a ++
  filter (fun k => negb (MapObj.has union_a k)) (MapObj.keys union_b).
Proof.
  assert (Hnd : NoDup (MapObj.keys union_b)) by (cbn; solve_NoDup).
  split; [exact Hnd |]. split; [reflexivity |].
  exact (merge_key_order union_a union_b union_heap Hnd).
Defined.

(** X8.  What the merge does to its inputs: [merged] keeps, under every
    name of [lock], the very [Set] that [lock] has there, so after the merge
    [lock] holds under each of its names the versions of both inventories;
    the inventory of [node_modules] holds what it held. *)
Theorem merge_grows_lock_keeps_nm (lock nm : jsmap) (h : heap) :
  jsmap_wf lock h -> jsmap_wf nm h -> separate lock nm ->
  NoDup (MapObj.keys nm) ->
  (forall n, MapObj.has lock n = true ->
             MapObj.get (fst (merge lock nm h)) n = MapObj.get lock n) /\
  (forall n v,
      installs (deref (snd (merge lock nm h)) lock) n v <->
      MapObj.has lock n = true /\
      (installs (deref h lock) n v \/ installs (deref h nm) n v)) /\
  deref (snd (merge lock nm h)) nm = deref h nm.
Proof.
  intros Hlock Hnm Hsep Hk.
  split; [intros n Hn; now apply merge_get_lock |].
  split; [| now apply merge_keeps_nm].
  intros n v.
  rewrite <- (merged_view_installs lock nm h Hlock Hnm Hsep n v Hk).
  unfold installs, merged_view. rewrite !deref_get.
  destruct (MapObj.has lock n) eqn:Hhas.
  - rewrite (merge_get_lock nm lock h n Hhas). tauto.
  - apply MapObj_has_get in Hhas. rewrite Hhas. cbn. split.
    + intros (vs & [=] & _).
    + intros [[=] _].
Qed.

Lemma merge_grows_lock_keeps_nm_witness :
  (jsmap_wf union_a union_heap /\ jsmap_wf union_b union_heap /\
   separate union_a union_b /\ NoDup (MapObj.keys union_b)) /\
  deref (snd (merge union_a union_b union_heap)) union_a =
    [("x", ["1"]); ("y", ["2"; "3"])] /\
  (forall n, MapObj.has union_a n = true ->
             MapObj.get (fst (merge union_a union_b union_heap)) n =
             MapObj.get union_a n) /\
  (forall n v,
      installs (deref (snd (merge union_a union_b union_heap)) union_a) n v <->
      MapObj.has union_a n = true /\
      (installs (deref union_heap union_a) n v \/
       installs (deref union_heap union_b) n v)) /\
  deref (snd (merge union_a union_b union_heap)) union_b =
    deref union_heap union_b.
Proof.
  assert (Ha : jsmap_wf union_a union_heap).
  { split; [solve_NoDup |]. cbn. intros l [<- | [<- | []]]; lia. }
  assert (Hb : jsmap_wf union_b union_heap).
  { split; [solve_NoDup |]. cbn. intros l [<- | [<- | []]]; lia. }
  assert (Hsep : separate union_a union_b).
  { intros l [<- | [<- | []]] [H | [H | []]]; discriminate. }
  assert (Hk : NoDup (MapObj.keys union_b)) by (cbn; solve_NoDup).
  split; [exact (conj Ha (conj Hb (conj Hsep Hk))) |].
  split; [reflexivity |].
  exact (merge_grows_lock_keeps_nm union_a union_b union_heap Ha Hb Hsep Hk).
Defined.

(** * Deduplication of what [compare] returns *)

Section Keys.

Lemma has_at_append a b : has_at (a +:+ "@" +:+ b) = true.
Proof.
  induction a as [| c a IH]; cbn; [reflexivity |].
  change (String.append a (String "@" b)) with (a +:+ "@" +:+ b).
  rewrite IH. apply orb_true_r.
Qed.

(** The key names one pair when the versions have no [@]. *)
Lemma key_names_one_pair n1 : forall n2 v1 v2,
  has_at v1 = false -> has_at v2 = false ->
  n1 +:+ "@" +:+ v1 = n2 +:+ "@" +:+ v2 -> n1 = n2 /\ v1 = v2.
Proof.
  induction n1 as [| c n1 IH]; intros [| c2 n2] v1 v2 H1 H2 Heq; cbn in Heq.
  - inversion Heq. auto.
  - inversion Heq as [[Hc Hv]].
    change (String.append n2 (String "@" v2)) with (n2 +:+ "@" +:+ v2) in Hv.
    rewrite Hv, has_at_append in H1. discriminate.
  - inversion Heq as [[Hc Hv]].
    change (String.append n1 (String "@" v1)) with (n1 +:+ "@" +:+ v1) in Hv.
    rewrite <- Hv, has_at_append in H2. discriminate.
  - inversion Heq as [[Hc Hv]].
    destruct (IH n2 v1 v2 H1 H2 Hv) as [-> ->]. auto.
Qed.

Lemma finding_key_inj f g :
  has_at (version f) = false -> has_at (version g) = false ->
  finding_key f = finding_key g -> f = g.
Proof.
  destruct f as [n1 v1], g as [n2 v2]. unfold finding_key. cbn [name version].
  intros H1 H2 Heq. destruct (key_names_one_pair n1 n2 v1 v2 H1 H2 Heq).
  now subst.
Qed.

Lemma NoDup_finding_keys findings :
  NoDup findings ->
  (forall f, In f findings -> has_at (version f) = false) ->
  NoDup (map finding_key findings).
Proof.
  induction findings as [| f rest IH]; intros Hnd Hat; [constructor |].
  inversion Hnd as [| ? ? Hf Hrest]; subst. cbn. constructor.
  - intros Hin. apply in_map_iff in Hin. destruct Hin as (g & Hk & Hg).
    apply Hf. rewrite <- (finding_key_inj g f); auto.
    + apply Hat. now right.
    + apply Hat. now left.
  - apply IH; [assumption |]. intros g Hg. apply Hat. now right.
Qed.

Lemma uniq_filter_subset findings : forall seen f,
  In f (uniq_filter seen findings) -> In f findings.
Proof.
  induction findings as [| g rest IH]; intros seen f; [intros [] |].
  cbn [uniq_filter]. destruct (SetObj.has seen (finding_key g)).
  - intros H. right. eapply IH; eassumption.
  - intros [<- | H]; [now left | right; eapply IH; eassumption].
Qed.

(** Every key of the input is a key of the output, or was seen before. *)
Lemma uniq_filter_covers findings : forall seen f,
  In f findings ->
  In (finding_key f) seen \/
  In (finding_key f) (map finding_key (uniq_filter seen findings)).
Proof.
  induction findings as [| g rest IH]; intros seen f; [intros [] |].
  cbn [uniq_filter]. intros [-> | Hin].
  - destruct (SetObj.has seen (finding_key f)) eqn:E.
    + left. now apply SetObj_has_In.
    + right. now left.
  - destruct (SetObj.has seen (finding_key g)) eqn:E; [now apply IH |].
    destruct (IH (SetObj.add seen (finding_key g)) f Hin) as [H | H].
    + apply SetObj_add_In in H. destruct H as [H | H]; [now left |].
      right. left. now symmetry.
    + right. now right.
Qed.

Lemma uniqFindings_subset findings f :
  In f (uniqFindings findings) -> In f findings.
Proof. apply uniq_filter_subset. Qed.

Lemma uniqFindings_covers findings f :
  In f findings ->
  In (finding_key f) (map finding_key (uniqFindings findings)).
Proof.
  intros H. destruct (uniq_filter_covers findings [] f H) as [[] | H'].
  exact H'.
Qed.

End Keys.


(** X10.  Findings that are pairwise different and whose versions have no
    [@] have pairwise different keys, and [uniqFindings] returns them all, as
    they are: on what [compare] returns for an inventory of such versions the
    deduplication changes nothing. *)
Theorem uniqFindings_keeps_distinct_pairs (findings : list finding) :
  NoDup findings ->
  (forall f, In f findings -> has_at (version f) = false) ->
  uniqFindings findings = findings.
Proof.
  intros Hnd Hat. apply uniq_filter_fixed.
  - now apply NoDup_finding_keys.
  - intros k _ [].
Qed.

Lemma uniqFindings_keeps_distinct_pairs_witness :
  uniqFindings [mkFinding "@scope/pkg" "1.0.0"; mkFinding "@scope/pkg" "1.0.1";
                mkFinding "pkg" "1.0.0"]
  = [mkFinding "@scope/pkg" "1.0.0"; mkFinding "@scope/pkg" "1.0.1";
     mkFinding "pkg" "1.0.0"].
Proof.
  apply uniqFindings_keeps_distinct_pairs.
  - repeat (constructor; [cbn; intuition discriminate |]). constructor.
  - intros f [<- | [<- | [<- | []]]]; reflexivity.
Defined.

(** With an [@] in a version two different pairs can have one key, and the
    second is dropped. *)
Example uniqFindings_drops_a_different_pair :
  uniqFindings [mkFinding "a" "b@c"; mkFinding "a@b" "c"]
  = [mkFinding "a" "b@c"].
Proof. reflexivity. Qed.

(** * [compare], inventory by inventory *)

(** X11.  Whether [compare] throws is decided by the registry alone, whatever
    is installed, even nothing; and the findings of an inventory listed in
    two parts are those of the first part followed by those of the second. *)
Theorem compare_by_parts (i1 i2 : inventory) (knownBad : jsval) :
  (compare i1 knownBad = TypeError <-> compare [] knownBad = TypeError) /\
  compare (i1 ++ i2) knownBad =
  (f1 <- compare i1 knownBad ;;
   f2 <- compare i2 knownBad ;;
   Ok (f1 ++ f2)).
Proof.
  destruct (build_badIndex knownBad) as [badIndex | |] eqn:Hidx.
  - rewrite !(compare_eq _ knownBad badIndex Hidx). cbn [bind].
    split; [split; discriminate |].
    unfold all_pairs. now rewrite flat_map_app, filter_app.
  - rewrite !(compare_throws _ knownBad Hidx). split; [tauto | reflexivity].
  - unfold compare. rewrite Hidx. split; [split; discriminate | reflexivity].
Qed.

(** * [main]: what it reports *)

Example main_infected :
  main infected_fs proc =
  Ok (1%Z, Some [mkFinding "b" "2"; mkFinding "left-pad" "1.0.0"]).
Proof. reflexivity. Qed.

Section Report.

Variables (fs : filesystem) (p : process).

Lemma merged_view_keys_NoDup (lock nm : jsmap) h :
  NoDup (MapObj.keys lock) -> NoDup (MapObj.keys nm) ->
  NoDup (MapObj.keys (merged_view lock nm h)).
Proof.
  intros Hl Hn. unfold merged_view. rewrite deref_keys, merge_keys by assumption.
  apply NoDup_app; [assumption | now apply NoDup_filter |].
  intros k Hk Hf. apply filter_In in Hf. destruct Hf as [_ Hf].
  apply MapObj_has_keys in Hk. rewrite Hk in Hf. discriminate.
Qed.

(** The steps of a run of [main] that reports findings. *)
Lemma main_scan code findings :
  main fs p = Ok (code, Some findings) ->
  exists knownBad nm lock h found,
    SHOW_HELP p = false /\ SHOW_LIST p = false /\
    loadKnownBad fs p = Continue knownBad /\
    collectFromNodeModules fs (projectRoot p) [] = Ok nm /\
    collectFromPackageLock fs (projectRoot p) (store nm) = Ok (lock, h) /\
    compare (merged_view lock (hits nm) h) knownBad = Ok found /\
    findings = uniqFindings found /\
    code = (if (0 <? List.length findings)%nat then 1%Z else 0%Z).
Proof.
  unfold main.
  destruct (SHOW_HELP p); [discriminate |].
  destruct (loadKnownBad fs p) as [c | knownBad]; [discriminate |].
  destruct (SHOW_LIST p).
  { destruct (if OUTPUT_JSON p then Ok tt else print_list knownBad);
      discriminate. }
  destruct (collectFromNodeModules fs (projectRoot p) []) as [nm | |] eqn:Hnm;
    try discriminate.
  cbn [bind].
  destruct (collectFromPackageLock fs (projectRoot p) (store nm))
    as [[lock h] | |] eqn:Hlock; try discriminate.
  cbn [bind].
  destruct (merge lock (hits nm) h) as [merged h'] eqn:Hm.
  destruct (compare (deref h' merged) knownBad) as [found | |] eqn:Hc;
    try discriminate.
  cbn [bind]. intros [= <- <-].
  exists knownBad, nm, lock, h, found.
  unfold merged_view. rewrite Hm. cbn [fst snd]. auto 10.
Qed.

(** What the merged inventory of [main] holds. *)
Lemma main_merged_installs nm lock h n v :
  collectFromNodeModules fs (projectRoot p) [] = Ok nm ->
  collectFromPackageLock fs (projectRoot p) (store nm) = Ok (lock, h) ->
  NoDup (MapObj.keys (merged_view lock (hits nm) h)) /\
  (installs (merged_view lock (hits nm) h) n v <->
   on_disk fs (projectRoot p) n v).
Proof.
  intros Hnm Hlock.
  destruct (main_merges_separate_inventories fs _ _ _ _ Hnm Hlock)
    as (Hwl & Hwn & Hsep & Hkl & Hkn & Hd).
  split; [now apply merged_view_keys_NoDup |].
  rewrite (merged_view_installs lock (hits nm) h Hwl Hwn Hsep n v Hkn).
  rewrite Hd.
  destruct (collectFromNodeModules_scans fs _ _ _ Hnm) as [_ Hscan].
  destruct (collectFromPackageLock_gives fs _ _ _ _ Hlock) as [Hgives _].
  change (deref (store nm) (hits nm)) with (scanned nm).
  rewrite Hscan, Hgives. unfold on_disk. tauto.
Qed.

End Report.



(** * [main]: exit codes and list mode *)

Section Outcome.

Variables (fs : filesystem) (p : process).

Lemma loadKnownBad_exits_2 code : loadKnownBad fs p = Exit code -> code = 2%Z.
Proof.
  rewrite loadKnownBad_source.
  destruct (known_bad_source fs p); [| now intros [= <-]].
  cbv zeta. destruct (_ || _); [now intros [= <-] | discriminate].
Qed.

Lemma loadKnownBad_array data :
  loadKnownBad fs p = Continue data ->
  exists path items,
    known_bad_source fs p = Some path /\
    readJSON fs path = Some data /\
    JS.get data "packages" = JArr items /\
    packages_of data = Ok items.
Proof.
  rewrite loadKnownBad_source.
  destruct (known_bad_source fs p) as [path |] eqn:Hsrc; [| discriminate].
  cbv zeta. unfold readJSONSafe.
  destruct (readJSON fs path) as [d |] eqn:Hr; [| discriminate].
  destruct (JS.truthy d) eqn:Ht; cbn [negb orb]; [| discriminate].
  destruct (JS.get d "packages") as [| | b | z e | s | items | props] eqn:Hg;
    cbn [JS.isArray negb]; try discriminate.
  intros [= <-]. exists path, items.
  split; [reflexivity |]. split; [exact Hr |]. split; [exact Hg |].
  unfold packages_of. rewrite Hg.
  destruct d; try discriminate; reflexivity.
Qed.

Lemma coercible_String_ v :
  String_ v = if coercible v then String_ v else TypeError.
Proof. unfold coercible, String_. now destruct (JS.ToString v). Qed.

Lemma print_list_loop packages :
  foldM
    (fun (_ : unit) (e : jsval) =>
       if JS.nullish e then TypeError
       else
         match JS.get e "badVersions" with
         | JArr items =>
             _ <- String_ (JArr items) ;;
             _ <- String_ (JS.get e "name") ;;
             Ok tt
         | _ => TypeError
         end)
    packages tt =
  if forallb listable packages then Ok tt else TypeError.
Proof.
  induction packages as [| e rest IH]; [reflexivity |].
  cbn [foldM forallb]. unfold listable at 1.
  destruct (JS.nullish e); cbn [negb andb bind]; [reflexivity |].
  destruct (JS.get e "badVersions") as [| | b | z x | s | items | props];
    try reflexivity.
  unfold coercible, String_.
  destruct (JS.ToString (JArr items)); cbn [bind andb]; [| reflexivity].
  destruct (JS.ToString (JS.get e "name")); cbn [bind andb]; [| reflexivity].
  exact IH.
Qed.

Lemma print_list_listable knownBad packages :
  packages_of knownBad = Ok packages ->
  print_list knownBad =
  if forallb listable packages then Ok tt else TypeError.
Proof.
  intros Hp. unfold print_list. rewrite Hp. cbn [bind].
  apply print_list_loop.
Qed.

End Outcome.

(** X13.  [main] always ends: it throws, or it ends with exit code 0, 1 or
    2.  The code is 2 exactly when the registry could not be loaded, 1
    exactly when findings are reported, and nothing is reported exactly in
    help mode, in list mode and when the registry could not be loaded. *)
Theorem main_exit_codes (fs : filesystem) (p : process) :
  main fs p = TypeError \/
  exists code r,
    main fs p = Ok (code, r) /\
    (code = 0 \/ code = 1 \/ code = 2)%Z /\
    (code = 2%Z <-> SHOW_HELP p = false /\ loadKnownBad fs p = Exit 2%Z) /\
    (code = 1%Z <-> exists f rest, r = Some (f :: rest)) /\
    (r = None <->
     SHOW_HELP p = true \/ loadKnownBad fs p = Exit 2%Z \/ SHOW_LIST p = true).
Proof.
  pose proof (main_fuel fs p) as Hfuel. revert Hfuel. unfold main.
  destruct (SHOW_HELP p) eqn:Hhelp.
  { intros _. right. exists 0%Z, None. split; [reflexivity |].
    split; [auto |]. split; [split; [discriminate | intros [[=] _]] |].
    split; [split; [discriminate | intros (f & rest & [=])] |].
    split; auto. }
  destruct (loadKnownBad fs p) as [c | knownBad] eqn:Hload.
  { intros _. right. apply loadKnownBad_exits_2 in Hload as Hc. subst c.
    exists 2%Z, None. split; [reflexivity |]. split; [auto |].
    split; [split; auto |].
    split; [split; [discriminate | intros (f & rest & [=])] |].
    split; auto. }
  destruct (SHOW_LIST p) eqn:Hlist.
  { destruct (if OUTPUT_JSON p then Ok tt else print_list knownBad);
      cbn [bind]; intros Hfuel; [| now left | congruence].
    right. exists 0%Z, None. split; [reflexivity |]. split; [auto |].
    split; [split; [discriminate | intros [_ [=]]] |].
    split; [split; [discriminate | intros (f & rest & [=])] |].
    split; auto. }
  destruct (collectFromNodeModules fs (projectRoot p) []) as [nm | |];
    cbn [bind]; intros Hfuel; [| now left | congruence].
  revert Hfuel.
  destruct (collectFromPackageLock fs (projectRoot p) (store nm))
    as [[lock h] | |]; cbn [bind]; intros Hfuel; [| now left | congruence].
  revert Hfuel.
  destruct (merge lock (hits nm) h) as [merged h'].
  destruct (compare (deref h' merged) knownBad) as [found | |];
    cbn [bind]; intros Hfuel; [| now left | congruence].
  right. destruct (uniqFindings found) as [| f rest]; cbn.
  - exists 0%Z, (Some []). split; [reflexivity |]. split; [auto |].
    split; [split; [discriminate | intros [_ [=]]] |].
    split; [split; [discriminate | intros (f & rest & [=])] |].
    split; [discriminate | intros [[=] | [[=] | [=]]]].
  - exists 1%Z, (Some (f :: rest)). split; [reflexivity |]. split; [auto |].
    split; [split; [discriminate | intros [_ [=]]] |].
    split; [split; eauto |].
    split; [discriminate | intros [[=] | [[=] | [=]]]].
Qed.

(** X14.  In list mode nothing is scanned.  With [--json] the exit code is 0
    for every registry that loads; without it the registry is printed entry
    by entry, and the exit code is 0 when every entry can be printed (its
    [badVersions] is an array that [join] prints and its [name] prints),
    else [main] throws. *)
Theorem list_mode_prints_or_throws
  (fs : filesystem) (p : process) (knownBad : jsval) :
  SHOW_HELP p = false -> SHOW_LIST p = true ->
  loadKnownBad fs p = Continue knownBad ->
  exists packages,
    JS.get knownBad "packages" = JArr packages /\
    main fs p =
    if OUTPUT_JSON p || forallb listable packages then Ok (0%Z, None)
    else TypeError.
Proof.
  intros Hhelp Hlist Hload.
  destruct (loadKnownBad_array fs p knownBad Hload)
    as (path & packages & _ & _ & Hg & Hp).
  exists packages. split; [assumption |].
  unfold main. rewrite Hhelp, Hload, Hlist.
  destruct (OUTPUT_JSON p); cbn [orb bind]; [reflexivity |].
  rewrite (print_list_listable knownBad packages Hp).
  now destruct (forallb listable packages).
Qed.

Lemma list_mode_prints_or_throws_witness :
  loadKnownBad scenario_fs proc_list = Continue scenario_knownBad /\
  main scenario_fs proc_list = Ok (0%Z, None) /\
  exists packages,
    JS.get scenario_knownBad "packages" = JArr packages /\
    main scenario_fs proc_list =
    if OUTPUT_JSON proc_list || forallb listable packages then Ok (0%Z, None)
    else TypeError.
Proof.
  split; [reflexivity |]. split; [reflexivity |].
  exact (list_mode_prints_or_throws scenario_fs proc_list scenario_knownBad
           eq_refl eq_refl eq_refl).
Defined.

(** An entry without [badVersions] loads, and stops the plain list mode. *)
Example list_mode_throws :
  main (mkFs (existsSync scenario_fs) (readdirSync scenario_fs)
          (file_is "/proj/compromised.json" unlisted_knownBad)) proc_list
  = TypeError.
Proof. reflexivity. Qed.

(** X15.  The registry that [loadKnownBad] returns is the parsed file of the
    project when that file exists, else the bundled one, and its [packages]
    is an array: the loops over [knownBad.packages] iterate its elements.  A
    file of the project that exists hides the bundled one, valid or not. *)
Theorem loadKnownBad_returns_registry
  (fs : filesystem) (p : process) (data : jsval) :
  loadKnownBad fs p = Continue data ->
  exists path items,
    readJSON fs path = Some data /\
    JS.get data "packages" = JArr items /\
    packages_of data = Ok items /\
    (path = path_join (projectRoot p) "compromised.json" \/
     path = path_join (dirname p) "compromised.json" /\
     existsSync fs (path_join (projectRoot p) "compromised.json") = false) /\
    existsSync fs path = true.
Proof.
  intros Hload.
  destruct (loadKnownBad_array fs p data Hload)
    as (path & items & Hsrc & Hr & Hg & Hp).
  exists path, items. repeat (split; [assumption |]).
  unfold known_bad_source in Hsrc.
  destruct (existsSync fs (path_join (projectRoot p) "compromised.json"))
    eqn:Hroot.
  - injection Hsrc as <-. auto.
  - destruct (existsSync fs (path_join (dirname p) "compromised.json"))
      eqn:Hb; [| discriminate].
    injection Hsrc as <-. auto.
Qed.

Lemma loadKnownBad_returns_registry_witness :
  loadKnownBad scenario_fs proc = Continue scenario_knownBad /\
  exists path items,
    readJSON scenario_fs path = Some scenario_knownBad /\
    JS.get scenario_knownBad "packages" = JArr items /\
    packages_of scenario_knownBad = Ok items /\
    (path = path_join (projectRoot proc) "compromised.json" \/
     path = path_join (dirname proc) "compromised.json" /\
     existsSync scenario_fs (path_join (projectRoot proc) "compromised.json")
     = false) /\
    existsSync scenario_fs path = true.
Proof.
  split; [reflexivity |].
  exact (loadKnownBad_returns_registry scenario_fs proc scenario_knownBad
           eq_refl).
Defined.

(** * The verbose listing *)

Section Verbose.

Variable badIndex : MapObj.t SetObj.t.

Lemma is_compromised_flagged f :
  is_compromised (line_of badIndex f) = flagged badIndex f.
Proof.
  unfold is_compromised, line_of, status_of, flagged, MapObj.has. cbn [snd].
  destruct (MapObj.get badIndex (name f)) as [bad |]; [| reflexivity].
  cbn [andb]. now destruct (SetObj.has bad (version f)).
Qed.

Lemma verbose_line_step n out v :
  verbose_line badIndex n out v =
  mkListing (lines out ++ [line_of badIndex (mkFinding n v)])
            (S (checkedCount out))
            (if flagged badIndex (mkFinding n v)
             then S (compromisedCount out) else compromisedCount out).
Proof.
  rewrite <- is_compromised_flagged.
  unfold verbose_line, is_compromised, line_of. cbn [name version snd].
  now destruct (status_of badIndex n v).
Qed.

Lemma verbose_versions n vs : forall out,
  fold_left (verbose_line badIndex n) vs out =
  mkListing
    (lines out ++ map (line_of badIndex) (map (mkFinding n) vs))
    (checkedCount out + List.length vs)
    (compromisedCount out +
     List.length (filter (flagged badIndex) (map (mkFinding n) vs))).
Proof.
  induction vs as [| v rest IH]; intros out.
  - cbn. rewrite app_nil_r, !Nat.add_0_r. now destruct out.
  - cbn [fold_left]. rewrite IH, verbose_line_step.
    cbn [lines checkedCount compromisedCount map filter List.length].
    rewrite <- app_assoc. cbn [app]. f_equal; [lia |].
    destruct (flagged badIndex (mkFinding n v)); cbn [List.length]; lia.
Qed.

Lemma verbose_loop installed : forall out,
  fold_left
    (fun out e => fold_left (verbose_line badIndex (fst e)) (snd e) out)
    installed out =
  mkListing
    (lines out ++ map (line_of badIndex) (all_pairs installed))
    (checkedCount out + List.length (all_pairs installed))
    (compromisedCount out +
     List.length (filter (flagged badIndex) (all_pairs installed))).
Proof.
  induction installed as [| [n vs] rest IH]; intros out.
  - cbn. rewrite app_nil_r, !Nat.add_0_r. now destruct out.
  - cbn [fold_left fst snd]. rewrite IH, verbose_versions.
    cbn [lines checkedCount compromisedCount].
    unfold all_pairs. cbn [flat_map fst snd].
    rewrite map_app, filter_app, !length_app, <- app_assoc, length_map.
    f_equal; lia.
Qed.

Lemma filter_lines l :
  map fst (filter is_compromised (map (line_of badIndex) l)) =
  filter (flagged badIndex) l.
Proof.
  induction l as [| f rest IH]; [reflexivity |].
  cbn [map filter]. rewrite is_compromised_flagged.
  destruct (flagged badIndex f); cbn [map fst]; now rewrite IH.
Qed.

Lemma fst_lines l : map fst (map (line_of badIndex) l) = l.
Proof.
  induction l as [| f rest IH]; [reflexivity |]. cbn. now rewrite IH.
Qed.

End Verbose.

Section Counts.

Lemma uniq_filter_length findings : forall seen,
  List.length (uniq_filter seen findings) <= List.length findings.
Proof.
  induction findings as [| f rest IH]; intros seen; [constructor |].
  cbn [uniq_filter List.length].
  destruct (SetObj.has seen (finding_key f));
    [specialize (IH seen) | specialize (IH (SetObj.add seen (finding_key f)))];
    cbn [List.length]; lia.
Qed.

End Counts.



(** * The lockfile collector: when it throws *)

Example collectFromPackageLock_hostile :
  collectFromPackageLock hostile_fs "/proj" [] = TypeError.
Proof. reflexivity. Qed.

Section LockThrows.

Lemma walkDeps_unfold fuel obj st :
  walkDeps (S fuel) obj st =
  if negb (JS.truthy obj) || negb (JS.typeof_object obj) then Ok st
  else foldM (walkDeps_entry fuel) (JS.entries obj) st.
Proof.
  cbn [walkDeps]. destruct (_ || _); [reflexivity |].
  apply foldM_ext. intros s [n meta] _. reflexivity.
Qed.

Lemma dep_node_not_leaf obj n meta :
  dep_node obj n meta ->
  negb (JS.truthy obj) || negb (JS.typeof_object obj) = false.
Proof.
  intros H.
  assert (Hobj : JS.truthy obj = true /\ JS.typeof_object obj = true)
    by (inversion H; auto).
  now rewrite (proj1 Hobj), (proj2 Hobj).
Qed.

Lemma version_step_ok (st st1 : jsmap * heap) n meta :
  (if JS.truthy (JS.get meta "version")
   then add (fst st) n (JS.get meta "version") (snd st)
   else Ok st) = Ok st1 ->
  JS.truthy (JS.get meta "version") = true ->
  JS.ToString (JS.get meta "version") <> None.
Proof.
  intros Hrun Hv Hs. rewrite Hv, (add_throws _ _ _ _ Hs) in Hrun.
  discriminate.
Qed.

Lemma version_step_throws (st : jsmap * heap) n meta :
  (if JS.truthy (JS.get meta "version")
   then add (fst st) n (JS.get meta "version") (snd st)
   else Ok st) = TypeError ->
  JS.truthy (JS.get meta "version") = true /\
  JS.ToString (JS.get meta "version") = None.
Proof.
  destruct (JS.truthy (JS.get meta "version")); [| discriminate].
  intros Hadd. split; [reflexivity |].
  destruct (JS.ToString (JS.get meta "version")) as [s |] eqn:Hs;
    [| reflexivity].
  destruct (add_ok (fst st) (snd st) n _ s Hs) as [r Hr]. congruence.
Qed.

(** A walk of the tree that returns met no version that throws. *)
Lemma walkDeps_ok_no_throw fuel : forall obj st st',
  walkDeps fuel obj st = Ok st' -> ~ tree_throws obj.
Proof.
  induction fuel as [| fuel IH]; intros obj st st' Hrun (n & meta & Hnode & Hv & Hs).
  - cbn [walkDeps] in Hrun. rewrite (dep_node_not_leaf _ _ _ Hnode) in Hrun.
    discriminate.
  - rewrite walkDeps_unfold, (dep_node_not_leaf _ _ _ Hnode) in Hrun.
    inversion Hnode as [o k x _ _ Hin Hm | o k' x' k x _ _ Hin Hm Hd Hbelow];
      subst.
    + destruct (foldM_ok_member _ _ _ Hin _ _ Hrun) as (s0 & s1 & He).
      unfold walkDeps_entry in He. cbn [fst snd] in He.
      rewrite Hm in He. cbn [negb] in He.
      destruct (if JS.truthy (JS.get meta "version") then _ else _)
        as [st1 | |] eqn:Hstep; try discriminate.
      now apply (version_step_ok s0 st1 n meta Hstep Hv).
    + destruct (foldM_ok_member _ _ _ Hin _ _ Hrun) as (s0 & s1 & He).
      unfold walkDeps_entry in He. cbn [fst snd] in He.
      rewrite Hm in He. cbn [negb] in He.
      destruct (if JS.truthy (JS.get x' "version") then _ else _)
        as [st1 | |]; try discriminate.
      cbn [bind] in He. rewrite Hd in He.
      apply (IH _ _ _ He). exists n, meta. auto.
Qed.

(** A walk of the tree that throws met a version that throws. *)
Lemma walkDeps_throws fuel : forall obj st,
  walkDeps fuel obj st = TypeError -> tree_throws obj.
Proof.
  induction fuel as [| fuel IH]; intros obj st Hrun.
  - cbn [walkDeps] in Hrun. destruct (_ || _); discriminate.
  - rewrite walkDeps_unfold in Hrun.
    destruct (negb (JS.truthy obj) || negb (JS.typeof_object obj)) eqn:Hleaf;
      [discriminate |].
    apply orb_false_iff in Hleaf. destruct Hleaf as [Ht Ho].
    apply negb_false_iff in Ht. apply negb_false_iff in Ho.
    destruct (foldM_throws _ _ _ Hrun) as ([k x] & s0 & Hin & He).
    unfold walkDeps_entry in He. cbn [fst snd] in He.
    destruct (JS.truthy x) eqn:Hm; cbn [negb] in He; [| discriminate].
    destruct (if JS.truthy (JS.get x "version") then _ else _)
      as [st1 | |] eqn:Hstep; try discriminate.
    + cbn [bind] in He.
      destruct (JS.truthy (JS.get x "dependencies")) eqn:Hd; [| discriminate].
      destruct (IH _ _ He) as (n & meta & Hnode & Hv & Hs).
      exists n, meta. split; [| auto].
      now apply (dep_below obj k x n meta).
    + destruct (version_step_throws s0 k x Hstep) as [Hv Hs].
      exists k, x. split; [| auto]. now apply dep_here.
Qed.

Lemma collect_packages_throws packages st :
  collect_packages packages st = TypeError <-> flat_throws packages.
Proof.
  unfold collect_packages, flat_throws. split.
  - intros Hrun. destruct (foldM_throws _ _ _ Hrun) as ([key meta] & s0 & Hin & He).
    destruct (JS.truthy meta) eqn:Hm; cbn [negb orb] in He; [| discriminate].
    destruct (JS.truthy (JS.get meta "version")) eqn:Hv; cbn [negb] in He;
      [| discriminate].
    exists key, meta. repeat (split; [assumption |]).
    destruct (JS.ToString (JS.get meta "version")) as [s |] eqn:Hs;
      [| reflexivity].
    destruct (add_ok (fst s0) (snd s0) (strip_node_modules key) _ s Hs)
      as [r Hr].
    congruence.
  - intros (key & meta & Hin & Hm & Hv & Hs).
    pose proof (collect_packages_fuel packages st) as Hfuel.
    unfold collect_packages in Hfuel.
    destruct (foldM _ (JS.entries packages) st) as [st' | |] eqn:Hrun;
      [| reflexivity | congruence].
    destruct (foldM_ok_member _ _ _ Hin _ _ Hrun) as (s0 & s1 & He).
    rewrite Hm, Hv in He. cbn [negb orb] in He.
    rewrite (add_throws _ _ _ _ Hs) in He. discriminate.
Qed.

Lemma nothing_thrown_by_leaf obj :
  JS.truthy obj = false -> ~ tree_throws obj.
Proof.
  intros Ht (n & meta & Hnode & _).
  pose proof (dep_node_not_leaf _ _ _ Hnode) as H. rewrite Ht in H.
  discriminate.
Qed.

Variable fs : filesystem.

Lemma collectFromPackageLock_throws root h :
  collectFromPackageLock fs root h = TypeError <->
  (JS.truthy (JS.get (lock_data fs root) "packages") = true /\
   JS.typeof_object (JS.get (lock_data fs root) "packages") = true /\
   flat_throws (JS.get (lock_data fs root) "packages")) \/
  tree_throws (JS.get (lock_data fs root) "dependencies").
Proof.
  pose proof (collectFromPackageLock_fuel fs root h) as Hfuel. revert Hfuel.
  unfold collectFromPackageLock, lock_data. cbv zeta.
  assert (Hnone : forall r : result (jsmap * heap),
             r <> TypeError ->
             r = TypeError <->
             (JS.truthy (JS.get JNull "packages") = true /\
              JS.typeof_object (JS.get JNull "packages") = true /\
              flat_throws (JS.get JNull "packages")) \/
             tree_throws (JS.get JNull "dependencies")).
  { intros r Hr. split; [contradiction |].
    intros [([=] & _) | H]. now apply nothing_thrown_by_leaf in H. }
  destruct (existsSync fs (path_join root "package-lock.json")); cbn [negb];
    [| intros _; apply Hnone; discriminate].
  set (lock := readJSONSafe fs (path_join root "package-lock.json")).
  destruct (JS.truthy lock) eqn:Hlock; cbn [negb].
  2:{ intros _.
      assert (Hget : forall k, JS.get lock k = JUndefined).
      { intros k. destruct lock as [| | b | z e | s | items | props];
          try reflexivity; discriminate. }
      rewrite !Hget. apply Hnone. discriminate. }
  destruct (JS.truthy (JS.get lock "packages")
            && JS.typeof_object (JS.get lock "packages")) eqn:Hp.
  - apply andb_prop in Hp. destruct Hp as [Hp1 Hp2].
    destruct (collect_packages _ _) as [st1 | |] eqn:Hflat; cbn [bind];
      intros Hfuel.
    + assert (Hnf : ~ flat_throws (JS.get lock "packages")).
      { intros H. apply (collect_packages_throws _ ([], h)) in H.
        pose proof (eq_trans (eq_sym H) Hflat) as C. discriminate C. }
      destruct (JS.truthy (JS.get lock "dependencies")) eqn:Hd.
      * split.
        -- intros Hw. right. now apply walkDeps_throws in Hw.
        -- intros [(_ & _ & H) | H]; [contradiction |].
           destruct (walkDeps _ _ _) as [st2 | |] eqn:Hw;
             [| reflexivity | congruence].
           now apply walkDeps_ok_no_throw in Hw.
      * split; [discriminate |].
        intros [(_ & _ & H) | H]; [contradiction |].
        now apply nothing_thrown_by_leaf in H.
    + split; [| reflexivity]. intros _. left.
      repeat (split; [assumption |]).
      apply (collect_packages_throws _ ([], h)). exact Hflat.
    + congruence.
  - cbn [bind]. intros Hfuel.
    assert (Hnf : ~ (JS.truthy (JS.get lock "packages") = true /\
                     JS.typeof_object (JS.get lock "packages") = true /\
                     flat_throws (JS.get lock "packages"))).
    { intros (H1 & H2 & _). rewrite H1, H2 in Hp. discriminate. }
    destruct (JS.truthy (JS.get lock "dependencies")) eqn:Hd.
    + split.
      * intros Hw. right. now apply walkDeps_throws in Hw.
      * intros [H | H]; [contradiction |].
        destruct (walkDeps _ _ _) as [st2 | |] eqn:Hw;
          [| reflexivity | congruence].
        now apply walkDeps_ok_no_throw in Hw.
    + split; [discriminate |]. intros [H | H]; [contradiction |].
      now apply nothing_thrown_by_leaf in H.
Qed.

End LockThrows.

(** X17.  [collectFromPackageLock] returns only when no record of the flat
    map and no node of the tree, at whatever depth, has a version that
    [String] cannot print, and it throws a [TypeError] only when one has.
    The same holds of [walkDeps] under every bound on the depth of its
    recursion, such as the call stack sets: a tree too deep for the bound
    ends the walk otherwise, neither with a return nor with a [TypeError].
    A lockfile that is missing or cannot be parsed has no such version. *)
Theorem collectFromPackageLock_outcomes
  (fs : filesystem) (root : string) (h : heap) :
  (forall st, collectFromPackageLock fs root h = Ok st ->
              ~ ((JS.truthy (JS.get (lock_data fs root) "packages") = true /\
                  JS.typeof_object (JS.get (lock_data fs root) "packages")
                  = true /\
                  flat_throws (JS.get (lock_data fs root) "packages")) \/
                 tree_throws (JS.get (lock_data fs root) "dependencies"))) /\
  (collectFromPackageLock fs root h = TypeError ->
   (JS.truthy (JS.get (lock_data fs root) "packages") = true /\
    JS.typeof_object (JS.get (lock_data fs root) "packages") = true /\
    flat_throws (JS.get (lock_data fs root) "packages")) \/
   tree_throws (JS.get (lock_data fs root) "dependencies")) /\
  (forall limit obj st,
      (forall st', walkDeps limit obj st = Ok st' -> ~ tree_throws obj) /\
      (walkDeps limit obj st = TypeError -> tree_throws obj)) /\
  (existsSync fs (path_join root "package-lock.json") = false \/
   readJSON fs (path_join root "package-lock.json") = None ->
   collectFromPackageLock fs root h = Ok ([], h)).
Proof.
  split; [| split; [| split]].
  - intros st Hrun Hbad.
    apply (collectFromPackageLock_throws fs root h) in Hbad. congruence.
  - apply collectFromPackageLock_throws.
  - intros limit obj st. split.
    + intros st'. apply walkDeps_ok_no_throw.
    + apply walkDeps_throws.
  - unfold collectFromPackageLock, readJSONSafe. cbv zeta.
    intros [-> | Hr]; [reflexivity |].
    destruct (existsSync fs _); [| reflexivity]. now rewrite Hr.
Qed.

(** * [main]: when the scan throws *)

Example main_hostile : main hostile_fs proc = TypeError.
Proof. reflexivity. Qed.

Section ScanThrows.

Variables (fs : filesystem) (p : process).

Lemma build_badIndex_throws knownBad packages :
  packages_of knownBad = Ok packages ->
  build_badIndex knownBad = TypeError <-> forallb entry_ok packages = false.
Proof.
  intros Hp. unfold build_badIndex. rewrite Hp. cbn [bind]. split.
  - intros Hl. destruct (forallb entry_ok packages) eqn:E; [| reflexivity].
    apply (badIndex_loop_ok packages []) in E. destruct E as [idx E].
    congruence.
  - apply badIndex_loop_fails.
Qed.

Lemma compare_throws_iff installed knownBad packages :
  packages_of knownBad = Ok packages ->
  compare installed knownBad = TypeError <->
  forallb entry_ok packages = false.
Proof.
  intros Hp. rewrite <- (build_badIndex_throws knownBad packages Hp).
  destruct (build_badIndex knownBad) as [idx | |] eqn:Hidx.
  - rewrite (compare_eq _ _ _ Hidx). split; discriminate.
  - rewrite (compare_throws _ _ Hidx). tauto.
  - unfold compare. rewrite Hidx. split; discriminate.
Qed.

Lemma main_scan_throws knownBad packages :
  SHOW_HELP p = false -> SHOW_LIST p = false ->
  loadKnownBad fs p = Continue knownBad ->
  packages_of knownBad = Ok packages ->
  main fs p = TypeError <->
  unprintable_on_disk fs (projectRoot p) \/
  forallb entry_ok packages = false.
Proof.
  intros Hhelp Hlist Hload Hp.
  pose proof (main_fuel fs p) as Hfuel. revert Hfuel.
  unfold main, unprintable_on_disk. rewrite Hhelp, Hload, Hlist.
  pose proof (proj2 (collectFromNodeModules_throws fs (projectRoot p) []))
    as Hnm.
  destruct (collectFromNodeModules fs (projectRoot p) []) as [nm | |] eqn:Hc;
    cbn [bind]; intros Hfuel; [| | congruence].
  2:{ split; [| reflexivity]. intros _. left. left. now apply Hnm. }
  assert (Hnm' : ~ (existsSync fs (path_join (projectRoot p) "node_modules")
                    = true /\
                    exists pkgDir,
                      visited fs (path_join (projectRoot p) "node_modules") 0
                        pkgDir /\ manifest_throws fs pkgDir)).
  { intros H. apply Hnm in H. congruence. }
  clear Hnm. revert Hfuel.
  pose proof (collectFromPackageLock_throws fs (projectRoot p) (store nm))
    as Hlock.
  destruct (collectFromPackageLock fs (projectRoot p) (store nm))
    as [[lock h] | |] eqn:Hl; cbn [bind]; intros Hfuel; [| | congruence].
  2:{ split; [| reflexivity]. intros _. left. right. now apply Hlock. }
  assert (Hlock' : ~ ((JS.truthy (JS.get (lock_data fs (projectRoot p))
                                    "packages") = true /\
                       JS.typeof_object (JS.get (lock_data fs (projectRoot p))
                                           "packages") = true /\
                       flat_throws (JS.get (lock_data fs (projectRoot p))
                                      "packages")) \/
                      tree_throws (JS.get (lock_data fs (projectRoot p))
                                     "dependencies"))).
  { intros H. apply Hlock in H. congruence. }
  clear Hlock. revert Hfuel.
  destruct (merge lock (hits nm) h) as [merged h'].
  pose proof (compare_throws_iff (deref h' merged) knownBad packages Hp)
    as Hcmp.
  destruct (compare (deref h' merged) knownBad) as [found | |] eqn:Hcm;
    cbn [bind]; intros Hfuel; [| | congruence].
  - split; [discriminate |]. intros [[H | H] | H]; try contradiction.
    apply Hcmp in H. discriminate.
  - split; [| reflexivity]. intros _. right. now apply Hcmp.
Qed.

End ScanThrows.



(** * The command line *)

Section Flags.

Lemma argv_has args args' a :
  (In a args <-> In a args') ->
  SetObj.has (SetObj.of_list args) a = SetObj.has (SetObj.of_list args') a.
Proof.
  intros H.
  destruct (SetObj.has (SetObj.of_list args') a) eqn:E.
  - apply SetObj_has_In. apply of_list_In. apply H. apply of_list_In.
    now apply SetObj_has_In.
  - apply SetObj_has_false. intros Hin. apply SetObj_has_false in E.
    apply E. apply of_list_In. apply H. now apply of_list_In.
Qed.

End Flags.

(** X19.  The program reads its arguments as a set of five flags: two
    command lines that agree on which of the flags they have, in whatever
    order, how many times, and among whatever other arguments, run the same
    way.  With [--help] or [-h] the program ends with exit code 0 whatever
    the other flags and the file system are, without a registry too. *)
Theorem flags_are_read_as_a_set (cwd dir : string) (args args' : list string) :
  (forall a, In a flags -> (In a args <-> In a args')) ->
  process_of cwd dir args = process_of cwd dir args' /\
  (In "--help" args \/ In "-h" args ->
   forall fs, main fs (process_of cwd dir args) = Ok (0%Z, None)).
Proof.
  intros H.
  assert (Hhas : forall a, In a flags ->
                   SetObj.has (SetObj.of_list args) a =
                   SetObj.has (SetObj.of_list args') a).
  { intros a Ha. apply argv_has. now apply H. }
  split.
  - unfold process_of. cbv zeta.
    rewrite (Hhas "--help"), (Hhas "-h"), (Hhas "--list"), (Hhas "--json"),
      (Hhas "--verbose"); [reflexivity | unfold flags; cbn; auto 10 ..].
  - intros Hhelp fs. unfold main, process_of. cbn [SHOW_HELP].
    assert (Hb : SetObj.has (SetObj.of_list args) "--help"
                 || SetObj.has (SetObj.of_list args) "-h" = true).
    { apply orb_true_iff.
      destruct Hhelp as [Hh | Hh]; [left | right];
        apply SetObj_has_In, of_list_In; exact Hh. }
    now rewrite Hb.
Qed.

Lemma flags_are_read_as_a_set_witness :
  process_of "/proj" "/pkg" ["--json"; "-h"; "--json"; "--color"] =
  process_of "/proj" "/pkg" ["-h"; "--json"] /\
  (In "--help" ["--json"; "-h"; "--json"; "--color"] \/
   In "-h" ["--json"; "-h"; "--json"; "--color"] ->
   forall fs,
     main fs (process_of "/proj" "/pkg" ["--json"; "-h"; "--json"; "--color"])
     = Ok (0%Z, None)).
Proof.
  apply (flags_are_read_as_a_set "/proj" "/pkg"
           ["--json"; "-h"; "--json"; "--color"] ["-h"; "--json"]).
  intros a Ha. unfold flags in Ha. cbn in Ha.
  destruct Ha as [<- | [<- | [<- | [<- | [<- | []]]]]]; cbn;
    split; intros H; repeat (destruct H as [H | H]; try discriminate H);
    auto 10.
Defined.
